(** * DRTester (econml/validate/drtester.py): a shallow embedding

    The validation tests of [DRTester] are translated method by method.
    Conventions of the embedding:

    - a float64 is an [npfloat]: an exact rational when finite, or one of
      [PInf], [NInf], [NaN].  Rounding and the sign of zero are not
      modelled; division by zero and the arithmetic of the special values
      follow IEEE 754 as numpy applies it (a warning, never an exception);
    - an int64 is a [Z], with the wrap-around of numpy's integer sums
      written out ([wrap64]);
    - a Python exception is a value of [exn]; a computation that can raise
      returns a [result]; a method of the object is a function from the
      [world] (the attributes of [self] and numpy's global random state) to
      a [result] and the new [world]: attributes assigned before an
      exception is raised stay assigned;
    - the collaborators that are not part of this file (the nuisance models,
      the CATE estimator, statsmodels' WLS, scipy's normal survival
      function, [weighted_stat], [weighted_se], [calc_uplift]) are the
      fields of the class [Externals], over the types of [ExternalTypes]. *)

From Stdlib Require Import ZArith QArith Qabs Qround Lia Lqa String.
From stdpp Require Import base list option sorting.

Open Scope string_scope.
Open Scope list_scope.
Open Scope Z_scope.

(** ** Floats *)

Inductive npfloat : Type :=
| Fin (q : Q)
| PInf
| NInf
| NaN.

Definition inf_signed (c : comparison) : npfloat :=
  match c with Eq => NaN | Gt => PInf | Lt => NInf end.

Definition fneg (x : npfloat) : npfloat :=
  match x with
  | Fin q => Fin (- q)
  | PInf => NInf
  | NInf => PInf
  | NaN => NaN
  end.

Definition fadd (x y : npfloat) : npfloat :=
  match x, y with
  | NaN, _ | _, NaN => NaN
  | Fin a, Fin b => Fin (a + b)
  | PInf, NInf | NInf, PInf => NaN
  | PInf, _ | _, PInf => PInf
  | NInf, _ | _, NInf => NInf
  end.

Definition fsub (x y : npfloat) : npfloat := fadd x (fneg y).

Definition fmul (x y : npfloat) : npfloat :=
  match x, y with
  | NaN, _ | _, NaN => NaN
  | Fin a, Fin b => Fin (a * b)
  | Fin a, PInf | PInf, Fin a => inf_signed (a ?= 0)%Q
  | Fin a, NInf | NInf, Fin a => inf_signed (CompOpp (a ?= 0)%Q)
  | PInf, PInf | NInf, NInf => PInf
  | PInf, NInf | NInf, PInf => NInf
  end.

Definition fdiv (x y : npfloat) : npfloat :=
  match x, y with
  | NaN, _ | _, NaN => NaN
  | Fin a, Fin b =>
      if Qeq_bool b 0 then inf_signed (a ?= 0)%Q else Fin (a / b)
  | Fin _, (PInf | NInf) => Fin 0
  | (PInf | NInf), (PInf | NInf) => NaN
  | PInf, Fin b => match (b ?= 0)%Q with Lt => NInf | _ => PInf end
  | NInf, Fin b => match (b ?= 0)%Q with Lt => PInf | _ => NInf end
  end.

Definition fabs (x : npfloat) : npfloat :=
  match x with
  | Fin q => Fin (Qabs q)
  | PInf | NInf => PInf
  | NaN => NaN
  end.

(** [x <= y] and [x < y] on floats: false as soon as one side is NaN. *)
Definition fle (x y : npfloat) : bool :=
  match x, y with
  | NaN, _ | _, NaN => false
  | NInf, _ | _, PInf => true
  | Fin a, Fin b => Qle_bool a b
  | _, _ => false
  end.

Definition flt (x y : npfloat) : bool :=
  match x, y with
  | NaN, _ | _, NaN => false
  | PInf, _ | _, NInf => false
  | Fin a, Fin b => negb (Qle_bool b a)
  | _, _ => true
  end.

Definition fge (x y : npfloat) : bool := fle y x.

Definition feqb (x y : npfloat) : bool :=
  match x, y with
  | Fin a, Fin b => Qeq_bool a b
  | PInf, PInf | NInf, NInf => true
  | _, _ => false
  end.

(** Equality of floats up to the representation of the rational. *)
Definition feq (x y : npfloat) : Prop :=
  match x, y with
  | Fin a, Fin b => (a == b)%Q
  | PInf, PInf | NInf, NInf | NaN, NaN => True
  | _, _ => False
  end.

Definition f0 : npfloat := Fin 0.
Definition f1 : npfloat := Fin 1.

(** ** Integers *)

Definition INT64_MIN : Z := - 2 ^ 63.
Definition INT64_MAX : Z := 2 ^ 63 - 1.

Definition wrap64 (z : Z) : Z := (z + 2 ^ 63) mod 2 ^ 64 - 2 ^ 63.

Definition of_int (z : Z) : npfloat := Fin (inject_Z z).

(** Truncation toward zero of a rational. *)
Definition Qtrunc (q : Q) : Z := Z.quot (Qnum q) (Zpos (Qden q)).

(** [x.astype(int)] on one float: truncation toward zero.  A NaN, an
    infinity or a value outside int64 gives the "integer indefinite" value
    [INT64_MIN], which is what the cast produces on x86-64. *)
Definition astype_int (x : npfloat) : Z :=
  match x with
  | Fin q =>
      let t := Qtrunc q in
      if (INT64_MIN <=? t) && (t <=? INT64_MAX) then t else INT64_MIN
  | _ => INT64_MIN
  end.

(** ** Exceptions *)

Inductive exn : Type :=
| Exception (msg : string)
| AssertionError (msg : string)
| AttributeError (msg : string)
| IndexError (msg : string)
| ValueError (msg : string)
| ZeroDivisionError (msg : string).

Inductive result (A : Type) : Type :=
| Ok (a : A)
| Raise (e : exn).
Arguments Ok {A} a.
Arguments Raise {A} e.

#[global] Instance result_ret : MRet result := fun A a => Ok a.
#[global] Instance result_bind : MBind result := fun A B f m =>
  match m with
  | Ok a => f a
  | Raise e => Raise e
  end.

Definition is_Ok {A} (r : result A) : bool :=
  match r with Ok _ => true | Raise _ => false end.

(** [l[i]] for [0 <= i]. *)
Definition index {A} (l : list A) (i : nat) : result A :=
  match l !! i with
  | Some x => Ok x
  | None => Raise (IndexError "index out of bounds")
  end.

(** [for x in xs: acc = f(acc, x)], stopping at the first exception. *)
Fixpoint foldM {A B} (f : A -> B -> result A) (acc : A) (xs : list B)
  : result A :=
  match xs with
  | [] => Ok acc
  | x :: xs' => acc' ← f acc x; foldM f acc' xs'
  end.

Fixpoint mapM {A B} (f : A -> result B) (xs : list A) : result (list B) :=
  match xs with
  | [] => Ok []
  | x :: xs' => y ← f x; ys ← mapM f xs'; Ok (y :: ys)
  end.

(** [range(n)] for a Python int [n]. *)
Definition range (n : Z) : list nat := seq 0 (Z.to_nat n).

(** ** numpy on vectors *)

Definition np_sum (v : list npfloat) : npfloat := fold_left fadd v f0.

Definition np_sum_int (v : list Z) : Z :=
  fold_left (fun a b => wrap64 (a + b)) v 0.

(** [np.zeros(n)]. *)
Definition np_zeros (n : Z) : result (list npfloat) :=
  if n <? 0 then Raise (ValueError "negative dimensions are not allowed")
  else Ok (replicate (Z.to_nat n) f0).

Definition np_ones (n : nat) : list npfloat := replicate n f1.

(** [np.linspace(0, 1, n + 1)]. *)
Definition np_linspace01 (n : Z) : result (list npfloat) :=
  if n + 1 <? 0 then
    Raise (ValueError "Number of samples must be non-negative")
  else if n =? 0 then Ok [f0]
  else
    Ok (map (fun i : nat => Fin (inject_Z (Z.of_nat i) / inject_Z n))
          (seq 0 (Z.to_nat (n + 1)))).

(** [v[mask]] with a boolean mask: the lengths must agree. *)
Fixpoint select {A} (mask : list bool) (v : list A) : list A :=
  match mask, v with
  | b :: mask', x :: v' => if b then x :: select mask' v' else select mask' v'
  | _, _ => []
  end.

Definition mask_index {A} (v : list A) (mask : list bool) : result (list A) :=
  if (length mask =? length v)%nat then Ok (select mask v)
  else Raise (IndexError "boolean index did not match indexed array").

Definition np_any (mask : list bool) : bool := existsb id mask.

Definition np_all (mask : list bool) : bool := forallb id mask.

(** [a & b] on two masks of one length. *)
Definition mask_and (a b : list bool) : list bool := zip_with andb a b.

(** [np.average(v, weights=w)] for a vector. *)
Definition np_average (v : list npfloat) (w : option (list npfloat))
  : result npfloat :=
  match w with
  | None => Ok (fdiv (np_sum v) (of_int (Z.of_nat (length v))))
  | Some w =>
      if negb (length w =? length v)%nat then
        Raise (ValueError "Length of weights not compatible")
      else
        let scl := np_sum w in
        if feqb scl f0 then
          Raise (ZeroDivisionError "Weights sum to zero, can't be normalized")
        else Ok (fdiv (np_sum (zip_with fmul v w)) scl)
  end.

(** ** numpy arrays of at most two dimensions

    The arrays of [DRTester] are scalars ([A0], the outcome of squeezing a
    1 x 1 array), vectors ([A1]) and matrices ([A2], given by the number of
    columns and the list of rows): the effect of the CATE estimator is a
    vector, so that stacking never produces more than two dimensions. *)

Inductive ndarray : Type :=
| A0 (x : npfloat)
| A1 (v : list npfloat)
| A2 (ncols : nat) (rows : list (list npfloat)).

Definition shape (a : ndarray) : list nat :=
  match a with
  | A0 _ => []
  | A1 v => [length v]
  | A2 c rows => [length rows; c]
  end.

Definition ndim (a : ndarray) : nat := length (shape a).

(** [a.shape[0]]. *)
Definition shape0 (a : ndarray) : result nat := index (shape a) 0.

Definition column (k : nat) (rows : list (list npfloat)) : list npfloat :=
  map (fun r => nth k r f0) rows.

(** [a[:, k]]. *)
Definition nd_col (a : ndarray) (k : nat) : result (list npfloat) :=
  match a with
  | A2 c rows =>
      if (k <? c)%nat then Ok (column k rows)
      else Raise (IndexError "index is out of bounds for axis 1")
  | _ => Raise (IndexError "too many indices for array")
  end.

(** [a[ind, k]] with a boolean mask [ind] over the rows. *)
Definition nd_rows_col (a : ndarray) (ind : list bool) (k : nat)
  : result (list npfloat) :=
  col ← nd_col a k;
  mask_index col ind.

(** [a[i, j]]. *)
Definition nd_get (a : ndarray) (i j : nat) : result npfloat :=
  match a with
  | A2 c rows => r ← index rows i; index r j
  | _ => Raise (IndexError "too many indices for array")
  end.

(** [np.zeros((n, c))]. *)
Definition np_zeros2 (n c : nat) : ndarray := A2 c (replicate n (replicate c f0)).

(** [np.stack(vals)] for a list of vectors. *)
Definition np_stack (vals : list (list npfloat)) : result ndarray :=
  match vals with
  | [] => Raise (ValueError "need at least one array to stack")
  | v :: vals' =>
      if forallb (fun v' => (length v' =? length v)%nat) vals'
      then Ok (A2 (length v) vals)
      else Raise (ValueError "all input arrays must have the same shape")
  end.

(** [a.T]. *)
Definition np_T (a : ndarray) : ndarray :=
  match a with
  | A2 c rows => A2 (length rows) (map (fun j => column j rows) (seq 0 c))
  | _ => a
  end.

(** [a.squeeze()]: every axis of length one is removed. *)
Definition np_squeeze (a : ndarray) : ndarray :=
  match a with
  | A0 x => A0 x
  | A1 v => match v with [x] => A0 x | _ => A1 v end
  | A2 c rows =>
      match rows, c with
      | [r], 1%nat => A0 (nth 0 r f0)
      | [r], _ => A1 r
      | _, 1%nat => A1 (column 0 rows)
      | _, _ => A2 c rows
      end
  end.

(** [if a.ndim == 1: a = a[..., np.newaxis]]. *)
Definition standardize_2d (a : ndarray) : ndarray :=
  match a with
  | A1 v => A2 1 (map (fun x => [x]) v)
  | _ => a
  end.

(** [np.average(a, axis=0, weights=w)] on a matrix: one average per
    column. *)
Definition np_average_axis0 (a : ndarray) (w : option (list npfloat))
  : result (list npfloat) :=
  match a with
  | A2 c rows =>
      match w with
      | None =>
          Ok (map (fun j => fdiv (np_sum (column j rows))
                              (of_int (Z.of_nat (length rows)))) (seq 0 c))
      | Some w =>
          if negb (length w =? length rows)%nat then
            Raise (ValueError "Length of weights not compatible")
          else
            let scl := np_sum w in
            if feqb scl f0 then
              Raise (ZeroDivisionError
                       "Weights sum to zero, can't be normalized")
            else
              Ok (map (fun j =>
                         fdiv (np_sum (zip_with fmul (column j rows) w)) scl)
                    (seq 0 c))
      end
  | _ => Raise (ValueError "average over axis 0 of an array that is not a matrix")
  end.

(** ** The collaborators

    What [DRTester] calls and does not define.  A feature matrix is a list
    of rows of an unspecified type; the outcome of a model is a function of
    what it is fitted on and applied to. *)

Class ExternalTypes : Type := {
  row : Type;
  splitter : Type;
  fitted_propensity : Type;
  rng : Type;
  curve_df : Type;
}.

Class Externals `{ExternalTypes} : Type := {
  (** [self.cate.effect(X=X, T0=t0, T1=t1)] *)
  cate_effect : list row -> Z -> Z -> list npfloat;
  (** [self.model_regression.fit(X, y, sample_weight=w).predict(X')] *)
  regression_fit_predict :
    list row -> list npfloat -> list npfloat -> list row -> list npfloat;
  (** [deepcopy(self.model_propensity).fit(X, D, sample_weight=w)] *)
  propensity_fit : list row -> list Z -> list npfloat -> fitted_propensity;
  propensity_predict_proba : fitted_propensity -> list row -> ndarray;
  (** [cross_val_predict(self.model_propensity, X, D, cv=splits,
      method='predict_proba')] *)
  cross_val_predict_proba :
    list row -> list Z -> list (list nat * list nat) -> ndarray;
  (** [check_cv(self.cv, [0], classifier=True)], shuffled with the seed of
      [get_cv_splitter] *)
  check_cv : splitter;
  split : splitter -> list row -> list Z -> list (list nat * list nat);
  (** [weighted_stat(values, q, sample_weight, mode='quantile')] *)
  weighted_stat : list npfloat -> list npfloat -> list Z -> list npfloat;
  (** [weighted_se(values, weights)] *)
  weighted_se : list npfloat -> list Z -> npfloat;
  (** [WLS(y, add_constant(x), weights=w).fit(cov_type='HC1')]: the
      coefficient of [x], its standard error and its p-value *)
  wls_hc1 :
    list npfloat -> list npfloat -> list npfloat ->
    npfloat * npfloat * npfloat;
  (** [calc_uplift(cate_preds_train, cate_preds_val, dr_val, percentiles,
      metric, n_bootstrap, sample_weight_train, sample_weight_val)], which
      draws from numpy's global random state *)
  calc_uplift :
    rng -> list npfloat -> list npfloat -> list npfloat -> list npfloat ->
    string -> Z -> list Z -> list Z -> (npfloat * npfloat * curve_df) * rng;
  (** [scipy.stats.norm.sf] *)
  norm_sf : npfloat -> npfloat;
}.

(** ** Result objects (econml/validate/results.py keeps what it is given) *)

Record df_plot : Type := {
  df_ind : list Z;
  df_gate : list npfloat;
  df_se_gate : list npfloat;
  df_g_cate : list npfloat;
  df_se_g_cate : list npfloat;
}.

Record CalibrationEvaluationResults : Type := {
  cal_r_squared : list npfloat;
  plot_data_dict : list (Z * df_plot);
  cal_treatments : list Z;
}.

Record BLPEvaluationResults : Type := {
  blp_params : list npfloat;
  blp_errs : list npfloat;
  blp_pvals : list npfloat;
  blp_treatments : list Z;
}.

Record UpliftEvaluationResults `{ExternalTypes} : Type := {
  uplift_params : list npfloat;
  uplift_errs : list npfloat;
  uplift_pvals : list npfloat;
  uplift_treatments : list Z;
  curve_data_dict : list (Z * curve_df);
}.

Record EvaluationResults `{ExternalTypes} : Type := {
  all_blp_res : BLPEvaluationResults;
  all_cal_res : CalibrationEvaluationResults;
  all_qini_res : UpliftEvaluationResults;
  all_toc_res : UpliftEvaluationResults;
}.

(** [d[key] = v] on a dict kept in insertion order. *)
Fixpoint dict_set {V} (d : list (Z * V)) (key : Z) (v : V) : list (Z * V) :=
  match d with
  | [] => [(key, v)]
  | (k', v') :: d' =>
      if k' =? key then (k', v) :: d' else (k', v') :: dict_set d' key v
  end.

(** ** The object

    An attribute that has not been assigned yet is [None]: [hasattr] is
    [is_Some]. *)

Section DRTester.
Context {Types : ExternalTypes} {Ext : Externals}.

Record DRTester : Type := {
  cv_splitter : option (splitter);
  Dval : option (list Z);
  treatments : option (list Z);
  n_treat : option (Z);
  fit_on_train : option (bool);
  dr_train_ : option (ndarray);
  dr_val_ : option (ndarray);
  ate_val : option (list npfloat);
  model_propensity_ : option (fitted_propensity);
  cate_preds_val_ : option (ndarray);
  cate_preds_train_ : option (ndarray);
  cal_res : option (CalibrationEvaluationResults);
  blp_res : option (BLPEvaluationResults);
  uplift_res : option (UpliftEvaluationResults);
  res : option (EvaluationResults);
}.

Definition new_DRTester : DRTester :=
  {| cv_splitter := None;
     Dval := None;
     treatments := None;
     n_treat := None;
     fit_on_train := None;
     dr_train_ := None;
     dr_val_ := None;
     ate_val := None;
     model_propensity_ := None;
     cate_preds_val_ := None;
     cate_preds_train_ := None;
     cal_res := None;
     blp_res := None;
     uplift_res := None;
     res := None |}.

Definition set_cv_splitter (v : splitter) (s : DRTester) : DRTester :=
  {| cv_splitter := Some v;
     Dval := Dval s;
     treatments := treatments s;
     n_treat := n_treat s;
     fit_on_train := fit_on_train s;
     dr_train_ := dr_train_ s;
     dr_val_ := dr_val_ s;
     ate_val := ate_val s;
     model_propensity_ := model_propensity_ s;
     cate_preds_val_ := cate_preds_val_ s;
     cate_preds_train_ := cate_preds_train_ s;
     cal_res := cal_res s;
     blp_res := blp_res s;
     uplift_res := uplift_res s;
     res := res s |}.

Definition set_Dval (v : list Z) (s : DRTester) : DRTester :=
  {| cv_splitter := cv_splitter s;
     Dval := Some v;
     treatments := treatments s;
     n_treat := n_treat s;
     fit_on_train := fit_on_train s;
     dr_train_ := dr_train_ s;
     dr_val_ := dr_val_ s;
     ate_val := ate_val s;
     model_propensity_ := model_propensity_ s;
     cate_preds_val_ := cate_preds_val_ s;
     cate_preds_train_ := cate_preds_train_ s;
     cal_res := cal_res s;
     blp_res := blp_res s;
     uplift_res := uplift_res s;
     res := res s |}.

Definition set_treatments (v : list Z) (s : DRTester) : DRTester :=
  {| cv_splitter := cv_splitter s;
     Dval := Dval s;
     treatments := Some v;
     n_treat := n_treat s;
     fit_on_train := fit_on_train s;
     dr_train_ := dr_train_ s;
     dr_val_ := dr_val_ s;
     ate_val := ate_val s;
     model_propensity_ := model_propensity_ s;
     cate_preds_val_ := cate_preds_val_ s;
     cate_preds_train_ := cate_preds_train_ s;
     cal_res := cal_res s;
     blp_res := blp_res s;
     uplift_res := uplift_res s;
     res := res s |}.

Definition set_n_treat (v : Z) (s : DRTester) : DRTester :=
  {| cv_splitter := cv_splitter s;
     Dval := Dval s;
     treatments := treatments s;
     n_treat := Some v;
     fit_on_train := fit_on_train s;
     dr_train_ := dr_train_ s;
     dr_val_ := dr_val_ s;
     ate_val := ate_val s;
     model_propensity_ := model_propensity_ s;
     cate_preds_val_ := cate_preds_val_ s;
     cate_preds_train_ := cate_preds_train_ s;
     cal_res := cal_res s;
     blp_res := blp_res s;
     uplift_res := uplift_res s;
     res := res s |}.

Definition set_fit_on_train (v : bool) (s : DRTester) : DRTester :=
  {| cv_splitter := cv_splitter s;
     Dval := Dval s;
     treatments := treatments s;
     n_treat := n_treat s;
     fit_on_train := Some v;
     dr_train_ := dr_train_ s;
     dr_val_ := dr_val_ s;
     ate_val := ate_val s;
     model_propensity_ := model_propensity_ s;
     cate_preds_val_ := cate_preds_val_ s;
     cate_preds_train_ := cate_preds_train_ s;
     cal_res := cal_res s;
     blp_res := blp_res s;
     uplift_res := uplift_res s;
     res := res s |}.

Definition set_dr_train_ (v : ndarray) (s : DRTester) : DRTester :=
  {| cv_splitter := cv_splitter s;
     Dval := Dval s;
     treatments := treatments s;
     n_treat := n_treat s;
     fit_on_train := fit_on_train s;
     dr_train_ := Some v;
     dr_val_ := dr_val_ s;
     ate_val := ate_val s;
     model_propensity_ := model_propensity_ s;
     cate_preds_val_ := cate_preds_val_ s;
     cate_preds_train_ := cate_preds_train_ s;
     cal_res := cal_res s;
     blp_res := blp_res s;
     uplift_res := uplift_res s;
     res := res s |}.

Definition set_dr_val_ (v : ndarray) (s : DRTester) : DRTester :=
  {| cv_splitter := cv_splitter s;
     Dval := Dval s;
     treatments := treatments s;
     n_treat := n_treat s;
     fit_on_train := fit_on_train s;
     dr_train_ := dr_train_ s;
     dr_val_ := Some v;
     ate_val := ate_val s;
     model_propensity_ := model_propensity_ s;
     cate_preds_val_ := cate_preds_val_ s;
     cate_preds_train_ := cate_preds_train_ s;
     cal_res := cal_res s;
     blp_res := blp_res s;
     uplift_res := uplift_res s;
     res := res s |}.

Definition set_ate_val (v : list npfloat) (s : DRTester) : DRTester :=
  {| cv_splitter := cv_splitter s;
     Dval := Dval s;
     treatments := treatments s;
     n_treat := n_treat s;
     fit_on_train := fit_on_train s;
     dr_train_ := dr_train_ s;
     dr_val_ := dr_val_ s;
     ate_val := Some v;
     model_propensity_ := model_propensity_ s;
     cate_preds_val_ := cate_preds_val_ s;
     cate_preds_train_ := cate_preds_train_ s;
     cal_res := cal_res s;
     blp_res := blp_res s;
     uplift_res := uplift_res s;
     res := res s |}.

Definition set_model_propensity_ (v : fitted_propensity) (s : DRTester) : DRTester :=
  {| cv_splitter := cv_splitter s;
     Dval := Dval s;
     treatments := treatments s;
     n_treat := n_treat s;
     fit_on_train := fit_on_train s;
     dr_train_ := dr_train_ s;
     dr_val_ := dr_val_ s;
     ate_val := ate_val s;
     model_propensity_ := Some v;
     cate_preds_val_ := cate_preds_val_ s;
     cate_preds_train_ := cate_preds_train_ s;
     cal_res := cal_res s;
     blp_res := blp_res s;
     uplift_res := uplift_res s;
     res := res s |}.

Definition set_cate_preds_val_ (v : ndarray) (s : DRTester) : DRTester :=
  {| cv_splitter := cv_splitter s;
     Dval := Dval s;
     treatments := treatments s;
     n_treat := n_treat s;
     fit_on_train := fit_on_train s;
     dr_train_ := dr_train_ s;
     dr_val_ := dr_val_ s;
     ate_val := ate_val s;
     model_propensity_ := model_propensity_ s;
     cate_preds_val_ := Some v;
     cate_preds_train_ := cate_preds_train_ s;
     cal_res := cal_res s;
     blp_res := blp_res s;
     uplift_res := uplift_res s;
     res := res s |}.

Definition set_cate_preds_train_ (v : ndarray) (s : DRTester) : DRTester :=
  {| cv_splitter := cv_splitter s;
     Dval := Dval s;
     treatments := treatments s;
     n_treat := n_treat s;
     fit_on_train := fit_on_train s;
     dr_train_ := dr_train_ s;
     dr_val_ := dr_val_ s;
     ate_val := ate_val s;
     model_propensity_ := model_propensity_ s;
     cate_preds_val_ := cate_preds_val_ s;
     cate_preds_train_ := Some v;
     cal_res := cal_res s;
     blp_res := blp_res s;
     uplift_res := uplift_res s;
     res := res s |}.

Definition set_cal_res (v : CalibrationEvaluationResults) (s : DRTester) : DRTester :=
  {| cv_splitter := cv_splitter s;
     Dval := Dval s;
     treatments := treatments s;
     n_treat := n_treat s;
     fit_on_train := fit_on_train s;
     dr_train_ := dr_train_ s;
     dr_val_ := dr_val_ s;
     ate_val := ate_val s;
     model_propensity_ := model_propensity_ s;
     cate_preds_val_ := cate_preds_val_ s;
     cate_preds_train_ := cate_preds_train_ s;
     cal_res := Some v;
     blp_res := blp_res s;
     uplift_res := uplift_res s;
     res := res s |}.

Definition set_blp_res (v : BLPEvaluationResults) (s : DRTester) : DRTester :=
  {| cv_splitter := cv_splitter s;
     Dval := Dval s;
     treatments := treatments s;
     n_treat := n_treat s;
     fit_on_train := fit_on_train s;
     dr_train_ := dr_train_ s;
     dr_val_ := dr_val_ s;
     ate_val := ate_val s;
     model_propensity_ := model_propensity_ s;
     cate_preds_val_ := cate_preds_val_ s;
     cate_preds_train_ := cate_preds_train_ s;
     cal_res := cal_res s;
     blp_res := Some v;
     uplift_res := uplift_res s;
     res := res s |}.

Definition set_uplift_res (v : UpliftEvaluationResults) (s : DRTester) : DRTester :=
  {| cv_splitter := cv_splitter s;
     Dval := Dval s;
     treatments := treatments s;
     n_treat := n_treat s;
     fit_on_train := fit_on_train s;
     dr_train_ := dr_train_ s;
     dr_val_ := dr_val_ s;
     ate_val := ate_val s;
     model_propensity_ := model_propensity_ s;
     cate_preds_val_ := cate_preds_val_ s;
     cate_preds_train_ := cate_preds_train_ s;
     cal_res := cal_res s;
     blp_res := blp_res s;
     uplift_res := Some v;
     res := res s |}.

Definition set_res (v : EvaluationResults) (s : DRTester) : DRTester :=
  {| cv_splitter := cv_splitter s;
     Dval := Dval s;
     treatments := treatments s;
     n_treat := n_treat s;
     fit_on_train := fit_on_train s;
     dr_train_ := dr_train_ s;
     dr_val_ := dr_val_ s;
     ate_val := ate_val s;
     model_propensity_ := model_propensity_ s;
     cate_preds_val_ := cate_preds_val_ s;
     cate_preds_train_ := cate_preds_train_ s;
     cal_res := cal_res s;
     blp_res := blp_res s;
     uplift_res := uplift_res s;
     res := Some v |}.

(** ** The monad of methods *)

Record world : Type := { self : DRTester; np_random : rng }.

Definition M (A : Type) : Type := world -> result A * world.

#[global] Instance M_ret : MRet M := fun A a w => (Ok a, w).
#[global] Instance M_bind : MBind M := fun A B f m w =>
  match m w with
  | (Ok a, w') => f a w'
  | (Raise e, w') => (Raise e, w')
  end.

Definition raise {A} (e : exn) : M A := fun w => (Raise e, w).

Definition lift {A} (r : result A) : M A := fun w => (r, w).

Definition get_self : M DRTester := fun w => (Ok (self w), w).

(** [self.name = v] *)
Definition setattr (set : DRTester -> DRTester) : M unit :=
  fun w => (Ok tt, {| self := set (self w); np_random := np_random w |}).

(** [self.name] inside a computation that does not assign attributes *)
Definition attr {A} (name : string) (o : option A) : result A :=
  match o with
  | Some a => Ok a
  | None => Raise (AttributeError name)
  end.

Definition getattr {A} (name : string) (proj : DRTester -> option A) : M A :=
  fun w => (attr name (proj (self w)), w).

Definition hasattr {A} (proj : DRTester -> option A) : M bool :=
  fun w => (Ok (bool_decide (is_Some (proj (self w)))), w).

(** A loop of a method: [for x in xs: acc = f(acc, x)]. *)
Fixpoint forM {A B} (f : A -> B -> M A) (acc : A) (xs : list B) : M A :=
  match xs with
  | [] => mret acc
  | x :: xs' => acc' ← f acc x; forM f acc' xs'
  end.

(** ** [np.sort(np.unique(Dval))] *)

Fixpoint insert_sorted (x : Z) (l : list Z) : list Z :=
  match l with
  | [] => [x]
  | y :: l' => if x <=? y then x :: l else y :: insert_sorted x l'
  end.

Definition np_sort (l : list Z) : list Z := foldr insert_sorted [] l.

(** The sorted array keeps an element when it differs from the one before
    it ([mask[1:] = ar[1:] != ar[:-1]]). *)
Fixpoint keep_changes (prev : Z) (l : list Z) : list Z :=
  match l with
  | [] => []
  | x :: l' => if x =? prev then keep_changes x l' else x :: keep_changes x l'
  end.

Definition np_unique (l : list Z) : list Z :=
  match np_sort l with
  | [] => []
  | x :: l' => x :: keep_changes x l'
  end.

(** ** [calculate_dr_outcomes] *)

(** Modelled from the spec: [calculate_dr_outcomes] of econml/validate/utils.py
    is not part of the sources.  Specification 4.2: for each unit and each
    non-control arm [t],
    [dr_t = (reg_preds[:,t] - reg_preds[:,0])
            + 1{D=t}/prop_preds[:,t]*(y - reg_preds[:,t])
            - 1{D=0}/prop_preds[:,0]*(y - reg_preds[:,0])],
    an [n x n_treat] matrix, where arm [t] is [treatments[t]] and the
    control is [treatments[0]]. *)
Definition indicator (b : bool) : npfloat := if b then f1 else f0.

Definition dr_entry (D : list Z) (y : list npfloat) (reg_preds prop_preds : ndarray)
    (treatments : list Z) (i t : nat) : result npfloat :=
  d ← index D i;
  yi ← index y i;
  ctrl ← index treatments 0;
  arm ← index treatments t;
  reg_t ← nd_get reg_preds i t;
  reg_0 ← nd_get reg_preds i 0;
  prop_t ← nd_get prop_preds i t;
  prop_0 ← nd_get prop_preds i 0;
  Ok (fsub
        (fadd (fsub reg_t reg_0)
              (fmul (fdiv (indicator (d =? arm)) prop_t) (fsub yi reg_t)))
        (fmul (fdiv (indicator (d =? ctrl)) prop_0) (fsub yi reg_0))).

Definition calculate_dr_outcomes (D : list Z) (y : list npfloat)
    (reg_preds prop_preds : ndarray) (treatments : list Z) : result ndarray :=
  let n_arms := (length treatments - 1)%nat in
  rows ← mapM (fun i =>
                 mapM (fun t => dr_entry D y reg_preds prop_preds treatments i t)
                   (seq 1 n_arms))
            (seq 0 (length D));
  Ok (A2 n_arms rows).

(** ** Nuisance fitting *)

(** [v[idx]] with a list of positions. *)
Definition take_at {A} (v : list A) (idx : list nat) : result (list A) :=
  mapM (index v) idx.

(** The values assigned to [m] positions: a vector of length [m], or of
    length one (broadcast). *)
Definition broadcast_to (m : nat) (vals : list npfloat)
  : result (list npfloat) :=
  if (length vals =? m)%nat then Ok vals
  else match vals with
       | [x] => Ok (replicate m x)
       | _ => Raise (ValueError "shape mismatch: value array could not be broadcast")
       end.

(** [a[idx, k] = vals]. *)
Definition nd_assign (a : ndarray) (idx : list nat) (k : nat)
    (vals : list npfloat) : result ndarray :=
  match a with
  | A2 c rows =>
      if negb (k <? c)%nat
         || negb (forallb (fun i => (i <? length rows)%nat) idx)
      then Raise (IndexError "index is out of bounds")
      else
        vals' ← broadcast_to (length idx) vals;
        Ok (A2 c (fold_left (fun rows iv => alter (<[k := iv.2]>) iv.1 rows)
                    (zip idx vals') rows))
  | _ => Raise (IndexError "too many indices for array")
  end.

Definition get_cv_splitter : M unit := setattr (set_cv_splitter check_cv).

Definition get_cv_splits (X : list row) (T : list Z)
  : M (list (list nat * list nat)) :=
  has ← hasattr cv_splitter;
  (if has : bool then mret tt else get_cv_splitter);;
  sp ← getattr "cv_splitter" cv_splitter;
  mret (split sp X T).

(** One fit of the regression model on the rows [rows] of arm [arm], applied
    to [Xte]. *)
Definition fit_arm (X : list row) (D : list Z) (y w : list npfloat)
    (arm : Z) (Xte : list row) : result (list npfloat) :=
  let mask := map (fun d => d =? arm) D in
  Xsel ← mask_index X mask;
  ysel ← mask_index y mask;
  wsel ← mask_index w mask;
  Ok (regression_fit_predict Xsel ysel wsel Xte).

Definition fit_nuisance_train (Xtrain : list row) (Dtrain : list Z)
    (ytrain : list npfloat) (Xval : list row)
    (sampleweighttrain : option (list npfloat)) : M (ndarray * ndarray) :=
  let sampleweighttrain :=
    default (np_ones (length Xtrain)) sampleweighttrain in
  setattr (set_model_propensity_
             (propensity_fit Xtrain Dtrain sampleweighttrain));;
  fitted ← getattr "model_propensity_" model_propensity_;
  let prop_preds := propensity_predict_proba fitted Xval in
  let n := length Xval in
  n_treat ← getattr "n_treat" n_treat;
  (if n_treat + 1 <? 0 then
     raise (ValueError "negative dimensions are not allowed")
   else mret tt);;
  s ← get_self;
  reg_preds ← lift (foldM (fun reg_preds i =>
      treatments ← attr "treatments" (treatments s);
      arm ← index treatments i;
      preds ← fit_arm Xtrain Dtrain ytrain sampleweighttrain arm Xval;
      nd_assign reg_preds (seq 0 n) i preds)
    (np_zeros2 n (Z.to_nat (n_treat + 1))) (range (n_treat + 1)));
  mret (reg_preds, prop_preds).

Definition fit_nuisance_cv (X : list row) (D : list Z) (y : list npfloat)
    (sampleweight : option (list npfloat)) : M (ndarray * ndarray) :=
  let sampleweight := default (np_ones (length X)) sampleweight in
  splits ← get_cv_splits X D;
  let prop_preds := cross_val_predict_proba X D splits in
  let N := length X in
  n_treat ← getattr "n_treat" n_treat;
  (if n_treat + 1 <? 0 then
     raise (ValueError "negative dimensions are not allowed")
   else mret tt);;
  s ← get_self;
  reg_preds ← lift (foldM (fun reg_preds k =>
      foldM (fun reg_preds (fold : list nat * list nat) =>
          let (train, test) := fold in
          Xtr ← take_at X train;
          Dtr ← take_at D train;
          treatments ← attr "treatments" (treatments s);
          arm ← index treatments k;
          ytr ← take_at y train;
          wtr ← take_at sampleweight train;
          Xte ← take_at X test;
          preds ← fit_arm Xtr Dtr ytr wtr arm Xte;
          nd_assign reg_preds test k preds)
        reg_preds splits)
    (np_zeros2 N (Z.to_nat (n_treat + 1))) (range (n_treat + 1)));
  mret (reg_preds, prop_preds).

Definition fit_nuisance (Xval : list row) (Dval : list Z) (yval : list npfloat)
    (Xtrain : option (list row)) (Dtrain : option (list Z))
    (ytrain : option (list npfloat))
    (sampleweightval sampleweighttrain : option (list npfloat)) : M unit :=
  setattr (set_Dval Dval);;
  setattr (set_treatments (np_sort (np_unique Dval)));;
  ts ← getattr "treatments" treatments;
  setattr (set_n_treat (Z.of_nat (length ts) - 1));;
  match Xtrain, Dtrain, ytrain with
  | Some Xtrain, Some Dtrain, Some ytrain =>
      setattr (set_fit_on_train true);;
      preds ← fit_nuisance_cv Xtrain Dtrain ytrain sampleweighttrain;
      ts ← getattr "treatments" treatments;
      dr ← lift (calculate_dr_outcomes Dtrain ytrain preds.1 preds.2 ts);
      setattr (set_dr_train_ (standardize_2d dr));;
      preds ← fit_nuisance_train Xtrain Dtrain ytrain Xval sampleweighttrain;
      ts ← getattr "treatments" treatments;
      dr ← lift (calculate_dr_outcomes Dval yval preds.1 preds.2 ts);
      setattr (set_dr_val_ (standardize_2d dr))
  | _, _, _ =>
      setattr (set_fit_on_train false);;
      preds ← fit_nuisance_cv Xval Dval yval sampleweightval;
      ts ← getattr "treatments" treatments;
      dr ← lift (calculate_dr_outcomes Dval yval preds.1 preds.2 ts);
      setattr (set_dr_val_ (standardize_2d dr))
  end;;
  dr_val ← getattr "dr_val_" dr_val_;
  ate ← lift (np_average_axis0 dr_val sampleweightval);
  setattr (set_ate_val ate).

(** ** CATE predictions *)

(** [np.stack([self.cate.effect(X, T0=base, T1=t) for t in treatments[1:]])
    .T.squeeze()], then made two-dimensional when it has one dimension. *)
Definition cate_preds (X : list row) (treatments : list Z) : result ndarray :=
  base ← index treatments 0;
  let vals := map (fun t => cate_effect X base t) (drop 1 treatments) in
  stacked ← np_stack vals;
  Ok (standardize_2d (np_squeeze (np_T stacked))).

Definition get_cate_preds (Xval : list row) (Xtrain : option (list row))
  : M unit :=
  ts ← getattr "treatments" treatments;
  preds ← lift (cate_preds Xval ts);
  setattr (set_cate_preds_val_ preds);;
  match Xtrain with
  | Some Xtrain =>
      ts ← getattr "treatments" treatments;
      preds ← lift (cate_preds Xtrain ts);
      setattr (set_cate_preds_train_ preds)
  | None => mret tt
  end.

(** The common opening of [evaluate_cal], [evaluate_uplift] and
    [evaluate_all]: compute the CATE predictions unless both are cached. *)
Definition ensure_cate_preds_both (Xval Xtrain : option (list row)) : M unit :=
  has_train ← hasattr cate_preds_train_;
  has_val ← hasattr cate_preds_val_;
  if negb has_train || negb has_val then
    match Xval, Xtrain with
    | Some Xval, Some Xtrain => get_cate_preds Xval (Some Xtrain)
    | _, _ =>
        raise (Exception
          "CATE predictions not yet calculated - must provide both Xval, Xtrain")
    end
  else mret tt.

(** [np.ones(self.<preds>.shape[0])] when no weights are given. *)
Definition default_weights (name : string) (proj : DRTester -> option ndarray)
    (sampleweight : option (list npfloat)) : M (list npfloat) :=
  match sampleweight with
  | Some w => mret w
  | None =>
      a ← getattr name proj;
      n ← lift (shape0 a);
      mret (np_ones n)
  end.

Definition weights_msg : string := "Sample weights must be integer and >= 1".

(** [assert (np.all(w >= 1)), msg] *)
Definition assert_weights (w : list Z) : M unit :=
  if np_all (map (fun z => 1 <=? z) w) then mret tt
  else raise (AssertionError weights_msg).

(** ** Calibration *)

Record group_arrays : Type := {
  probs : list npfloat;
  g_cate : list npfloat;
  se_g_cate : list npfloat;
  gate : list npfloat;
  se_gate : list npfloat;
}.

(** The membership mask of bin [i]. *)
Definition bin_mask (n_groups : Z) (cuts : list npfloat) (preds : list npfloat)
    (i : nat) : result (list bool) :=
  lo ← index cuts i;
  hi ← index cuts (i + 1);
  if Z.of_nat i <? n_groups - 1 then
    Ok (mask_and (map (fun x => fge x lo) preds) (map (fun x => flt x hi) preds))
  else
    Ok (mask_and (map (fun x => fge x lo) preds) (map (fun x => fle x hi) preds)).

(** What one bin with members writes into the five arrays. *)
Record group_row : Type := {
  row_prob : npfloat;
  row_g_cate : npfloat;
  row_se_g_cate : npfloat;
  row_gate : npfloat;
  row_se_gate : npfloat;
}.

(** The statistics of bin [i]; [None] when the bin has no member (the
    [continue] of the loop). *)
Definition group_stats (s : DRTester) (k : nat) (n_groups : Z)
    (cuts : list npfloat) (sampleweightval : list Z) (w_tot : Z) (i : nat)
  : result (option group_row) :=
  preds_val ← attr "cate_preds_val_" (cate_preds_val_ s);
  col ← nd_col preds_val k;
  ind ← bin_mask n_groups cuts col i;
  if negb (np_any ind) then Ok None
  else
    w_ind ← mask_index sampleweightval ind;
    let w_tot_inds := np_sum_int w_ind in
    dr_val ← attr "dr_val_" (dr_val_ s);
    dr_ind ← nd_rows_col dr_val ind k;
    gate_i ← np_average dr_ind (Some (map of_int w_ind));
    let se_gate_i := weighted_se dr_ind w_ind in
    cate_ind ← nd_rows_col preds_val ind k;
    g_cate_i ← np_average cate_ind (Some (map of_int w_ind));
    let se_g_cate_i := weighted_se cate_ind w_ind in
    Ok (Some {| row_prob := fdiv (of_int w_tot_inds) (of_int w_tot);
                row_g_cate := g_cate_i; row_se_g_cate := se_g_cate_i;
                row_gate := gate_i; row_se_gate := se_gate_i |}).

(** The body of the loop over the bins: the five arrays keep their entry
    [i] when the bin is skipped. *)
Definition cal_group (s : DRTester) (k : nat) (n_groups : Z)
    (cuts : list npfloat) (sampleweightval : list Z) (w_tot : Z)
    (acc : group_arrays) (i : nat) : result group_arrays :=
  stats ← group_stats s k n_groups cuts sampleweightval w_tot i;
  match stats with
  | None => Ok acc
  | Some r =>
      Ok {| probs := <[i := row_prob r]> (probs acc);
            g_cate := <[i := row_g_cate r]> (g_cate acc);
            se_g_cate := <[i := row_se_g_cate r]> (se_g_cate acc);
            gate := <[i := row_gate r]> (gate acc);
            se_gate := <[i := row_se_gate r]> (se_gate acc) |}
  end.

(** The arrays of one arm after the loop over the bins. *)
Definition cal_groups (s : DRTester) (k : nat) (n_groups : Z)
    (sampleweightval sampleweighttrain : list Z) : result group_arrays :=
  preds_train ← attr "cate_preds_train_" (cate_preds_train_ s);
  col_train ← nd_col preds_train k;
  q ← np_linspace01 n_groups;
  let cuts := weighted_stat col_train q sampleweighttrain in
  zeros ← np_zeros n_groups;
  let w_tot := np_sum_int sampleweightval in
  foldM (cal_group s k n_groups cuts sampleweightval w_tot)
    {| probs := zeros; g_cate := zeros; se_g_cate := zeros;
       gate := zeros; se_gate := zeros |}
    (range n_groups).

Definition cal_score_g (g : group_arrays) : npfloat :=
  np_sum (zip_with fmul (map fabs (zip_with fsub (gate g) (g_cate g))) (probs g)).

Definition cal_score_o (g : group_arrays) (ate_k : npfloat) : npfloat :=
  np_sum (zip_with fmul (map (fun x => fabs (fsub x ate_k)) (gate g)) (probs g)).

(** The body of the loop over the arms: the score and the plot data. *)
Definition cal_arm (s : DRTester) (k : nat) (n_groups : Z)
    (sampleweightval sampleweighttrain : list Z) : result (npfloat * df_plot) :=
  g ← cal_groups s k n_groups sampleweightval sampleweighttrain;
  ate ← attr "ate_val" (ate_val s);
  ate_k ← index ate k;
  Ok (fsub f1 (fdiv (cal_score_g g) (cal_score_o g ate_k)),
      {| df_ind := map Z.of_nat (range n_groups);
         df_gate := gate g;
         df_se_gate := se_gate g;
         df_g_cate := g_cate g;
         df_se_g_cate := se_g_cate g |}).

Definition evaluate_cal (Xval Xtrain : option (list row)) (n_groups : Z)
    (sampleweightval sampleweighttrain : option (list npfloat))
  : M CalibrationEvaluationResults :=
  has ← hasattr dr_train_;
  if negb has then
    raise (Exception
      "Must fit nuisance models on training sample data to use calibration test")
  else
    ensure_cate_preds_both Xval Xtrain;;
    sampleweighttrain ←
      default_weights "cate_preds_train_" cate_preds_train_ sampleweighttrain;
    sampleweightval ←
      default_weights "cate_preds_val_" cate_preds_val_ sampleweightval;
    let sampleweightval := map astype_int sampleweightval in
    let sampleweighttrain := map astype_int sampleweighttrain in
    assert_weights sampleweightval;;
    assert_weights sampleweighttrain;;
    n_treat ← getattr "n_treat" n_treat;
    zeros ← lift (np_zeros n_treat);
    s ← get_self;
    out ← lift (foldM (fun (acc : list npfloat * list (Z * df_plot)) k =>
        arm ← cal_arm s k n_groups sampleweightval sampleweighttrain;
        ts ← attr "treatments" (treatments s);
        key ← index ts (k + 1);
        Ok (<[k := arm.1]> acc.1, dict_set acc.2 key arm.2))
      (zeros, []) (range n_treat));
    ts ← getattr "treatments" treatments;
    let r := {| cal_r_squared := out.1; plot_data_dict := out.2;
                cal_treatments := ts |} in
    setattr (set_cal_res r);;
    mret r.

(** ** Best linear predictor *)

Definition blp_arm (s : DRTester) (sampleweightval : list npfloat) (k : nat)
  : result (npfloat * npfloat * npfloat) :=
  dr_val ← attr "dr_val_" (dr_val_ s);
  y ← nd_col dr_val k;
  preds_val ← attr "cate_preds_val_" (cate_preds_val_ s);
  x ← nd_col preds_val k;
  Ok (wls_hc1 y x sampleweightval).

Definition evaluate_blp (Xval Xtrain : option (list row))
    (sampleweightval : option (list npfloat)) : M BLPEvaluationResults :=
  has ← hasattr dr_val_;
  if negb has then raise (Exception "Must fit nuisances before evaluating")
  else
    has_val ← hasattr cate_preds_val_;
    (if negb has_val then
       match Xval with
       | None =>
           raise (Exception
             "CATE predictions not yet calculated - must provide Xval")
       | Some Xval => get_cate_preds Xval Xtrain
       end
     else mret tt);;
    sampleweightval ←
      default_weights "cate_preds_val_" cate_preds_val_ sampleweightval;
    n_treat ← getattr "n_treat" n_treat;
    s ← get_self;
    regs ← lift (mapM (blp_arm s sampleweightval) (range n_treat));
    ts ← getattr "treatments" treatments;
    let r := {| blp_params := map (fun r => r.1.1) regs;
                blp_errs := map (fun r => r.1.2) regs;
                blp_pvals := map (fun r => r.2) regs;
                blp_treatments := ts |} in
    setattr (set_blp_res r);;
    mret r.

(** ** Uplift curves *)

(** [np.random]: a call that draws from the global random state. *)
Definition with_rng {A} (f : rng -> A * rng) : M A :=
  fun w => let (a, g) := f (np_random w) in
           (Ok a, {| self := self w; np_random := g |}).

Record uplift_acc : Type := {
  curve_dict : list (Z * curve_df);
  coeffs : list npfloat;
  errs : list npfloat;
}.

(** The body of the loop over the arms. *)
Definition uplift_arm (percentiles : list npfloat) (metric : string)
    (n_bootstrap : Z) (sampleweightval sampleweighttrain : list Z)
    (acc : uplift_acc) (k : nat) : M uplift_acc :=
  preds_train ← getattr "cate_preds_train_" cate_preds_train_;
  col_train ← lift (nd_col preds_train k);
  preds_val ← getattr "cate_preds_val_" cate_preds_val_;
  col_val ← lift (nd_col preds_val k);
  dr_val ← getattr "dr_val_" dr_val_;
  col_dr ← lift (nd_col dr_val k);
  out ← with_rng (fun g =>
      calc_uplift g col_train col_val col_dr percentiles metric n_bootstrap
        sampleweighttrain sampleweightval);
  ts ← getattr "treatments" treatments;
  key ← lift (index ts (k + 1));
  mret {| curve_dict := dict_set (curve_dict acc) key out.2;
          coeffs := coeffs acc ++ [out.1.1];
          errs := errs acc ++ [out.1.2] |}.

(** [2*st.norm.sf(abs(q / e))] *)
Definition uplift_pval (q e : npfloat) : npfloat :=
  fmul (Fin 2) (norm_sf (fabs (fdiv q e))).

Definition evaluate_uplift (Xval Xtrain : option (list row))
    (percentiles : list npfloat) (metric : string) (n_bootstrap : Z)
    (sampleweightval sampleweighttrain : option (list npfloat))
  : M UpliftEvaluationResults :=
  has ← hasattr dr_val_;
  if negb has then raise (Exception "Must fit nuisances before evaluating")
  else
    ensure_cate_preds_both Xval Xtrain;;
    sampleweightval ←
      default_weights "cate_preds_val_" cate_preds_val_ sampleweightval;
    sampleweighttrain ←
      default_weights "cate_preds_train_" cate_preds_train_ sampleweighttrain;
    let sampleweightval := map astype_int sampleweightval in
    let sampleweighttrain := map astype_int sampleweighttrain in
    assert_weights sampleweightval;;
    assert_weights sampleweighttrain;;
    n_treat ← getattr "n_treat" n_treat;
    acc ← forM (uplift_arm percentiles metric n_bootstrap
                  sampleweightval sampleweighttrain)
             {| curve_dict := []; coeffs := []; errs := [] |} (range n_treat);
    let pvals := zip_with uplift_pval (coeffs acc) (errs acc) in
    ts ← getattr "treatments" treatments;
    let r := {| uplift_params := coeffs acc; uplift_errs := errs acc;
                uplift_pvals := pvals; uplift_treatments := ts;
                curve_data_dict := curve_dict acc |} in
    setattr (set_uplift_res r);;
    mret r.

(** ** All tests *)

(** [np.linspace(5, 95, 50)], the default grid of [evaluate_uplift]. *)
Definition default_percentiles : list npfloat :=
  map (fun i : nat => Fin (5 + inject_Z (Z.of_nat i) * (90 / 49)))
    (seq 0 50).

Definition evaluate_all (Xval Xtrain : option (list row)) (n_groups : Z)
    (n_bootstrap : Z) (sampleweightval sampleweighttrain : option (list npfloat))
  : M EvaluationResults :=
  ensure_cate_preds_both Xval Xtrain;;
  sampleweightval ←
    default_weights "cate_preds_val_" cate_preds_val_ sampleweightval;
  sampleweighttrain ←
    default_weights "cate_preds_train_" cate_preds_train_ sampleweighttrain;
  let sampleweightval := map astype_int sampleweightval in
  let sampleweighttrain := map astype_int sampleweighttrain in
  assert_weights sampleweightval;;
  assert_weights sampleweighttrain;;
  let wval := Some (map of_int sampleweightval) in
  let wtrain := Some (map of_int sampleweighttrain) in
  blp ← evaluate_blp Xval Xtrain wval;
  cal ← evaluate_cal Xval Xtrain n_groups wval wtrain;
  qini ← evaluate_uplift Xval Xtrain default_percentiles "qini" n_bootstrap
           wval wtrain;
  toc ← evaluate_uplift Xval Xtrain default_percentiles "toc" n_bootstrap
          wval wtrain;
  let r := {| all_blp_res := blp; all_cal_res := cal;
              all_qini_res := qini; all_toc_res := toc |} in
  setattr (set_res r);;
  mret r.

End DRTester.

(** ** A concrete set of collaborators

    Used to run the methods on concrete inputs.  A row is one feature; the
    CATE estimator predicts [t1 * x]; the regression predicts zero; the
    propensities are uniform over the arms seen in training; the splitter
    makes a single fold that trains and tests on every row. *)

Fixpoint finsert (x : npfloat) (l : list npfloat) : list npfloat :=
  match l with
  | [] => [x]
  | y :: l' => if fle x y then x :: l else y :: finsert x l'
  end.

Definition fsort (l : list npfloat) : list npfloat := foldr finsert [] l.

(** [np.repeat(values, weights)] *)
Definition np_repeat (values : list npfloat) (w : list Z) : list npfloat :=
  concat (zip_with (fun v z => replicate (Z.to_nat z) v) values w).

(** [np.quantile(sorted, q)] with linear interpolation between the two
    closest ranks. *)
Definition quantile_sorted (sorted : list npfloat) (q : npfloat) : npfloat :=
  match q, sorted with
  | Fin q, _ :: _ =>
      let h := (q * inject_Z (Z.of_nat (length sorted) - 1))%Q in
      let lo := Z.to_nat (Qfloor h) in
      let x_lo := nth lo sorted NaN in
      let x_hi := nth (Nat.min (lo + 1) (length sorted - 1)) sorted NaN in
      fadd x_lo (fmul (Fin (h - inject_Z (Qfloor h))) (fsub x_hi x_lo))
  | _, _ => NaN
  end.

(** Modelled from the spec: [weighted_stat] of econml/validate/weighted_utils.py
    is not part of the sources.  Specification 4.5, step 1: the weighted
    quantiles are the quantiles "of the weight-expanded distribution", each
    value repeated as many times as its weight. *)
Definition weighted_quantile (values q : list npfloat) (w : list Z)
  : list npfloat :=
  map (quantile_sorted (fsort (np_repeat values w))) q.

Definition demo_types : ExternalTypes := {|
  row := npfloat;
  splitter := unit;
  fitted_propensity := nat;
  rng := nat;
  curve_df := list npfloat;
|}.

Definition demo : @Externals demo_types :=
  @Build_Externals demo_types
    (* cate_effect *)
    (fun (X : list npfloat) t0 t1 => map (fun x => fmul (of_int (t1 - t0)) x) X)
    (* regression_fit_predict *)
    (fun _ _ _ (Xte : list npfloat) => map (fun _ => f0) Xte)
    (* propensity_fit *)
    (fun _ D _ => length (np_unique D))
    (* propensity_predict_proba *)
    (fun (c : nat) (X : list npfloat) =>
       A2 c (map (fun _ => replicate c (fdiv f1 (of_int (Z.of_nat c)))) X))
    (* cross_val_predict_proba *)
    (fun (X : list npfloat) D _ =>
       let c := length (np_unique D) in
       A2 c (map (fun _ => replicate c (fdiv f1 (of_int (Z.of_nat c)))) X))
    (* check_cv *)
    tt
    (* split *)
    (fun _ (X : list npfloat) _ => [(seq 0 (length X), seq 0 (length X))])
    (* weighted_stat *)
    weighted_quantile
    (* weighted_se *)
    (fun _ _ => f0)
    (* wls_hc1 *)
    (fun _ _ _ => (f1, f1, Fin (1 # 2)))
    (* calc_uplift *)
    (fun (g : nat) _ _ dr _ _ _ _ _ => ((np_sum dr, f1, dr), S g))
    (* norm_sf *)
    (fun x => match x with
              | Fin q => Fin (1 / (2 + 2 * q))
              | PInf => f0
              | _ => NaN
              end).

(** ** Notions used in the statements *)

Section Statements.
Context {Types : ExternalTypes} {Ext : Externals}.

(** A method keeps a property of the attributes, whatever its outcome. *)
Definition stable {A} (P : DRTester -> Prop) (m : M A) : Prop :=
  forall w, P (self w) -> P (self (m w).2).


(** The least element of a list of integers. *)
Definition minimum (l : list Z) : option Z :=
  foldr (fun x m => Some (from_option (Z.min x) x m)) None l.

(** Column [k] of a matrix attribute; empty when there is no such column. *)
Definition col_of (a : option ndarray) (k : nat) : list npfloat :=
  match a with
  | Some (A2 c rows) => column k rows
  | _ => []
  end.

(** The weights a test works with: the given ones, or ones for every row of
    the predictions, converted by [astype(int)]. *)
Definition weights_used (preds : option ndarray)
    (sampleweight : option (list npfloat)) : list Z :=
  map astype_int
    (default (np_ones (from_option (fun a => nth 0 (shape a) 0%nat) 0%nat preds))
       sampleweight).

(** The levels [np.linspace(0, 1, n_groups + 1)], empty when the call
    raises. *)
Definition levels (n_groups : Z) : list npfloat :=
  match np_linspace01 n_groups with
  | Ok q => q
  | Raise _ => []
  end.

(** [cuts[i]], not a number when there is no such cut point. *)
Definition cut_at (cuts : list npfloat) (i : nat) : npfloat := nth i cuts NaN.

(** Membership of a prediction [x] in bin [i]: [cuts[i] <= x < cuts[i+1]],
    and [cuts[i] <= x <= cuts[i+1]] for the last bin. *)
Definition in_bin (n_groups : Z) (cuts : list npfloat) (i : nat)
    (x : npfloat) : bool :=
  fle (cut_at cuts i) x &&
  (if Z.of_nat i <? n_groups - 1 then flt x (cut_at cuts (i + 1))
   else fle x (cut_at cuts (i + 1))).

Definition members (n_groups : Z) (cuts preds : list npfloat) (i : nat)
  : list bool :=
  map (in_bin n_groups cuts i) preds.

(** The weighted probability mass of a bin: the weight of its members over
    the weight of all the validation units. *)
Definition weighted_mass (w : list Z) (ind : list bool) : npfloat :=
  fdiv (of_int (np_sum_int (select ind w))) (of_int (np_sum_int w)).

(** The weighted mean of [x] over the members of a bin. *)
Definition weighted_mean (x : list npfloat) (w : list Z) (ind : list bool)
  : npfloat :=
  fdiv (np_sum (zip_with fmul (select ind x) (map of_int (select ind w))))
    (np_sum (map of_int (select ind w))).

(** The mass of a bin and a mean over a bin as the test has them: zero for
    a bin without members. *)
Definition bin_mass (w : list Z) (ind : list bool) : npfloat :=
  if np_any ind then weighted_mass w ind else f0.

Definition bin_mean (x : list npfloat) (w : list Z) (ind : list bool)
  : npfloat :=
  if np_any ind then weighted_mean x w ind else f0.

(** [Cal_G]: the sum over the bins of the mass of the bin times the distance
    between its mean DR outcome and its mean CATE prediction. *)
Definition Cal_G (n_groups : Z) (cuts preds dr : list npfloat) (w : list Z)
  : npfloat :=
  np_sum (map (fun i =>
      let ind := members n_groups cuts preds i in
      fmul (bin_mass w ind)
        (fabs (fsub (bin_mean dr w ind) (bin_mean preds w ind))))
    (range n_groups)).

(** [Cal_O]: the same with the distance to the ATE of the arm. *)
Definition Cal_O (n_groups : Z) (cuts preds dr : list npfloat) (w : list Z)
    (ate : npfloat) : npfloat :=
  np_sum (map (fun i =>
      let ind := members n_groups cuts preds i in
      fmul (bin_mass w ind) (fabs (fsub (bin_mean dr w ind) ate)))
    (range n_groups)).




(** The five entries of bin [i]. *)
Definition entries (g : group_arrays) (i : nat)
  : option npfloat * option npfloat * option npfloat * option npfloat
    * option npfloat :=
  (probs g !! i, g_cate g !! i, se_g_cate g !! i, gate g !! i, se_gate g !! i).

Definition row_entries (r : group_row)
  : option npfloat * option npfloat * option npfloat * option npfloat
    * option npfloat :=
  (Some (row_prob r), Some (row_g_cate r), Some (row_se_g_cate r),
   Some (row_gate r), Some (row_se_gate r)).

Definition zero_entries
  : option npfloat * option npfloat * option npfloat * option npfloat
    * option npfloat :=
  (Some f0, Some f0, Some f0, Some f0, Some f0).

(** The five arrays have [n] entries each. *)
Definition arrays_length (n : nat) (g : group_arrays) : Prop :=
  length (probs g) = n /\ length (g_cate g) = n /\ length (se_g_cate g) = n /\
  length (gate g) = n /\ length (se_gate g) = n.

(** *** The life of an object *)

(** A call of a method, with its arguments. *)
Inductive call : Type :=
| call_get_cv_splitter
| call_get_cv_splits (X : list row) (T : list Z)
| call_fit_nuisance (Xval : list row) (Dval : list Z) (yval : list npfloat)
    (Xtrain : option (list row)) (Dtrain : option (list Z))
    (ytrain : option (list npfloat))
    (sampleweightval sampleweighttrain : option (list npfloat))
| call_fit_nuisance_train (Xtrain : list row) (Dtrain : list Z)
    (ytrain : list npfloat) (Xval : list row)
    (sampleweighttrain : option (list npfloat))
| call_fit_nuisance_cv (X : list row) (D : list Z) (y : list npfloat)
    (sampleweight : option (list npfloat))
| call_get_cate_preds (Xval : list row) (Xtrain : option (list row))
| call_evaluate_cal (Xval Xtrain : option (list row)) (n_groups : Z)
    (sampleweightval sampleweighttrain : option (list npfloat))
| call_evaluate_blp (Xval Xtrain : option (list row))
    (sampleweightval : option (list npfloat))
| call_evaluate_uplift (Xval Xtrain : option (list row))
    (percentiles : list npfloat) (metric : string) (n_bootstrap : Z)
    (sampleweightval sampleweighttrain : option (list npfloat))
| call_evaluate_all (Xval Xtrain : option (list row)) (n_groups : Z)
    (n_bootstrap : Z)
    (sampleweightval sampleweighttrain : option (list npfloat)).

(** The world after a call, whether it returned or raised. *)
Definition run (c : call) (w : world) : world :=
  match c with
  | call_get_cv_splitter => (get_cv_splitter w).2
  | call_get_cv_splits X T => (get_cv_splits X T w).2
  | call_fit_nuisance Xv Dv yv Xt Dt yt swv swt =>
      (fit_nuisance Xv Dv yv Xt Dt yt swv swt w).2
  | call_fit_nuisance_train Xt Dt yt Xv swt =>
      (fit_nuisance_train Xt Dt yt Xv swt w).2
  | call_fit_nuisance_cv X D y sw => (fit_nuisance_cv X D y sw w).2
  | call_get_cate_preds Xv Xt => (get_cate_preds Xv Xt w).2
  | call_evaluate_cal Xv Xt n swv swt => (evaluate_cal Xv Xt n swv swt w).2
  | call_evaluate_blp Xv Xt swv => (evaluate_blp Xv Xt swv w).2
  | call_evaluate_uplift Xv Xt pct metric nb swv swt =>
      (evaluate_uplift Xv Xt pct metric nb swv swt w).2
  | call_evaluate_all Xv Xt n nb swv swt =>
      (evaluate_all Xv Xt n nb swv swt w).2
  end.

(** The worlds an object can be in: a new object, then any calls. *)
Inductive reachable : world -> Prop :=
| reachable_new (g : rng) :
    reachable {| self := new_DRTester; np_random := g |}
| reachable_run (c : call) (w : world) :
    reachable w -> reachable (run c w).

(** A cached test result was computed from cached CATE predictions. *)
Definition results_have_preds (s : DRTester) : Prop :=
  (is_Some (blp_res s) -> is_Some (cate_preds_val_ s)) /\
  (is_Some (cal_res s) ->
   is_Some (cate_preds_val_ s) /\ is_Some (cate_preds_train_ s)) /\
  (is_Some (uplift_res s) ->
   is_Some (cate_preds_val_ s) /\ is_Some (cate_preds_train_ s)).

(** A method assigns at most the attribute that [set] assigns. *)
Definition sets_only {A V} (set : V -> DRTester -> DRTester) (m : M A)
  : Prop :=
  forall w, self (m w).2 = self w \/ exists v, self (m w).2 = set v (self w).

(** The fitted state and the cached CATE predictions. *)
Definition fitted_state (s : DRTester) :=
  (treatments s, n_treat s, dr_val_ s, dr_train_ s, ate_val s,
   cate_preds_val_ s, cate_preds_train_ s).

(** *** More notions: weights, exceptions and attributes *)

(** The weights [evaluate_blp] works with: the given ones, or ones for
    every row of the validation predictions; they are not converted. *)
Definition weights_given (preds : option ndarray)
    (sampleweight : option (list npfloat)) : list npfloat :=
  default (np_ones (from_option (fun a => nth 0 (shape a) 0%nat) 0%nat preds))
    sampleweight.

(** A method that raises keeps a property of the attributes. *)
Definition keeps_on_raise {A} (P : DRTester -> Prop) (m : M A) : Prop :=
  forall w e w', P (self w) -> m w = (Raise e, w') -> P (self w').

(** The four results as a tuple. *)
Definition cached_results (s : DRTester) :=
  (blp_res s, cal_res s, uplift_res s, res s).

(** What [fit_nuisance] assigns first goes together, and nothing that is
    computed from the treatments exists before them. *)
Definition fit_attributes (s : DRTester) : Prop :=
  match treatments s with
  | Some ts =>
      StronglySorted Z.lt ts /\
      n_treat s = Some (Z.of_nat (length ts) - 1) /\
      (exists D, Dval s = Some D /\ forall x, elem_of x ts <-> elem_of x D) /\
      is_Some (fit_on_train s)
  | None =>
      n_treat s = None /\ Dval s = None /\ fit_on_train s = None /\
      dr_val_ s = None /\ dr_train_ s = None /\ ate_val s = None /\
      cate_preds_val_ s = None /\ cate_preds_train_ s = None /\
      cached_results s = (None, None, None, None)
  end.

(** A cached value comes with the DR outcomes it was computed from, and the
    summary of all tests with the results of the single tests. *)
Definition result_attributes (s : DRTester) : Prop :=
  (is_Some (ate_val s) -> is_Some (dr_val_ s)) /\
  (is_Some (blp_res s) -> is_Some (dr_val_ s)) /\
  (is_Some (cal_res s) -> is_Some (dr_train_ s)) /\
  (is_Some (uplift_res s) -> is_Some (dr_val_ s)) /\
  (is_Some (res s) ->
   is_Some (blp_res s) /\ is_Some (cal_res s) /\ is_Some (uplift_res s)).

(** The entry [i, j] of the rows of a matrix, when there is one. *)
Definition cell (rows : list (list npfloat)) (i j : nat) : option npfloat :=
  match rows !! i with
  | Some r => r !! j
  | None => None
  end.

(** [pred] is the prediction for the unit at position [p] of the test rows
    of a fold by the regression of arm [treatments[k]] fitted on the
    training rows of the fold. *)
Definition fold_prediction (X : list row) (D : list Z) (y wts : list npfloat)
    (ts : list Z) (k : nat) (train test : list nat) (p : nat)
    (pred : npfloat) : Prop :=
  exists arm Xtr Dtr ytr wtr Xte,
    ts !! k = Some arm /\
    take_at X train = Ok Xtr /\ take_at D train = Ok Dtr /\
    take_at y train = Ok ytr /\ take_at wts train = Ok wtr /\
    take_at X test = Ok Xte /\
    regression_fit_predict
      (select (map (fun d => d =? arm) Dtr) Xtr)
      (select (map (fun d => d =? arm) Dtr) ytr)
      (select (map (fun d => d =? arm) Dtr) wtr) Xte !! p = Some pred.

(** The sum of integers, without the wrap-around of int64. *)
Definition sumZ (l : list Z) : Z := foldr Z.add 0 l.

(** A prediction within the cut points: at least the first and at most the
    last. *)
Definition within_cuts (n_groups : Z) (cuts : list npfloat) (x : npfloat)
  : bool :=
  fle (cut_at cuts 0) x && fle x (cut_at cuts (Z.to_nat n_groups)).

End Statements.

(** ** Concrete data

    A validation sample of four units, the last of which has a prediction
    above every prediction of the training sample, and a training sample of
    four units; two arms. *)
Section Demo.
#[local] Existing Instance demo_types.
#[local] Existing Instance demo.

Definition demo_Xval : list row := [of_int 1; of_int 2; of_int 3; of_int 7].
Definition demo_Dval : list Z := [0; 1; 0; 1].
Definition demo_yval : list npfloat := [of_int 1; of_int 3; of_int 2; of_int 6].
Definition demo_Xtrain : list row := [of_int 0; of_int 2; of_int 4; of_int 6].
Definition demo_Dtrain : list Z := [0; 1; 1; 0].
Definition demo_ytrain : list npfloat := [of_int 1; of_int 2; of_int 5; of_int 2].

(** A new object. *)
Definition demo_new : world := {| self := new_DRTester; np_random := 0%nat |}.

(** The object after [fit_nuisance] with the training sample. *)
Definition demo_fit : call :=
  call_fit_nuisance demo_Xval demo_Dval demo_yval
    (Some demo_Xtrain) (Some demo_Dtrain) (Some demo_ytrain) None None.

Definition demo_fitted : world := run demo_fit demo_new.

(** The object after [get_cate_preds] on both samples. *)
Definition demo_ready : world :=
  run (call_get_cate_preds demo_Xval (Some demo_Xtrain)) demo_fitted.

(** The object after [evaluate_all]. *)
Definition demo_tested : world :=
  run (call_evaluate_all None None 2 10 None None) demo_ready.

Definition demo_small : list npfloat := [Fin (1 # 2); f1; f1; f1].

End Demo.

(** * Properties *)

(** ** Sorting and the unique values *)

Lemma elem_of_insert_sorted (x y : Z) (l : list Z) :
  y ∈ insert_sorted x l ↔ y = x ∨ y ∈ l.
Proof.
  induction l as [|z l IH]; simpl.
  - rewrite list_elem_of_singleton, elem_of_nil. tauto.
  - destruct (x <=? z); rewrite !elem_of_cons; [tauto|]. rewrite IH. tauto.
Qed.

Lemma elem_of_np_sort (y : Z) (l : list Z) : y ∈ np_sort l ↔ y ∈ l.
Proof.
  induction l as [|x l IH]; simpl; [done|].
  rewrite elem_of_insert_sorted, elem_of_cons, IH. tauto.
Qed.

Lemma insert_sorted_sorted (x : Z) (l : list Z) :
  StronglySorted Z.le l → StronglySorted Z.le (insert_sorted x l).
Proof.
  induction 1 as [|z l Hl IH Hz]; simpl.
  - repeat constructor.
  - destruct (Z.leb_spec x z).
    + constructor; [by constructor|]. constructor; [done|].
      eapply Forall_impl; [exact Hz|]. intros; lia.
    + constructor; [done|]. apply Forall_forall. intros y Hy.
      apply elem_of_insert_sorted in Hy as [->|Hy]; [lia|].
      rewrite Forall_forall in Hz. by apply Hz.
Qed.

Lemma np_sort_sorted (l : list Z) : StronglySorted Z.le (np_sort l).
Proof.
  induction l; simpl; [constructor|by apply insert_sorted_sorted].
Qed.

Lemma np_sort_of_sorted (l : list Z) : StronglySorted Z.le l → np_sort l = l.
Proof.
  induction 1 as [|x l Hl IH Hx]; simpl; [done|]. rewrite IH.
  destruct l as [|y l']; [done|]. simpl.
  apply Forall_cons in Hx as [Hxy _].
  destruct (Z.leb_spec x y); [done|lia].
Qed.

Lemma keep_changes_spec (p : Z) (l : list Z) :
  StronglySorted Z.le (p :: l) →
  StronglySorted Z.lt (p :: keep_changes p l) ∧
  (∀ y, y ∈ p :: keep_changes p l ↔ y ∈ p :: l).
Proof.
  revert p. induction l as [|x l IH]; intros p Hs; simpl.
  - split; [repeat constructor|done].
  - apply StronglySorted_inv in Hs as [Hs Hp].
    destruct (IH x Hs) as [IHs IHe].
    apply Forall_cons in Hp as [Hpx Hp].
    destruct (Z.eqb_spec x p) as [->|Hne].
    + split; [done|]. intros y. rewrite IHe, !elem_of_cons. tauto.
    + split.
      * constructor; [done|]. apply StronglySorted_inv in IHs as [_ IHx].
        constructor; [lia|]. eapply Forall_impl; [exact IHx|]. intros; lia.
      * intros y. rewrite (elem_of_cons _ y p), IHe, !elem_of_cons. tauto.
Qed.

Lemma np_unique_sorted (l : list Z) : StronglySorted Z.lt (np_unique l).
Proof.
  unfold np_unique. pose proof (np_sort_sorted l) as Hs.
  destruct (np_sort l); [constructor|]. by apply keep_changes_spec.
Qed.

Lemma elem_of_np_unique (y : Z) (l : list Z) : y ∈ np_unique l ↔ y ∈ l.
Proof.
  rewrite <- (elem_of_np_sort y l). unfold np_unique.
  pose proof (np_sort_sorted l) as Hs.
  destruct (np_sort l); [done|]. by apply keep_changes_spec.
Qed.

Lemma StronglySorted_lt_le (l : list Z) :
  StronglySorted Z.lt l → StronglySorted Z.le l.
Proof.
  induction 1; constructor; [done|]. eapply Forall_impl; [eassumption|].
  intros; simpl in *; lia.
Qed.

Lemma StronglySorted_lt_NoDup (l : list Z) : StronglySorted Z.lt l → NoDup l.
Proof.
  induction 1 as [|x l Hl IH Hx]; constructor; [|done].
  intros Hin. rewrite Forall_forall in Hx. specialize (Hx x Hin). lia.
Qed.

Lemma np_sort_np_unique (l : list Z) : np_sort (np_unique l) = np_unique l.
Proof. apply np_sort_of_sorted, StronglySorted_lt_le, np_unique_sorted. Qed.

Lemma length_np_unique (l : list Z) :
  length (np_unique l) = length (remove_dups l).
Proof.
  apply Permutation_length, NoDup_Permutation.
  - apply StronglySorted_lt_NoDup, np_unique_sorted.
  - apply NoDup_remove_dups.
  - intros y. by rewrite elem_of_np_unique, elem_of_remove_dups.
Qed.

(** ** The monads *)

Lemma result_bind_Ok {A B} (m : result A) (f : A → result B) (b : B) :
  m ≫= f = Ok b → ∃ a, m = Ok a ∧ f a = Ok b.
Proof. destruct m as [a|e]; simpl; [eauto|discriminate]. Qed.

Lemma foldM_app {A B} (f : A → B → result A) (acc : A) (xs ys : list B) :
  foldM f acc (xs ++ ys) = (acc' ← foldM f acc xs; foldM f acc' ys).
Proof.
  revert acc. induction xs as [|x xs IH]; intros acc; simpl; [done|].
  destruct (f acc x); simpl; [apply IH|done].
Qed.

Lemma mapM_Ok_length {A B} (f : A → result B) (xs : list A) (ys : list B) :
  mapM f xs = Ok ys → length ys = length xs.
Proof.
  revert ys. induction xs as [|x xs IH]; intros ys; simpl.
  - by intros [= <-].
  - destruct (f x); simpl; [|discriminate].
    destruct (mapM f xs); simpl; [|discriminate].
    intros [= <-]. simpl. f_equal. by apply IH.
Qed.

Lemma mapM_Ok_lookup {A B} (f : A → result B) (xs : list A) (ys : list B)
    (i : nat) (x : A) :
  mapM f xs = Ok ys → xs !! i = Some x → ∃ y, f x = Ok y ∧ ys !! i = Some y.
Proof.
  revert ys i. induction xs as [|x' xs IH]; intros ys i; simpl; [done|].
  destruct (f x') as [y'|] eqn:Hy; simpl; [|discriminate].
  destruct (mapM f xs) as [ys'|]; simpl; [|discriminate].
  intros [= <-]. destruct i as [|i]; simpl.
  - intros [= ->]. eauto.
  - intros Hx. by apply IH.
Qed.

Section Proofs.
Context {Types : ExternalTypes} {Ext : Externals}.

Lemma M_bind_run {A B} (m : M A) (f : A → M B) (w : world) :
  (m ≫= f) w =
  match m w with
  | (Ok a, w') => f a w'
  | (Raise e, w') => (Raise e, w')
  end.
Proof. reflexivity. Qed.

Lemma M_bind_Ok {A B} (m : M A) (f : A → M B) (w w' : world) (b : B) :
  (m ≫= f) w = (Ok b, w') →
  ∃ a w1, m w = (Ok a, w1) ∧ f a w1 = (Ok b, w').
Proof.
  rewrite M_bind_run. destruct (m w) as [[a|e] w1]; [eauto|discriminate].
Qed.

(** ** Rules for [stable] *)

Lemma stable_bind {A B} (P : DRTester → Prop) (m : M A) (f : A → M B) :
  stable P m → (∀ a, stable P (f a)) → stable P (m ≫= f).
Proof.
  intros Hm Hf w HP. rewrite M_bind_run. specialize (Hm w HP).
  destruct (m w) as [[a|e] w1]; simpl in *; [by apply Hf|done].
Qed.

Lemma stable_ret {A} (P : DRTester → Prop) (a : A) : stable P (mret a).
Proof. by intros w. Qed.

Lemma stable_raise {A} (P : DRTester → Prop) (e : exn) : stable P (@raise _ A e).
Proof. by intros w. Qed.

Lemma stable_lift {A} (P : DRTester → Prop) (r : result A) : stable P (lift r).
Proof. by intros w. Qed.

Lemma stable_getattr {A} (P : DRTester → Prop) name (proj : DRTester → option A) :
  stable P (getattr name proj).
Proof. by intros w. Qed.

Lemma stable_hasattr {A} (P : DRTester → Prop) (proj : DRTester → option A) :
  stable P (hasattr proj).
Proof. by intros w. Qed.

Lemma stable_get_self (P : DRTester → Prop) : stable P get_self.
Proof. by intros w. Qed.

Lemma stable_with_rng {A} (P : DRTester → Prop) (f : rng → A * rng) :
  stable P (with_rng f).
Proof. intros w HP. unfold with_rng. by destruct (f (np_random w)). Qed.

Lemma stable_setattr (P : DRTester → Prop) (set : DRTester → DRTester) :
  (∀ s, P s → P (set s)) → stable P (setattr set).
Proof. intros H w HP. by apply H. Qed.

Lemma stable_forM {A B} (P : DRTester → Prop) (f : A → B → M A) acc xs :
  (∀ a b, stable P (f a b)) → stable P (forM f acc xs).
Proof.
  intros Hf. revert acc. induction xs as [|x xs IH]; intros acc; simpl.
  - apply stable_ret.
  - apply stable_bind; [apply Hf|]. intros a. apply IH.
Qed.

Ltac stable_step :=
  first
    [ apply stable_ret | apply stable_raise | apply stable_lift
    | apply stable_getattr | apply stable_hasattr | apply stable_get_self
    | apply stable_with_rng
    | apply stable_bind; [|intros ?]
    | apply stable_forM; intros ? ?
    | apply stable_setattr; intros ? ?
    | match goal with
      | |- stable _ (match ?x with _ => _ end) => destruct x
      | |- stable _ (let (_, _) := ?x in _) => destruct x
      end ].

Ltac stable_auto := repeat stable_step.

Lemma stable_get_cv_splits P X T :
  (∀ v s, P s → P (set_cv_splitter v s)) → stable P (get_cv_splits X T).
Proof. intros H. unfold get_cv_splits, get_cv_splitter. stable_auto; eauto. Qed.

Lemma stable_fit_nuisance_cv P X D y sw :
  (∀ v s, P s → P (set_cv_splitter v s)) → stable P (fit_nuisance_cv X D y sw).
Proof.
  intros H. unfold fit_nuisance_cv.
  apply stable_bind; [by apply stable_get_cv_splits|intros ?]. stable_auto.
Qed.

Lemma stable_fit_nuisance_train P Xt Dt yt Xv sw :
  (∀ v s, P s → P (set_model_propensity_ v s)) →
  stable P (fit_nuisance_train Xt Dt yt Xv sw).
Proof. intros H. unfold fit_nuisance_train. stable_auto; eauto. Qed.

Lemma stable_get_cate_preds P Xv Xt :
  (∀ v s, P s → P (set_cate_preds_val_ v s)) →
  (∀ v s, P s → P (set_cate_preds_train_ v s)) →
  stable P (get_cate_preds Xv Xt).
Proof. intros H1 H2. unfold get_cate_preds. stable_auto; eauto. Qed.

(** ** The treatments found by [fit_nuisance] *)

Lemma minimum_spec (l : list Z) :
  match minimum l with
  | None => l = []
  | Some m => m ∈ l ∧ Forall (Z.le m) l
  end.
Proof.
  induction l as [|x l IH]; simpl; [done|].
  destruct (minimum l) as [m|]; simpl.
  - destruct IH as [Hm Hall]. split.
    + destruct (Z.min_spec x m) as [[_ ->]|[_ ->]]; [left|by right].
    + constructor; [lia|]. eapply Forall_impl; [exact Hall|].
      intros; simpl in *; lia.
  - subst l. split; [left|]. repeat constructor. lia.
Qed.

Lemma head_sorted_minimum (ts l : list Z) :
  StronglySorted Z.le ts → (∀ x, x ∈ ts ↔ x ∈ l) → head ts = minimum l.
Proof.
  intros Hs He. pose proof (minimum_spec l) as Hm.
  destruct ts as [|t ts]; simpl.
  - destruct (minimum l) as [m|]; [|done].
    destruct Hm as [Hm _]. apply He in Hm. by apply elem_of_nil in Hm.
  - destruct (minimum l) as [m|].
    + destruct Hm as [Hm Hall]. f_equal.
      apply StronglySorted_inv in Hs as [_ Ht].
      rewrite Forall_forall in Ht, Hall.
      assert (m ≤ t) by (apply Hall, He; left).
      apply He, elem_of_cons in Hm as [->|Hm]; [done|].
      specialize (Ht m Hm). lia.
    + subst l. assert (t ∈ @nil Z) as H by (apply He; left).
      by apply elem_of_nil in H.
Qed.

Lemma bind_setattr {A} (set : DRTester → DRTester) (k : M A) (w : world) :
  (setattr set ;; k) w = k {| self := set (self w); np_random := np_random w |}.
Proof. reflexivity. Qed.

Lemma bind_getattr {A B} name (proj : DRTester → option A) (f : A → M B)
    (w : world) (a : A) :
  proj (self w) = Some a → (getattr name proj ≫= f) w = f a w.
Proof. intros H. rewrite M_bind_run. unfold getattr. by rewrite H. Qed.

Lemma stable_fit_nuisance_dr P Xval Dval yval Xtrain Dtrain ytrain swv swt :
  (∀ v s, P s → P (set_cv_splitter v s)) →
  (∀ v s, P s → P (set_model_propensity_ v s)) →
  (∀ v s, P s → P (set_fit_on_train v s)) →
  (∀ v s, P s → P (set_dr_train_ v s)) →
  (∀ v s, P s → P (set_dr_val_ v s)) →
  stable P
    (match Xtrain, Dtrain, ytrain with
     | Some Xtrain, Some Dtrain, Some ytrain =>
         setattr (set_fit_on_train true);;
         preds ← fit_nuisance_cv Xtrain Dtrain ytrain swt;
         ts ← getattr "treatments" treatments;
         dr ← lift (calculate_dr_outcomes Dtrain ytrain preds.1 preds.2 ts);
         setattr (set_dr_train_ (standardize_2d dr));;
         preds ← fit_nuisance_train Xtrain Dtrain ytrain Xval swt;
         ts ← getattr "treatments" treatments;
         dr ← lift (calculate_dr_outcomes Dval yval preds.1 preds.2 ts);
         setattr (set_dr_val_ (standardize_2d dr))
     | _, _, _ =>
         setattr (set_fit_on_train false);;
         preds ← fit_nuisance_cv Xval Dval yval swv;
         ts ← getattr "treatments" treatments;
         dr ← lift (calculate_dr_outcomes Dval yval preds.1 preds.2 ts);
         setattr (set_dr_val_ (standardize_2d dr))
     end).
Proof.
  intros H1 H2 H3 H4 H5.
  destruct Xtrain, Dtrain, ytrain;
    repeat first
      [ by apply stable_fit_nuisance_cv
      | by apply stable_fit_nuisance_train
      | stable_step ]; eauto.
Qed.

(** C6.  Whatever the outcome of [fit_nuisance], [treatments] is the
    strictly increasing list of the values that occur in [Dval], so that its
    first element, the control arm, is the least value of [Dval]; and
    [n_treat] is the number of distinct values of [Dval] minus one. *)
Theorem fit_nuisance_treatments Xval Dval yval Xtrain Dtrain ytrain swv swt
    (w : world) :
  let s' := self (fit_nuisance Xval Dval yval Xtrain Dtrain ytrain swv swt w).2 in
  ∃ ts : list Z,
    treatments s' = Some ts ∧
    StronglySorted Z.lt ts ∧
    (∀ x, x ∈ ts ↔ x ∈ Dval) ∧
    head ts = minimum Dval ∧
    n_treat s' = Some (Z.of_nat (length (remove_dups Dval)) - 1).
Proof.
  intros s'. exists (np_unique Dval).
  assert (treatments s' = Some (np_unique Dval) ∧
          n_treat s' = Some (Z.of_nat (length (np_unique Dval)) - 1))
    as [Ht Hn].
  { subst s'. unfold fit_nuisance. rewrite !bind_setattr.
    erewrite bind_getattr by reflexivity. rewrite bind_setattr.
    rewrite np_sort_np_unique.
    match goal with |- context [(?m ≫= ?f) ?w0] =>
      apply (stable_bind (λ s, treatments s = Some (np_unique Dval) ∧
               n_treat s = Some (Z.of_nat (length (np_unique Dval)) - 1)) m f)
    end; [| |done].
    - apply stable_fit_nuisance_dr; by intros ? ? [? ?].
    - intros _. stable_auto. }
  split; [done|]. split; [apply np_unique_sorted|].
  split; [intros x; apply elem_of_np_unique|]. split.
  - apply head_sorted_minimum; [|intros x; apply elem_of_np_unique].
    apply StronglySorted_lt_le, np_unique_sorted.
  - by rewrite Hn, length_np_unique.
Qed.

(** ** Calls before the nuisances are fitted *)

Lemma evaluate_cal_needs_dr_train Xval Xtrain n_groups swv swt (w : world) :
  dr_train_ (self w) = None →
  evaluate_cal Xval Xtrain n_groups swv swt w =
  (Raise (Exception
       "Must fit nuisance models on training sample data to use calibration test"), w).
Proof.
  intros H. unfold evaluate_cal. rewrite M_bind_run. unfold hasattr.
  rewrite H. reflexivity.
Qed.

Lemma evaluate_blp_needs_dr_val Xval Xtrain swv (w : world) :
  dr_val_ (self w) = None →
  evaluate_blp Xval Xtrain swv w = (Raise (Exception "Must fit nuisances before evaluating"), w).
Proof.
  intros H. unfold evaluate_blp. rewrite M_bind_run. unfold hasattr.
  rewrite H. reflexivity.
Qed.

Lemma evaluate_uplift_needs_dr_val Xval Xtrain pct metric nb swv swt (w : world) :
  dr_val_ (self w) = None →
  evaluate_uplift Xval Xtrain pct metric nb swv swt w =
  (Raise (Exception "Must fit nuisances before evaluating"), w).
Proof.
  intros H. unfold evaluate_uplift. rewrite M_bind_run. unfold hasattr.
  rewrite H. reflexivity.
Qed.

Lemma fit_nuisance_without_train Xval Dval yval Xtrain Dtrain ytrain swv swt :
  Xtrain = None ∨ Dtrain = None ∨ ytrain = None →
  stable (λ s, dr_train_ s = None)
    (fit_nuisance Xval Dval yval Xtrain Dtrain ytrain swv swt).
Proof.
  intros Hnone. unfold fit_nuisance.
  do 4 (apply stable_bind; [stable_auto|intros ?]).
  apply stable_bind; [|intros ?; stable_auto].
  destruct Xtrain, Dtrain, ytrain;
    try (by destruct Hnone as [?|[?|?]]);
    repeat first [ by apply stable_fit_nuisance_cv | stable_step ].
Qed.

(** C5.  On an object without training-sample DR outcomes, [evaluate_cal]
    after a [fit_nuisance] that was given no training data raises the
    exception that asks for them; on an object without DR outcomes, as it
    is before any [fit_nuisance], [evaluate_blp] and [evaluate_uplift] raise
    the exception that asks for the nuisances.  The object is left as it
    was: nothing is retried. *)
Theorem evaluate_before_fit Xval Dval yval Xtrain Dtrain ytrain fwv fwt
    aXval aXtrain n_groups pct metric nb swv swt (w0 w : world) :
  dr_train_ (self w0) = None →
  Xtrain = None ∨ Dtrain = None ∨ ytrain = None →
  dr_val_ (self w) = None →
  let w1 := (fit_nuisance Xval Dval yval Xtrain Dtrain ytrain fwv fwt w0).2 in
  evaluate_cal aXval aXtrain n_groups swv swt w1 =
    (Raise (Exception
       "Must fit nuisance models on training sample data to use calibration test"), w1) ∧
  evaluate_blp aXval aXtrain swv w = (Raise (Exception "Must fit nuisances before evaluating"), w) ∧
  evaluate_uplift aXval aXtrain pct metric nb swv swt w =
    (Raise (Exception "Must fit nuisances before evaluating"), w).
Proof.
  intros H0 Hnone Hw w1. split; [|split].
  - apply evaluate_cal_needs_dr_train.
    by apply (fit_nuisance_without_train _ _ _ _ _ _ _ _ Hnone w0).
  - by apply evaluate_blp_needs_dr_val.
  - by apply evaluate_uplift_needs_dr_val.
Qed.

(** ** Sample weights *)

Lemma default_weights_world name proj sw (w : world) :
  (default_weights name proj sw w).2 = w.
Proof.
  destruct sw; simpl; [done|]. unfold default_weights.
  rewrite M_bind_run. unfold getattr. destruct (attr name (proj (self w))); [|done].
  rewrite M_bind_run. unfold lift. by destruct (shape0 _).
Qed.

Lemma assert_weights_run (l : list Z) (w : world) :
  assert_weights l w =
  (if np_all (map (λ z, 1 <=? z) l) then Ok tt
   else Raise (AssertionError weights_msg), w).
Proof. unfold assert_weights. by destruct (np_all _). Qed.



Lemma bind_hasattr {A B} (proj : DRTester → option A) (f : bool → M B)
    (w : world) :
  (hasattr proj ≫= f) w = f (bool_decide (is_Some (proj (self w)))) w.
Proof. reflexivity. Qed.

Lemma bind_ret {A B} (a : A) (f : A → M B) (w : world) :
  (mret a ≫= f) w = f a w.
Proof. reflexivity. Qed.

Lemma bind_lift {A B} (r : result A) (f : A → M B) (w : world) :
  (lift r ≫= f) w =
  match r with Ok a => f a w | Raise e => (Raise e, w) end.
Proof. rewrite M_bind_run. unfold lift. by destruct r. Qed.

Lemma bind_default_weights_Some {B} name proj (x : list npfloat)
    (f : list npfloat → M B) (w : world) :
  (default_weights name proj (Some x) ≫= f) w = f x w.
Proof. reflexivity. Qed.



Lemma default_weights_Some name proj (x : list npfloat) (w : world) :
  default_weights name proj (Some x) w = (Ok x, w).
Proof. reflexivity. Qed.

Lemma bind_run_Ok {A B} (m : M A) (f : A → M B) (w w1 : world) (a : A) :
  m w = (Ok a, w1) → (m ≫= f) w = f a w1.
Proof. intros H. by rewrite M_bind_run, H. Qed.




(** *** The cast to integers *)


Lemma int64_bounds :
  INT64_MIN = -9223372036854775808 ∧ INT64_MAX = 9223372036854775807.
Proof. split; reflexivity. Qed.








(** *** The calls see the weights through the cast only *)








(** *** The random state *)












Lemma stable_ensure_cate_preds_both P Xval Xtrain :
  (∀ v s, P s → P (set_cate_preds_val_ v s)) →
  (∀ v s, P s → P (set_cate_preds_train_ v s)) →
  stable P (ensure_cate_preds_both Xval Xtrain).
Proof.
  intros H1 H2. unfold ensure_cate_preds_both.
  repeat first [by apply stable_get_cate_preds | stable_step].
Qed.



(** ** The order of floats *)

Lemma fle_trans (a b c : npfloat) :
  fle a b = true → fle b c = true → fle a c = true.
Proof.
  destruct a, b, c; simpl; try done.
  rewrite !Qle_bool_iff. apply Qle_trans.
Qed.

Lemma flt_fle (a b : npfloat) : flt a b = true → fle a b = true.
Proof.
  destruct a, b; simpl; try done.
  rewrite negb_true_iff, Qle_bool_iff. intros H.
  apply Qlt_le_weak, Qnot_le_lt. intros Hle.
  apply Qle_bool_iff in Hle. congruence.
Qed.

Lemma flt_not_fle (a b : npfloat) : flt a b = true → fle b a = false.
Proof.
  destruct a, b; simpl; try done. by rewrite negb_true_iff.
Qed.

(** Two floats that are not NaN are comparable. *)
Lemma flt_or_fle (a b x y : npfloat) :
  fle a x = true → fle y b = true → flt x b = true ∨ fle b x = true.
Proof.
  destruct a, b, x, y; simpl; try done; auto;
    intros _ _;
    match goal with |- context [Qle_bool ?p ?q] => destruct (Qle_bool p q) end;
    auto.
Qed.

(** ** The bins of the calibration test *)

Section Bins.
Variable n_groups : Z.
Variable cuts : list npfloat.
Variable n : nat.
Hypothesis n_def : n = Z.to_nat n_groups.
Hypothesis cuts_sorted : ∀ i, (i < n)%nat → fle (cut_at cuts i) (cut_at cuts (S i)) = true.

Lemma cuts_chain (i j : nat) :
  (i < j)%nat → (j ≤ n)%nat → fle (cut_at cuts i) (cut_at cuts j) = true.
Proof.
  induction j as [|j IH]; [lia|]. intros Hij Hj.
  destruct (decide (i = j)) as [->|Hne]; [apply cuts_sorted; lia|].
  apply (fle_trans _ (cut_at cuts j)); [apply IH; lia|apply cuts_sorted; lia].
Qed.

Lemma cut_in_range (i : nat) : (i ≤ n)%nat → (1 ≤ n)%nat → (i < length cuts)%nat.
Proof.
  intros Hi Hn. destruct (decide (i < length cuts)%nat) as [|Hge]; [done|].
  assert (cut_at cuts i = NaN) as Hnan by (apply nth_overflow; lia).
  destruct (decide (i = 0)%nat) as [->|].
  - pose proof (cuts_sorted 0%nat ltac:(lia)) as H. by rewrite Hnan in H.
  - pose proof (cuts_sorted (i - 1)%nat ltac:(lia)) as H.
    replace (S (i - 1)) with i in H by lia. rewrite Hnan in H.
    by destruct (cut_at cuts (i - 1)).
Qed.

Lemma in_bin_inner (i : nat) (x : npfloat) :
  (S i < n)%nat →
  in_bin n_groups cuts i x = fle (cut_at cuts i) x && flt x (cut_at cuts (S i)).
Proof.
  intros Hi. unfold in_bin. replace (i + 1)%nat with (S i) by lia.
  destruct (Z.ltb_spec (Z.of_nat i) (n_groups - 1)); [done|]. lia.
Qed.

Lemma in_bin_last (i : nat) (x : npfloat) :
  (S i = n)%nat →
  in_bin n_groups cuts i x = fle (cut_at cuts i) x && fle x (cut_at cuts (S i)).
Proof.
  intros Hi. unfold in_bin. replace (i + 1)%nat with (S i) by lia.
  destruct (Z.ltb_spec (Z.of_nat i) (n_groups - 1)); [|done]. lia.
Qed.

Lemma in_bin_bounds (i : nat) (x : npfloat) :
  (i < n)%nat → in_bin n_groups cuts i x = true →
  fle (cut_at cuts i) x = true ∧ fle x (cut_at cuts (S i)) = true ∧
  ((S i < n)%nat → flt x (cut_at cuts (S i)) = true).
Proof.
  intros Hi. destruct (decide (S i = n)) as [Hl|Hl].
  - rewrite in_bin_last by done. intros [? ?]%andb_true_iff.
    split; [done|]. split; [done|intros; lia].
  - rewrite in_bin_inner by lia. intros [? ?]%andb_true_iff.
    split; [done|]. split; [by apply flt_fle|done].
Qed.

Lemma in_bin_within (i : nat) (x : npfloat) :
  (i < n)%nat → in_bin n_groups cuts i x = true →
  fle (cut_at cuts 0) x = true ∧ fle x (cut_at cuts n) = true.
Proof.
  intros Hi Hin. apply in_bin_bounds in Hin as (Hlo & Hhi & _); [|done].
  split.
  - destruct (decide (i = 0)%nat) as [->|]; [done|].
    apply (fle_trans _ (cut_at cuts i)); [apply cuts_chain; lia|done].
  - destruct (decide (S i = n)) as [<-|]; [done|].
    apply (fle_trans _ (cut_at cuts (S i))); [done|apply cuts_chain; lia].
Qed.

Lemma in_bin_unique (i j : nat) (x : npfloat) :
  (i < n)%nat → (j < n)%nat →
  in_bin n_groups cuts i x = true → in_bin n_groups cuts j x = true → i = j.
Proof.
  assert (∀ i j, (i < j)%nat → (j < n)%nat →
    in_bin n_groups cuts i x = true → in_bin n_groups cuts j x = true → False)
    as Hlt.
  { clear i j. intros i j Hij Hj Hi' Hj'.
    apply in_bin_bounds in Hi' as (_ & _ & Hi'); [|lia].
    apply in_bin_bounds in Hj' as (Hj' & _ & _); [|lia].
    specialize (Hi' ltac:(lia)). apply flt_not_fle in Hi'.
    assert (fle (cut_at cuts (S i)) x = true); [|congruence].
    destruct (decide (S i = j)) as [->|]; [done|].
    apply (fle_trans _ (cut_at cuts j)); [apply cuts_chain; lia|done]. }
  intros Hi Hj Hi' Hj'.
  destruct (Nat.lt_trichotomy i j) as [?|[?|?]]; [|done|]; exfalso; eauto.
Qed.

Lemma in_bin_search (x : npfloat) (m : nat) :
  (S m < n)%nat → fle (cut_at cuts 0) x = true →
  (∃ i, (i ≤ m)%nat ∧ in_bin n_groups cuts i x = true) ∨
  fle (cut_at cuts (S m)) x = true.
Proof.
  intros Hm H0. induction m as [|m IH].
  - destruct (flt_or_fle (cut_at cuts 0) (cut_at cuts 1) x (cut_at cuts 0)) as [Hlt|Hle]; [done| |left|by right].
    { apply cuts_sorted. lia. }
    exists 0%nat. split; [done|]. rewrite in_bin_inner by lia.
    by rewrite H0, Hlt.
  - destruct IH as [(i & Hi & Hin)|Hle]; [lia| |].
    { left. exists i. split; [lia|done]. }
    destruct (flt_or_fle (cut_at cuts (S m)) (cut_at cuts (S (S m))) x (cut_at cuts (S m)))
      as [Hlt|Hle']; [done| |left|by right].
    { apply cuts_sorted. lia. }
    exists (S m). split; [done|]. rewrite in_bin_inner by lia.
    by rewrite Hle, Hlt.
Qed.

Lemma in_bin_exists (x : npfloat) :
  (1 ≤ n)%nat → fle (cut_at cuts 0) x = true → fle x (cut_at cuts n) = true →
  ∃ i, (i < n)%nat ∧ in_bin n_groups cuts i x = true.
Proof.
  intros Hn H0 Hn'. destruct (decide (n = 1)%nat) as [H1|H1].
  - exists 0%nat. split; [lia|]. rewrite in_bin_last by lia.
    rewrite H0. by rewrite <- H1.
  - destruct (in_bin_search x (n - 2)) as [(i & Hi & Hin)|Hle]; [lia|done| |].
    + exists i. split; [lia|done].
    + exists (n - 1)%nat. split; [lia|]. rewrite in_bin_last by lia.
      replace (S (n - 2)) with (n - 1)%nat in Hle by lia. rewrite Hle.
      by replace (S (n - 1)) with n by lia.
Qed.

Lemma bin_mask_members (preds : list npfloat) (i : nat) :
  (i < n)%nat → bin_mask n_groups cuts preds i = Ok (members n_groups cuts preds i).
Proof.
  intros Hi. unfold bin_mask, index.
  pose proof (cut_in_range i ltac:(lia) ltac:(lia)) as Hi1.
  pose proof (cut_in_range (S i) ltac:(lia) ltac:(lia)) as Hi2.
  replace (i + 1)%nat with (S i) by lia.
  destruct (lookup_lt_is_Some_2 cuts i Hi1) as [lo Hlo].
  destruct (lookup_lt_is_Some_2 cuts (S i) Hi2) as [hi Hhi].
  rewrite Hlo, Hhi. simpl.
  assert (cut_at cuts i = lo) as Elo by (by apply nth_lookup_Some).
  assert (cut_at cuts (S i) = hi) as Ehi by (by apply nth_lookup_Some).
  unfold members, mask_and, in_bin, fge.
  replace (i + 1)%nat with (S i) by lia.
  rewrite Elo, Ehi.
  destruct (Z.of_nat i <? n_groups - 1); f_equal;
    (induction preds as [|x preds IH]; simpl; [done|by rewrite IH]).
Qed.

End Bins.

(** ** The loop over the bins *)

Lemma entries_update (g : group_arrays) (i j : nat) (r : group_row) (N : nat) :
  arrays_length N g → (i < N)%nat →
  let g' := {| probs := <[i := row_prob r]> (probs g);
               g_cate := <[i := row_g_cate r]> (g_cate g);
               se_g_cate := <[i := row_se_g_cate r]> (se_g_cate g);
               gate := <[i := row_gate r]> (gate g);
               se_gate := <[i := row_se_gate r]> (se_gate g) |} in
  arrays_length N g' ∧
  entries g' j = if decide (i = j) then row_entries r else entries g j.
Proof.
  intros (H1 & H2 & H3 & H4 & H5) Hi g'. split.
  - unfold arrays_length, g'; simpl. by rewrite !length_insert.
  - unfold entries, g', row_entries; simpl. destruct (decide (i = j)) as [->|Hne].
    + by rewrite !list_lookup_insert_eq by lia.
    + by rewrite !list_lookup_insert_ne by done.
Qed.

Lemma cal_group_Ok s k n_groups cuts wv w_tot (acc acc' : group_arrays)
    (i N : nat) :
  cal_group s k n_groups cuts wv w_tot acc i = Ok acc' →
  arrays_length N acc → (i < N)%nat →
  ∃ st, group_stats s k n_groups cuts wv w_tot i = Ok st ∧
    arrays_length N acc' ∧
    ∀ j, entries acc' j =
         match st with
         | Some r => if decide (i = j) then row_entries r else entries acc j
         | None => entries acc j
         end.
Proof.
  unfold cal_group. intros (st & Hst & H)%result_bind_Ok Hlen Hi.
  exists st. split; [done|]. destruct st as [r|]; injection H as <-.
  - split; [by apply (entries_update acc i i r N)|].
    intros j. by apply (entries_update acc i j r N).
  - done.
Qed.

Lemma cal_group_loop s k n_groups cuts wv w_tot (N m a : nat)
    (acc acc' : group_arrays) :
  foldM (cal_group s k n_groups cuts wv w_tot) acc (seq a m) = Ok acc' →
  arrays_length N acc → (a + m ≤ N)%nat →
  arrays_length N acc' ∧
  (∀ j, (j < a ∨ a + m ≤ j)%nat → entries acc' j = entries acc j) ∧
  (∀ i, (a ≤ i < a + m)%nat →
     ∃ st, group_stats s k n_groups cuts wv w_tot i = Ok st ∧
       entries acc' i = from_option row_entries (entries acc i) st).
Proof.
  revert a acc. induction m as [|m IH]; intros a acc; simpl.
  - intros [= <-] Hlen _. split; [done|]. split; [done|]. intros i Hi. lia.
  - intros (acc1 & H1 & H)%result_bind_Ok Hlen Ham.
    destruct (cal_group_Ok _ _ _ _ _ _ _ _ _ N H1 Hlen ltac:(lia))
      as (st & Hst & Hlen1 & Hent1).
    destruct (IH (S a) acc1 H Hlen1 ltac:(lia)) as (Hlen' & Hout & Hin).
    split; [done|]. split.
    + intros j Hj. rewrite Hout by lia. rewrite Hent1.
      destruct st; [|done]. destruct (decide (a = j)); [lia|done].
    + intros i Hi. destruct (decide (i = a)) as [->|Hne].
      * exists st. split; [done|]. rewrite Hout by lia. rewrite Hent1.
        destruct st; [|done]. by rewrite decide_True.
      * destruct (Hin i ltac:(lia)) as (st' & Hst' & Hent').
        exists st'. split; [done|]. rewrite Hent', Hent1.
        destruct st; [|done]. by rewrite decide_False by lia.
Qed.

Lemma bin_mask_Ok n_groups cuts preds (i : nat) (ind : list bool) :
  bin_mask n_groups cuts preds i = Ok ind → ind = members n_groups cuts preds i.
Proof.
  unfold bin_mask, index.
  destruct (cuts !! i) as [lo|] eqn:Hlo; [|done].
  destruct (cuts !! (i + 1)%nat) as [hi|] eqn:Hhi; [|done]. simpl.
  unfold members, in_bin, mask_and, fge, cut_at.
  rewrite (nth_lookup_Some _ _ NaN _ Hlo), (nth_lookup_Some _ _ NaN _ Hhi).
  destruct (Z.of_nat i <? n_groups - 1); intros H; inversion H; subst ind;
    clear H; (induction preds as [|x preds IH]; simpl; [done|by rewrite IH]).
Qed.

Lemma nd_col_Ok (a : option ndarray) (x : ndarray) (k : nat) (col : list npfloat) :
  a = Some x → nd_col x k = Ok col → col = col_of a k.
Proof.
  intros -> H. destruct x as [|?|c rows]; simpl in *; try done.
  destruct (k <? c)%nat; [by injection H as <-|done].
Qed.

Lemma np_average_Ok (v w : list npfloat) (x : npfloat) :
  np_average v (Some w) = Ok x → x = fdiv (np_sum (zip_with fmul v w)) (np_sum w).
Proof.
  unfold np_average. destruct (negb _); [done|]. destruct (feqb _ _); [done|].
  by intros [= <-].
Qed.

Lemma mask_index_Ok {A} (v : list A) (mask : list bool) (x : list A) :
  mask_index v mask = Ok x → x = select mask v.
Proof. unfold mask_index. destruct (_ =? _)%nat; [by intros [= <-]|done]. Qed.

(** What the loop body computes for a bin, in closed form. *)
Lemma group_stats_Ok s k n_groups cuts wv (i : nat) (st : option group_row) :
  group_stats s k n_groups cuts wv (np_sum_int wv) i = Ok st →
  let preds := col_of (cate_preds_val_ s) k in
  let dr := col_of (dr_val_ s) k in
  let ind := members n_groups cuts preds i in
  st = if np_any ind then
         Some {| row_prob := weighted_mass wv ind;
                 row_g_cate := weighted_mean preds wv ind;
                 row_se_g_cate := weighted_se (select ind preds) (select ind wv);
                 row_gate := weighted_mean dr wv ind;
                 row_se_gate := weighted_se (select ind dr) (select ind wv) |}
       else None.
Proof.
  intros H preds dr ind. subst preds dr ind. unfold group_stats in H.
  apply result_bind_Ok in H as (pv & Hpv & H).
  apply result_bind_Ok in H as (col & Hcol & H).
  apply result_bind_Ok in H as (ind & Hind & H).
  destruct (cate_preds_val_ s) as [pv'|] eqn:Epv; [|done].
  injection Hpv as ->.
  apply (nd_col_Ok _ _ _ _ eq_refl) in Hcol as Hcol'. subst col.
  apply bin_mask_Ok in Hind. subst ind.
  destruct (np_any _); cbn [negb] in H; [|by injection H as <-].
  apply result_bind_Ok in H as (w_ind & Hw & H).
  apply mask_index_Ok in Hw. subst w_ind.
  apply result_bind_Ok in H as (drv & Hdrv & H).
  destruct (dr_val_ s) as [drv'|] eqn:Edr; [|done].
  injection Hdrv as ->.
  apply result_bind_Ok in H as (dr_ind & Hdri & H).
  unfold nd_rows_col in Hdri.
  apply result_bind_Ok in Hdri as (drcol & Hdrcol & Hdri).
  apply (nd_col_Ok _ _ _ _ eq_refl) in Hdrcol. subst drcol.
  apply mask_index_Ok in Hdri. subst dr_ind.
  apply result_bind_Ok in H as (gate_i & Hgate & H).
  apply np_average_Ok in Hgate.
  apply result_bind_Ok in H as (cate_ind & Hci & H).
  unfold nd_rows_col in Hci.
  apply result_bind_Ok in Hci as (col2 & Hcol2 & Hci).
  apply (nd_col_Ok _ _ _ _ eq_refl) in Hcol2. subst col2.
  apply mask_index_Ok in Hci. subst cate_ind.
  apply result_bind_Ok in H as (g_cate_i & Hgc & H).
  apply np_average_Ok in Hgc.
  injection H as <-. subst gate_i g_cate_i. reflexivity.
Qed.

Lemma entries_replicate (n i : nat) :
  (i < n)%nat →
  entries {| probs := replicate n f0; g_cate := replicate n f0;
             se_g_cate := replicate n f0; gate := replicate n f0;
             se_gate := replicate n f0 |} i = zero_entries.
Proof.
  intros Hi. unfold entries, zero_entries. simpl.
  by rewrite !lookup_replicate_2.
Qed.

(** The arrays of an arm after the loop: bin by bin, the statistics of the
    bin when it has members, zero when it has none. *)
Lemma cal_groups_Ok s k n_groups wv wt (g : group_arrays) :
  cal_groups s k n_groups wv wt = Ok g →
  let cuts := weighted_stat (col_of (cate_preds_train_ s) k) (levels n_groups) wt in
  let preds := col_of (cate_preds_val_ s) k in
  let dr := col_of (dr_val_ s) k in
  arrays_length (Z.to_nat n_groups) g ∧
  ∀ i, (i < Z.to_nat n_groups)%nat →
    let ind := members n_groups cuts preds i in
    entries g i =
    if np_any ind then
      (Some (weighted_mass wv ind), Some (weighted_mean preds wv ind),
       Some (weighted_se (select ind preds) (select ind wv)),
       Some (weighted_mean dr wv ind),
       Some (weighted_se (select ind dr) (select ind wv)))
    else zero_entries.
Proof.
  intros H cuts preds dr. subst cuts preds dr. unfold cal_groups in H.
  apply result_bind_Ok in H as (pt & Hpt & H).
  destruct (cate_preds_train_ s) as [pt'|] eqn:Ept; [|done].
  injection Hpt as ->.
  apply result_bind_Ok in H as (colt & Hcolt & H).
  apply (nd_col_Ok _ _ _ _ eq_refl) in Hcolt. subst colt.
  apply result_bind_Ok in H as (q & Hq & H).
  apply result_bind_Ok in H as (zeros & Hz & H).
  unfold np_zeros in Hz. destruct (n_groups <? 0); [done|].
  injection Hz as <-.
  assert (q = levels n_groups) as -> by (unfold levels; by rewrite Hq).
  unfold range in H.
  apply (cal_group_loop _ _ _ _ _ _ (Z.to_nat n_groups)) in H
    as (Hlen & _ & Hin);
    [|by unfold arrays_length; simpl; rewrite !length_replicate|lia].
  split; [done|]. intros i Hi ind. subst ind.
  destruct (Hin i ltac:(lia)) as (st & Hst & Hent).
  apply group_stats_Ok in Hst.
  rewrite Hent, entries_replicate by done. subst st.
  by destruct (np_any _).
Qed.

(** C4.  In the arrays of an arm after the loop over the bins, the five
    entries of a bin without members are the zeros the arrays were created
    with, and the probability mass of a bin with members is the weight of
    its members over the weight of all the validation units: the masses of
    the bins with members are not rescaled to sum to one.  The plot data of
    the arm holds these arrays. *)
Theorem empty_bins_stay_zero s k n_groups wv wt score df :
  cal_arm s k n_groups wv wt = Ok (score, df) →
  ∃ g : group_arrays,
    cal_groups s k n_groups wv wt = Ok g ∧
    (df_gate df = gate g ∧ df_se_gate df = se_gate g ∧
     df_g_cate df = g_cate g ∧ df_se_g_cate df = se_g_cate g) ∧
    ∀ i, (i < Z.to_nat n_groups)%nat →
      let cuts :=
        weighted_stat (col_of (cate_preds_train_ s) k) (levels n_groups) wt in
      let ind := members n_groups cuts (col_of (cate_preds_val_ s) k) i in
      (np_any ind = false → entries g i = zero_entries) ∧
      (np_any ind = true → probs g !! i = Some (weighted_mass wv ind)).
Proof.
  intros H. unfold cal_arm in H.
  apply result_bind_Ok in H as (g & Hg & H).
  apply result_bind_Ok in H as (ate & _ & H).
  apply result_bind_Ok in H as (ate_k & _ & H).
  injection H as _ <-. exists g. split; [done|]. split; [done|].
  intros i Hi cuts ind. subst cuts ind.
  destruct (cal_groups_Ok _ _ _ _ _ _ Hg) as [_ Hent].
  specialize (Hent i Hi). cbv zeta in Hent.
  destruct (np_any _); split; try done.
  intros _. unfold entries in Hent. by injection Hent.
Qed.

(** ** The calibration score *)

Lemma fmul_comm (x y : npfloat) : fmul x y = fmul y x.
Proof.
  destruct x as [[a b]| | |], y as [[c d]| | |]; simpl; try done.
  unfold Qmult; simpl. by rewrite Z.mul_comm, Pos.mul_comm.
Qed.

Lemma list_of_lookups {A} (l : list A) (N : nat) (f : nat → A) :
  length l = N → (∀ i, (i < N)%nat → l !! i = Some (f i)) →
  l = map f (seq 0 N).
Proof.
  intros Hlen Hl. apply list_eq. intros i.
  rewrite list_lookup_fmap. destruct (decide (i < N)%nat) as [Hi|Hi].
  - rewrite Hl, lookup_seq_lt by done. done.
  - rewrite !lookup_ge_None_2; [done|rewrite length_seq; lia|lia].
Qed.

Lemma zip_with_map_same {A B C D} (f : B → C → D) (g : A → B) (h : A → C)
    (l : list A) :
  zip_with f (map g l) (map h l) = map (λ x, f (g x) (h x)) l.
Proof. induction l; simpl; [done|by f_equal]. Qed.

Lemma cal_arm_Ok s k n_groups wv wt score df :
  cal_arm s k n_groups wv wt = Ok (score, df) →
  let cuts :=
    weighted_stat (col_of (cate_preds_train_ s) k) (levels n_groups) wt in
  let preds := col_of (cate_preds_val_ s) k in
  let dr := col_of (dr_val_ s) k in
  ∃ ate ate_k, ate_val s = Some ate ∧ ate !! k = Some ate_k ∧
    score = fsub f1 (fdiv (Cal_G n_groups cuts preds dr wv)
                          (Cal_O n_groups cuts preds dr wv ate_k)).
Proof.
  intros H cuts preds dr. subst cuts preds dr. unfold cal_arm in H.
  apply result_bind_Ok in H as (g & Hg & H).
  apply result_bind_Ok in H as (ate & Hate & H).
  apply result_bind_Ok in H as (ate_k & Hk & H).
  injection H as <- _.
  destruct (ate_val s) as [ate'|]; [|done]. injection Hate as ->.
  unfold index in Hk. destruct (ate !! k) as [x|] eqn:Ek; [|done].
  injection Hk as ->.
  exists ate, ate_k. split; [done|]. split; [done|].
  destruct (cal_groups_Ok _ _ _ _ _ _ Hg) as [(Lp & Lc & _ & Lg & _) Hent].
  cbv zeta in Hent.
  set (cuts := weighted_stat _ _ _) in *.
  set (preds := col_of (cate_preds_val_ s) k) in *.
  set (dr := col_of (dr_val_ s) k) in *.
  set (ind := members n_groups cuts preds) in *.
  assert (probs g = map (λ i, bin_mass wv (ind i))
                      (seq 0 (Z.to_nat n_groups))) as Ep.
  { apply list_of_lookups; [done|]. intros i Hi. specialize (Hent i Hi).
    unfold entries, zero_entries, bin_mass in *. destruct (np_any (ind i));
      by injection Hent. }
  assert (gate g = map (λ i, bin_mean dr wv (ind i))
                     (seq 0 (Z.to_nat n_groups))) as Eg.
  { apply list_of_lookups; [done|]. intros i Hi. specialize (Hent i Hi).
    unfold entries, zero_entries, bin_mean in *. destruct (np_any (ind i));
      by injection Hent. }
  assert (g_cate g = map (λ i, bin_mean preds wv (ind i))
                       (seq 0 (Z.to_nat n_groups))) as Ec.
  { apply list_of_lookups; [done|]. intros i Hi. specialize (Hent i Hi).
    unfold entries, zero_entries, bin_mean in *. destruct (np_any (ind i));
      by injection Hent. }
  assert (cal_score_g g = Cal_G n_groups cuts preds dr wv) as ->.
  { unfold cal_score_g, Cal_G, range. rewrite Ep, Eg, Ec.
    rewrite zip_with_map_same, <- list_fmap_compose, zip_with_map_same.
    f_equal. apply list_fmap_ext. intros i j _. simpl. apply fmul_comm. }
  assert (cal_score_o g ate_k = Cal_O n_groups cuts preds dr wv ate_k) as ->.
  { unfold cal_score_o, Cal_O, range. rewrite Ep, Eg.
    rewrite <- list_fmap_compose, zip_with_map_same.
    f_equal. apply list_fmap_ext. intros i j _. simpl. apply fmul_comm. }
  done.
Qed.

Lemma cal_arms_loop s n_groups wv wt (m a : nat)
    (acc out : list npfloat * list (Z * df_plot)) :
  foldM (λ (acc : list npfloat * list (Z * df_plot)) k,
      arm ← cal_arm s k n_groups wv wt;
      ts ← attr "treatments" (treatments s);
      key ← index ts (k + 1);
      Ok (<[k := arm.1]> acc.1, dict_set acc.2 key arm.2))
    acc (seq a m) = Ok out →
  (a + m ≤ length acc.1)%nat →
  length out.1 = length acc.1 ∧
  (∀ j, (j < a ∨ a + m ≤ j)%nat → out.1 !! j = acc.1 !! j) ∧
  (∀ k, (a ≤ k < a + m)%nat →
     ∃ score df, cal_arm s k n_groups wv wt = Ok (score, df) ∧
       out.1 !! k = Some score).
Proof.
  revert a acc. induction m as [|m IH]; intros a acc; simpl.
  - intros [= <-] _. split; [done|]. split; [done|]. intros k Hk. lia.
  - intros (acc1 & H1 & H)%result_bind_Ok Ham.
    apply result_bind_Ok in H1 as ([score df] & Harm & H1).
    apply result_bind_Ok in H1 as (ts & _ & H1).
    apply result_bind_Ok in H1 as (key & _ & H1).
    injection H1 as <-. simpl in H.
    apply IH in H as (Hlen & Hout & Hin);
      [|simpl; rewrite length_insert; lia].
    simpl in *. rewrite length_insert in Hlen. split; [done|]. split.
    + intros j Hj. rewrite Hout by lia. by rewrite list_lookup_insert_ne by lia.
    + intros k Hk. destruct (decide (k = a)) as [->|Hne].
      * exists score, df. split; [done|]. rewrite Hout by lia.
        by rewrite list_lookup_insert_eq by lia.
      * apply Hin. lia.
Qed.

Lemma default_weights_Ok name proj sw (w w' : world) (x : list npfloat) :
  default_weights name proj sw w = (Ok x, w') →
  w' = w ∧ map astype_int x = weights_used (proj (self w)) sw.
Proof.
  unfold weights_used. destruct sw as [x'|]; simpl.
  - by intros [= <- <-].
  - unfold default_weights. intros (a & w1 & Ha & H)%M_bind_Ok.
    unfold getattr in Ha. destruct (proj (self w)) as [a'|]; [|done].
    injection Ha as <- <-.
    apply M_bind_Ok in H as (n & w2 & Hn & H). unfold lift in Hn.
    injection Hn as Hn <-. injection H as <- <-. split; [done|].
    simpl. unfold shape0, index in Hn.
    destruct (shape a') as [|n' sh]; simpl in *; [done|]. by injection Hn as <-.
Qed.

Lemma setattr_run (set : DRTester → DRTester) (w w' : world) (u : unit) :
  setattr set w = (Ok u, w') →
  w' = {| self := set (self w); np_random := np_random w |}.
Proof. by intros [= _ <-]. Qed.

Lemma getattr_Ok {A} name (proj : DRTester → option A) (w w' : world) (a : A) :
  getattr name proj w = (Ok a, w') → w' = w ∧ proj (self w) = Some a.
Proof.
  unfold getattr. destruct (proj (self w)); simpl; [|done].
  by intros [= <- <-].
Qed.

Lemma lift_Ok {A} (r : result A) (w w' : world) (a : A) :
  lift r w = (Ok a, w') → w' = w ∧ r = Ok a.
Proof. unfold lift. by intros [= <- <-]. Qed.

Lemma assert_weights_Ok (l : list Z) (w w' : world) (u : unit) :
  assert_weights l w = (Ok u, w') → w' = w.
Proof. rewrite assert_weights_run. destruct (np_all _); by intros [= <-]. Qed.

(** What a successful [evaluate_cal] has done. *)
Lemma evaluate_cal_Ok Xval Xtrain n_groups swv swt (w w' : world) r :
  evaluate_cal Xval Xtrain n_groups swv swt w = (Ok r, w') →
  ∃ w1 : world,
    ensure_cate_preds_both Xval Xtrain w = (Ok tt, w1) ∧
    w' = {| self := set_cal_res r (self w1); np_random := np_random w1 |} ∧
    treatments (self w1) = Some (cal_treatments r) ∧
    n_treat (self w1) = Some (Z.of_nat (length (cal_r_squared r))) ∧
    ∀ k, (k < length (cal_r_squared r))%nat →
      ∃ score df,
        cal_arm (self w1) k n_groups
          (weights_used (cate_preds_val_ (self w1)) swv)
          (weights_used (cate_preds_train_ (self w1)) swt) = Ok (score, df) ∧
        cal_r_squared r !! k = Some score.
Proof.
  unfold evaluate_cal. rewrite bind_hasattr. destruct (negb _); [done|].
  intros ([] & w1 & Hens & H)%M_bind_Ok. exists w1. split; [done|].
  apply M_bind_Ok in H as (wt & w2 & Hwt & H).
  apply default_weights_Ok in Hwt as [-> Hwt].
  apply M_bind_Ok in H as (wv & w2 & Hwv & H).
  apply default_weights_Ok in Hwv as [-> Hwv].
  cbv zeta in H. rewrite Hwv, Hwt in H.
  apply M_bind_Ok in H as (? & w2 & ->%assert_weights_Ok & H).
  apply M_bind_Ok in H as (? & w2 & ->%assert_weights_Ok & H).
  apply M_bind_Ok in H as (nt & w2 & [-> Hnt]%getattr_Ok & H).
  apply M_bind_Ok in H as (zeros & w2 & [-> Hz]%lift_Ok & H).
  apply M_bind_Ok in H as (s & w2 & Hs & H).
  injection Hs as <- <-.
  apply M_bind_Ok in H as (out & w2 & [-> Hout]%lift_Ok & H).
  apply M_bind_Ok in H as (ts & w2 & [-> Hts]%getattr_Ok & H).
  apply M_bind_Ok in H as (? & w2 & ->%setattr_run & H).
  injection H as <- <-. simpl.
  unfold np_zeros in Hz. destruct (Z.ltb_spec nt 0); [done|].
  injection Hz as <-. unfold range in Hout.
  apply cal_arms_loop in Hout as (Hlen & _ & Hin);
    [|simpl; rewrite length_replicate; lia].
  simpl in Hlen. rewrite length_replicate in Hlen.
  split; [done|]. split; [done|]. split; [by rewrite Hnt, Hlen, Z2Nat.id|].
  intros k Hk. apply Hin. lia.
Qed.

(** [fit_nuisance] leaves the column averages of the DR outcomes of the
    validation sample, weighted by its validation weights, in [ate_val]. *)
Lemma fit_nuisance_ate Xval Dval yval Xtrain Dtrain ytrain fwv fwt
    (w0 w1 : world) :
  fit_nuisance Xval Dval yval Xtrain Dtrain ytrain fwv fwt w0 = (Ok tt, w1) →
  ∃ dr ate, dr_val_ (self w1) = Some dr ∧ ate_val (self w1) = Some ate ∧
    np_average_axis0 dr fwv = Ok ate.
Proof.
  unfold fit_nuisance.
  intros (? & wa & _ & H)%M_bind_Ok.
  apply M_bind_Ok in H as (? & wb & _ & H).
  apply M_bind_Ok in H as (? & wc & _ & H).
  apply M_bind_Ok in H as (? & wd & _ & H).
  apply M_bind_Ok in H as (? & we & _ & H).
  apply M_bind_Ok in H as (dr & wf & [-> Hdr]%getattr_Ok & H).
  apply M_bind_Ok in H as (ate & wg & [-> Hate]%lift_Ok & H).
  apply setattr_run in H as ->. exists dr, ate. by simpl.
Qed.

Lemma np_average_axis0_lookup (a : ndarray) (w : option (list npfloat))
    (ate : list npfloat) (k : nat) (x : npfloat) :
  np_average_axis0 a w = Ok ate → ate !! k = Some x →
  np_average (col_of (Some a) k) w = Ok x.
Proof.
  destruct a as [| |c rows]; simpl; try done.
  unfold np_average, column. rewrite !length_map.
  destruct w as [w|].
  - destruct (negb _); [done|]. destruct (feqb _ _); [done|].
    intros [= <-]. rewrite list_lookup_fmap.
    destruct (seq 0 c !! k) as [j|] eqn:Hj; [|done].
    apply lookup_seq in Hj as [-> _]. simpl. by intros [= <-].
  - intros [= <-]. rewrite list_lookup_fmap.
    destruct (seq 0 c !! k) as [j|] eqn:Hj; [|done].
    apply lookup_seq in Hj as [-> _]. simpl. by intros [= <-].
Qed.

(** C1.  After [fit_nuisance], every calibration score that [evaluate_cal]
    reports is [1 - Cal_G / Cal_O]: over the bins of the arm, [Cal_G] sums
    the mass of the bin times the distance between its mean DR outcome and
    its mean CATE prediction, and [Cal_O] the mass of the bin times the
    distance between its mean DR outcome and the ATE of the arm, the average
    of the arm's DR outcomes on the validation sample under the weights
    given to [fit_nuisance]. *)
Theorem calibration_score Xval Dval yval Xtrain Dtrain ytrain fwv fwt
    aXval aXtrain n_groups swv swt (w0 w1 w2 : world)
    (r : CalibrationEvaluationResults) (k : nat) :
  fit_nuisance Xval Dval yval Xtrain Dtrain ytrain fwv fwt w0 = (Ok tt, w1) →
  evaluate_cal aXval aXtrain n_groups swv swt w1 = (Ok r, w2) →
  (k < length (cal_r_squared r))%nat →
  let s := self w2 in
  let wv := weights_used (cate_preds_val_ s) swv in
  let wt := weights_used (cate_preds_train_ s) swt in
  let cuts :=
    weighted_stat (col_of (cate_preds_train_ s) k) (levels n_groups) wt in
  let preds := col_of (cate_preds_val_ s) k in
  let dr := col_of (dr_val_ s) k in
  (∃ i, (i < Z.to_nat n_groups)%nat ∧
        np_any (members n_groups cuts preds i) = true) →
  ∃ ate_k : npfloat,
    np_average dr fwv = Ok ate_k ∧
    cal_r_squared r !! k =
      Some (fsub f1 (fdiv (Cal_G n_groups cuts preds dr wv)
                          (Cal_O n_groups cuts preds dr wv ate_k))).
Proof.
  intros Hfit Hcal Hk s wv wt cuts preds dr _.
  subst s wv wt cuts preds dr.
  apply fit_nuisance_ate in Hfit as (drm & ate & Hdr & Hate & Havg).
  apply evaluate_cal_Ok in Hcal as (w1' & Hens & -> & _ & _ & Harm).
  destruct (Harm k Hk) as (score & df & Hscore & ->). simpl.
  pose proof (stable_ensure_cate_preds_both
    (λ s, dr_val_ s = Some drm ∧ ate_val s = Some ate) aXval aXtrain) as Hst.
  unfold stable in Hst.
  specialize (Hst ltac:(by intros ? ? [? ?]) ltac:(by intros ? ? [? ?])
                w1 (conj Hdr Hate)).
  rewrite Hens in Hst. simpl in Hst. destruct Hst as [Hdr1 Hate1].
  apply cal_arm_Ok in Hscore as (ate' & ate_k & Hate' & Hk' & ->).
  rewrite Hate1 in Hate'. injection Hate' as <-.
  exists ate_k. split; [|done].
  rewrite Hdr1. by apply (np_average_axis0_lookup drm fwv ate).
Qed.

(** C3, as the code has it.  Bin [i] takes the validation units whose
    prediction lies in [cuts[i], cuts[i+1]), the last bin those in
    [cuts[i], cuts[i+1]].  When the cut points found on the training sample
    are non-decreasing, a validation unit whose prediction lies between the
    first and the last cut point is in exactly one bin, and any other
    validation unit is in no bin. *)
Theorem bins_cover_the_training_range s k n_groups wt :
  let cuts :=
    weighted_stat (col_of (cate_preds_train_ s) k) (levels n_groups) wt in
  let preds := col_of (cate_preds_val_ s) k in
  let n := Z.to_nat n_groups in
  1 ≤ n_groups →
  (∀ i, (i < n)%nat → fle (cut_at cuts i) (cut_at cuts (S i)) = true) →
  (∀ i, (i < n)%nat →
     bin_mask n_groups cuts preds i = Ok (members n_groups cuts preds i)) ∧
  ∀ j x, preds !! j = Some x →
    (∀ i, members n_groups cuts preds i !! j = Some (in_bin n_groups cuts i x)) ∧
    if fle (cut_at cuts 0) x && fle x (cut_at cuts n) then
      ∃ i, (i < n)%nat ∧ in_bin n_groups cuts i x = true ∧
           ∀ i', (i' < n)%nat → in_bin n_groups cuts i' x = true → i' = i
    else ∀ i, (i < n)%nat → in_bin n_groups cuts i x = false.
Proof.
  intros cuts preds n Hn Hsorted. split.
  - intros i Hi. by apply (bin_mask_members n_groups cuts n).
  - intros j x Hx. split.
    + intros i. unfold members. by rewrite list_lookup_fmap, Hx.
    + destruct (fle (cut_at cuts 0) x && fle x (cut_at cuts n)) eqn:Hin.
      * apply andb_true_iff in Hin as [H0 H1].
        destruct (in_bin_exists n_groups cuts n eq_refl Hsorted x)
          as (i & Hi & Hbin); [lia|done|done|].
        exists i. split; [done|]. split; [done|]. intros i' Hi' Hbin'.
        by apply (in_bin_unique n_groups cuts n eq_refl Hsorted i' i x).
      * intros i Hi. destruct (in_bin n_groups cuts i x) eqn:Hbin; [|done].
        apply (in_bin_within n_groups cuts n eq_refl Hsorted) in Hbin
          as [H0 H1]; [|done].
        by rewrite H0, H1 in Hin.
Qed.

(** ** Shapes *)

(** The CATE predictions of a sample that does not consist of a single row
    form a matrix with one row per unit and one column per arm. *)
Lemma cate_preds_shape (X : list row) (ts : list Z) (a : ndarray) :
  (∀ t0 t1, length (cate_effect X t0 t1) = length X) →
  cate_preds X ts = Ok a → length X ≠ 1%nat →
  shape a = [length X; (length ts - 1)%nat].
Proof.
  intros Heff H Hn. unfold cate_preds in H.
  apply result_bind_Ok in H as (base & _ & H).
  apply result_bind_Ok in H as (stacked & Hst & H). injection H as <-.
  unfold np_stack in Hst.
  destruct (map _ (drop 1 ts)) as [|v vals] eqn:Hvals; [done|].
  destruct (forallb _ vals); [|done]. injection Hst as <-.
  assert (length v = length X) as Hv.
  { destruct (drop 1 ts) as [|t ts']; [done|]. injection Hvals as <- _.
    apply Heff. }
  assert (length (v :: vals) = (length ts - 1)%nat) as Hm.
  { by rewrite <- Hvals, length_map, length_drop. }
  unfold np_T. rewrite Hv, Hm.
  set (rows := map (λ j, column j (v :: vals)) (seq 0 (length X))).
  assert (length rows = length X) as Hrows
    by (unfold rows; by rewrite length_map, length_seq).
  destruct rows as [|r [|r' rows']] eqn:Erows; simpl in Hrows.
  - rewrite <- Hrows. by destruct (length ts - 1)%nat as [|[|m]].
  - by rewrite <- Hrows in Hn.
  - rewrite <- Hrows.
    destruct (length ts - 1)%nat as [|[|m]]; simpl; try done.
    unfold column. by rewrite !length_map.
Qed.

(** The DR outcomes have one row per unit and one column per arm. *)
Lemma calculate_dr_outcomes_shape D y reg_preds prop_preds ts (a : ndarray) :
  calculate_dr_outcomes D y reg_preds prop_preds ts = Ok a →
  shape a = [length D; (length ts - 1)%nat] ∧ standardize_2d a = a.
Proof.
  unfold calculate_dr_outcomes. intros (rows & Hrows & H)%result_bind_Ok.
  injection H as <-. apply mapM_Ok_length in Hrows.
  simpl. by rewrite Hrows, length_seq.
Qed.

(** ** The uplift test *)

Lemma with_rng_Ok {A} (f : rng → A * rng) (w w' : world) (a : A) :
  with_rng f w = (Ok a, w') →
  self w' = self w ∧ f (np_random w) = (a, np_random w').
Proof.
  unfold with_rng. destruct (f (np_random w)) as [a' g'].
  by intros [= <- <-].
Qed.

Lemma uplift_arm_Ok pct metric nb wv wt (acc acc' : uplift_acc) (k : nat)
    (w w' : world) :
  uplift_arm pct metric nb wv wt acc k w = (Ok acc', w') →
  self w' = self w ∧
  ∃ q e curve,
    calc_uplift (np_random w)
      (col_of (cate_preds_train_ (self w)) k)
      (col_of (cate_preds_val_ (self w)) k)
      (col_of (dr_val_ (self w)) k) pct metric nb wt wv
      = ((q, e, curve), np_random w') ∧
    coeffs acc' = coeffs acc ++ [q] ∧ errs acc' = errs acc ++ [e].
Proof.
  unfold uplift_arm.
  intros (pt & w1 & [-> Hpt]%getattr_Ok & H)%M_bind_Ok.
  apply M_bind_Ok in H as (ct & w1 & [-> Hct]%lift_Ok & H).
  apply M_bind_Ok in H as (pv & w1 & [-> Hpv]%getattr_Ok & H).
  apply M_bind_Ok in H as (cv & w1 & [-> Hcv]%lift_Ok & H).
  apply M_bind_Ok in H as (dv & w1 & [-> Hdv]%getattr_Ok & H).
  apply M_bind_Ok in H as (cd & w1 & [-> Hcd]%lift_Ok & H).
  apply M_bind_Ok in H as ([[q e] curve] & w1 & [Hs Hcalc]%with_rng_Ok & H).
  apply M_bind_Ok in H as (ts & w2 & [-> Hts]%getattr_Ok & H).
  apply M_bind_Ok in H as (key & w2 & [-> Hkey]%lift_Ok & H).
  injection H as <- <-. split; [done|]. exists q, e, curve.
  apply (nd_col_Ok _ _ _ _ Hpt) in Hct. apply (nd_col_Ok _ _ _ _ Hpv) in Hcv.
  apply (nd_col_Ok _ _ _ _ Hdv) in Hcd. by subst.
Qed.

Lemma uplift_loop pct metric nb wv wt (m a : nat) (acc acc' : uplift_acc)
    (w w' : world) :
  forM (uplift_arm pct metric nb wv wt) acc (seq a m) w = (Ok acc', w') →
  self w' = self w ∧
  (∃ qs es, coeffs acc' = coeffs acc ++ qs ∧ errs acc' = errs acc ++ es ∧
     length qs = m ∧ length es = m ∧
     ∀ i q e, qs !! i = Some q → es !! i = Some e →
       ∃ g g' curve,
         calc_uplift g
           (col_of (cate_preds_train_ (self w)) (a + i))
           (col_of (cate_preds_val_ (self w)) (a + i))
           (col_of (dr_val_ (self w)) (a + i)) pct metric nb wt wv
           = ((q, e, curve), g')).
Proof.
  revert a acc w. induction m as [|m IH]; intros a acc w; simpl.
  - intros [= <- <-]. split; [done|]. exists [], [].
    rewrite !app_nil_r. repeat split; try done.
  - intros (acc1 & w1 & H1 & H)%M_bind_Ok.
    apply uplift_arm_Ok in H1 as (Hs1 & q & e & curve & Hcalc & Hq & He).
    apply IH in H as (Hs & qs & es & Hqs & Hes & Lq & Le & Hall).
    split; [congruence|]. exists (q :: qs), (e :: es).
    rewrite Hqs, Hes, Hq, He, <- !app_assoc. simpl.
    repeat split; try done; try lia.
    intros [|i] q' e'; simpl.
    + intros [= <-] [= <-]. rewrite Nat.add_0_r. eauto.
    + intros Hq' He'. rewrite Hs1 in Hall.
      replace (a + S i)%nat with (S a + i)%nat by lia. eauto.
Qed.

Lemma fabs_fdiv (q e : npfloat) :
  fle f0 e = true → feq (fabs (fdiv q e)) (fdiv (fabs q) e).
Proof.
  destruct q as [a| | |], e as [b| | |]; simpl; try done.
  - rewrite Qle_bool_iff. intros Hb.
    destruct (Qeq_bool b 0) eqn:Eb.
    + destruct (Qcompare_spec a 0) as [Ha|Ha|Ha]; simpl.
      * assert (Qabs a == 0)%Q as Ha' by (rewrite Ha; reflexivity).
        apply Qeq_alt in Ha'. by rewrite Ha'.
      * assert (0 < Qabs a)%Q as Ha' by (rewrite Qabs_neg by lra; lra).
        by rewrite (proj1 (Qgt_alt _ _) Ha').
      * assert (0 < Qabs a)%Q as Ha' by (rewrite Qabs_pos by lra; lra).
        by rewrite (proj1 (Qgt_alt _ _) Ha').
    + assert (0 < b)%Q as Hb'.
      { apply Qeq_bool_neq in Eb. lra. }
      assert (Qabs (a / b) == Qabs a / b)%Q as Heq; [|exact Heq].
      unfold Qdiv. rewrite Qabs_Qmult, (Qabs_pos (/ b)); [reflexivity|].
      by apply Qlt_le_weak, Qinv_lt_0_compat.
  - rewrite Qle_bool_iff. intros Hb.
    destruct (Qcompare_spec b 0) as [Hb'|Hb'|Hb']; try done. lra.
  - rewrite Qle_bool_iff. intros Hb.
    destruct (Qcompare_spec b 0) as [Hb'|Hb'|Hb']; try done. lra.
Qed.

(** C8.  For every arm of a successful [evaluate_uplift], the coefficient
    and the standard error that are reported are those that [calc_uplift]
    returned for the arm, and the p-value that is reported is twice the
    normal survival function at the absolute value of the coefficient
    divided by the standard error.  For a standard error that is not
    negative this is the absolute value of the coefficient, divided by the
    standard error. *)
Theorem uplift_pvalues Xval Xtrain pct metric nb swv swt (w w' : world)
    (r : UpliftEvaluationResults) :
  evaluate_uplift Xval Xtrain pct metric nb swv swt w = (Ok r, w') →
  let s := self w' in
  let wv := weights_used (cate_preds_val_ s) swv in
  let wt := weights_used (cate_preds_train_ s) swt in
  (∃ nt, n_treat s = Some nt ∧
         length (uplift_params r) = Z.to_nat nt ∧
         length (uplift_errs r) = Z.to_nat nt ∧
         length (uplift_pvals r) = Z.to_nat nt) ∧
  (∀ k q e, uplift_params r !! k = Some q → uplift_errs r !! k = Some e →
     (∃ g g' curve,
        calc_uplift g (col_of (cate_preds_train_ s) k)
          (col_of (cate_preds_val_ s) k) (col_of (dr_val_ s) k)
          pct metric nb wt wv = ((q, e, curve), g')) ∧
     uplift_pvals r !! k = Some (fmul (Fin 2) (norm_sf (fabs (fdiv q e))))) ∧
  (∀ q e, fle f0 e = true → feq (fabs (fdiv q e)) (fdiv (fabs q) e)).
Proof.
  intros H s wv wt. subst s wv wt. unfold evaluate_uplift in H.
  rewrite bind_hasattr in H. destruct (negb _); [done|].
  apply M_bind_Ok in H as ([] & w1 & Hens & H).
  apply M_bind_Ok in H as (wv & w2 & Hwv & H).
  apply default_weights_Ok in Hwv as [-> Hwv].
  apply M_bind_Ok in H as (wt & w2 & Hwt & H).
  apply default_weights_Ok in Hwt as [-> Hwt].
  cbv zeta in H. rewrite Hwv, Hwt in H.
  apply M_bind_Ok in H as (? & w2 & ->%assert_weights_Ok & H).
  apply M_bind_Ok in H as (? & w2 & ->%assert_weights_Ok & H).
  apply M_bind_Ok in H as (nt & w2 & [-> Hnt]%getattr_Ok & H).
  apply M_bind_Ok in H as (acc & w2 & Hloop & H).
  apply M_bind_Ok in H as (ts & w3 & [-> Hts]%getattr_Ok & H).
  apply M_bind_Ok in H as (? & w3 & ->%setattr_run & H).
  injection H as <- <-. simpl.
  unfold range in Hloop.
  apply uplift_loop in Hloop
    as (Hs & qs & es & Hqs & Hes & Lq & Le & Hall).
  simpl in Hqs, Hes. subst qs es. rewrite Hs.
  split; [|split; [|apply fabs_fdiv]].
  - exists nt. split; [done|]. split; [done|]. split; [done|].
    rewrite length_zip_with. lia.
  - intros k q e Hq He. split.
    + destruct (Hall k q e Hq He) as (g & g' & curve & Hcalc). eauto.
    + rewrite lookup_zip_with, Hq. simpl. by rewrite He.
Qed.

(** ** Running a test again *)

Lemma stable_default_weights P name proj sw :
  stable P (default_weights name proj sw).
Proof. intros w HP. by rewrite default_weights_world. Qed.

Lemma stable_assert_weights P l : stable P (assert_weights l).
Proof. intros w HP. rewrite assert_weights_run. by destruct (np_all _). Qed.

Lemma stable_uplift_arm P pct metric nb wv wt acc k :
  stable P (uplift_arm pct metric nb wv wt acc k).
Proof. unfold uplift_arm. stable_auto. Qed.

Ltac stable_more :=
  repeat first
    [ apply stable_default_weights | apply stable_assert_weights
    | apply stable_uplift_arm | stable_step ].

Lemma get_cate_preds_Ok Xval Xtrain (w w1 : world) (u : unit) :
  get_cate_preds Xval Xtrain w = (Ok u, w1) →
  is_Some (cate_preds_val_ (self w1)) ∧
  (is_Some Xtrain → is_Some (cate_preds_train_ (self w1))).
Proof.
  unfold get_cate_preds.
  intros (ts & w2 & [-> Hts]%getattr_Ok & H)%M_bind_Ok.
  apply M_bind_Ok in H as (pv & w2 & [-> Hpv]%lift_Ok & H).
  apply M_bind_Ok in H as (? & w2 & ->%setattr_run & H).
  destruct Xtrain as [Xt|].
  - apply M_bind_Ok in H as (ts' & w3 & [-> Hts']%getattr_Ok & H).
    apply M_bind_Ok in H as (pt & w3 & [-> Hpt]%lift_Ok & H).
    apply setattr_run in H as ->. simpl. eauto.
  - injection H as <- <-. simpl. split; [eauto|]. by intros [? ?].
Qed.

Lemma ensure_cate_preds_both_Ok Xval Xtrain (w w1 : world) (u : unit) :
  ensure_cate_preds_both Xval Xtrain w = (Ok u, w1) →
  is_Some (cate_preds_val_ (self w1)) ∧ is_Some (cate_preds_train_ (self w1)).
Proof.
  unfold ensure_cate_preds_both. rewrite !bind_hasattr.
  destruct (decide (is_Some (cate_preds_train_ (self w)))) as [Ht|Ht];
    destruct (decide (is_Some (cate_preds_val_ (self w)))) as [Hv|Hv];
    rewrite ?(bool_decide_true _ Ht), ?(bool_decide_true _ Hv),
      ?(bool_decide_false _ Ht), ?(bool_decide_false _ Hv); cbn [negb orb].
  1: by intros [= _ <-].
  all: destruct Xval as [Xv|], Xtrain as [Xt|]; try done;
    intros [? H]%get_cate_preds_Ok; split; [done|apply H; eauto].
Qed.

Lemma ensure_cate_preds_both_cached Xval Xtrain (w : world) :
  is_Some (cate_preds_val_ (self w)) → is_Some (cate_preds_train_ (self w)) →
  ensure_cate_preds_both Xval Xtrain w = (Ok tt, w).
Proof.
  intros Hv Ht. unfold ensure_cate_preds_both. rewrite !bind_hasattr.
  by rewrite (bool_decide_true _ Ht), (bool_decide_true _ Hv).
Qed.

(** *** Cached results come with cached predictions *)

Lemma results_have_preds_cate_val v s :
  results_have_preds s → results_have_preds (set_cate_preds_val_ v s).
Proof.
  intros (H1 & H2 & H3). unfold results_have_preds; simpl.
  split; [by eauto|]. split; intros H.
  - split; [by eauto|]. by apply H2.
  - split; [by eauto|]. by apply H3.
Qed.

Lemma results_have_preds_cate_train v s :
  results_have_preds s → results_have_preds (set_cate_preds_train_ v s).
Proof.
  intros (H1 & H2 & H3). unfold results_have_preds; simpl.
  split; [done|]. split; intros H.
  - split; [by apply H2|by eauto].
  - split; [by apply H3|by eauto].
Qed.

Lemma stable_results_get_cate_preds Xval Xtrain :
  stable results_have_preds (get_cate_preds Xval Xtrain).
Proof.
  apply stable_get_cate_preds; intros;
    [by apply results_have_preds_cate_val|by apply results_have_preds_cate_train].
Qed.

Lemma stable_results_ensure Xval Xtrain :
  stable results_have_preds (ensure_cate_preds_both Xval Xtrain).
Proof.
  apply stable_ensure_cate_preds_both; intros;
    [by apply results_have_preds_cate_val|by apply results_have_preds_cate_train].
Qed.

Lemma stable_results_fit_nuisance Xval Dval yval Xtrain Dtrain ytrain swv swt :
  stable results_have_preds
    (fit_nuisance Xval Dval yval Xtrain Dtrain ytrain swv swt).
Proof.
  unfold fit_nuisance.
  do 4 (apply stable_bind; [stable_auto|intros ?]).
  apply stable_bind; [by apply stable_fit_nuisance_dr|intros ?]. stable_auto.
Qed.

(** The state after [m ≫= f], by the outcome of [m]. *)
Lemma bind_cases {A B} (Q : DRTester → Prop) (m : M A) (f : A → M B)
    (w : world) :
  (∀ e w1, m w = (Raise e, w1) → Q (self w1)) →
  (∀ a w1, m w = (Ok a, w1) → Q (self (f a w1).2)) →
  Q (self ((m ≫= f) w).2).
Proof.
  intros Hr Ho. rewrite M_bind_run.
  destruct (m w) as [[a|e] w1]; [by apply Ho|by apply (Hr e)].
Qed.

Ltac by_stable P :=
  match goal with
  | |- _ (self (?m ?w).2) =>
      let H := fresh "Hst" in
      assert (stable P m) as H; [|refine (_ (H w _)); [try tauto|try tauto]]
  end.

(** The CATE step of [evaluate_blp]. *)
Lemma blp_cate_step Xval Xtrain (w w1 : world) (r : result unit) :
  (if negb (bool_decide (is_Some (cate_preds_val_ (self w)))) then
     match Xval with
     | None =>
         raise (Exception
           "CATE predictions not yet calculated - must provide Xval")
     | Some Xval => get_cate_preds Xval Xtrain
     end
   else mret tt) w = (r, w1) →
  (results_have_preds (self w) → results_have_preds (self w1)) ∧
  (is_Ok r = true → is_Some (cate_preds_val_ (self w1))) ∧
  (is_Some (cate_preds_val_ (self w)) → w1 = w).
Proof.
  destruct (decide (is_Some (cate_preds_val_ (self w)))) as [Hv|Hv].
  - rewrite (bool_decide_true _ Hv). cbn [negb]. by intros [= <- <-].
  - rewrite (bool_decide_false _ Hv). cbn [negb]. destruct Xval as [Xv|].
    + intros Hg. split; [|split; [|done]].
      * intros Hinv.
        pose proof (stable_results_get_cate_preds Xv Xtrain w Hinv) as H.
        by rewrite Hg in H.
      * destruct r as [[]|]; [|done]. intros _.
        by apply get_cate_preds_Ok in Hg as [? _].
    + by intros [= <- <-].
Qed.

Lemma stable_results_evaluate_blp Xval Xtrain swv :
  stable results_have_preds (evaluate_blp Xval Xtrain swv).
Proof.
  intros w Hinv. unfold evaluate_blp. rewrite bind_hasattr.
  destruct (negb _); [done|]. rewrite bind_hasattr.
  apply bind_cases.
  - intros e w1 Hstep. by apply blp_cate_step in Hstep as (H & _ & _); auto.
  - intros [] w1 Hstep. apply blp_cate_step in Hstep as (H1 & H2 & _).
    specialize (H1 Hinv). specialize (H2 eq_refl).
    by_stable (λ s, results_have_preds s ∧ is_Some (cate_preds_val_ s)).
    stable_more. destruct H as [(I1 & I2 & I3) Hv].
    split; [|done]. split; [done|]. by split.
Qed.

Lemma stable_results_evaluate_cal Xval Xtrain n_groups swv swt :
  stable results_have_preds (evaluate_cal Xval Xtrain n_groups swv swt).
Proof.
  intros w Hinv. unfold evaluate_cal. rewrite bind_hasattr.
  destruct (negb _); [done|].
  apply bind_cases.
  - intros e w1 Hstep.
    pose proof (stable_results_ensure Xval Xtrain w Hinv) as H.
    by rewrite Hstep in H.
  - intros [] w1 Hstep.
    pose proof (stable_results_ensure Xval Xtrain w Hinv) as H1.
    rewrite Hstep in H1. apply ensure_cate_preds_both_Ok in Hstep as [Hv Ht].
    by_stable (λ s, results_have_preds s ∧ is_Some (cate_preds_val_ s) ∧
                    is_Some (cate_preds_train_ s)).
    stable_more. destruct H as [(I1 & I2 & I3) Hvt].
    split; [|done]. split; [done|]. by split.
Qed.

Lemma stable_results_evaluate_uplift Xval Xtrain pct metric nb swv swt :
  stable results_have_preds (evaluate_uplift Xval Xtrain pct metric nb swv swt).
Proof.
  intros w Hinv. unfold evaluate_uplift. rewrite bind_hasattr.
  destruct (negb _); [done|].
  apply bind_cases.
  - intros e w1 Hstep.
    pose proof (stable_results_ensure Xval Xtrain w Hinv) as H.
    by rewrite Hstep in H.
  - intros [] w1 Hstep.
    pose proof (stable_results_ensure Xval Xtrain w Hinv) as H1.
    rewrite Hstep in H1. apply ensure_cate_preds_both_Ok in Hstep as [Hv Ht].
    by_stable (λ s, results_have_preds s ∧ is_Some (cate_preds_val_ s) ∧
                    is_Some (cate_preds_train_ s)).
    stable_more. destruct H as [(I1 & I2 & I3) Hvt].
    split; [|done]. split; [done|]. by split.
Qed.

Lemma stable_results_evaluate_all Xval Xtrain n_groups nb swv swt :
  stable results_have_preds (evaluate_all Xval Xtrain n_groups nb swv swt).
Proof.
  unfold evaluate_all.
  repeat first
    [ apply stable_results_ensure | apply stable_results_evaluate_blp
    | apply stable_results_evaluate_cal | apply stable_results_evaluate_uplift
    | apply stable_default_weights | apply stable_assert_weights
    | stable_step ].
Qed.

Lemma reachable_results_have_preds (w : world) :
  reachable w → results_have_preds (self w).
Proof.
  induction 1 as [g|c w Hw IH].
  - split; [|split]; by intros [? ?].
  - destruct c; cbn [run].
    + by apply (stable_setattr results_have_preds (set_cv_splitter check_cv)).
    + by apply (stable_get_cv_splits results_have_preds).
    + by apply stable_results_fit_nuisance.
    + by apply (stable_fit_nuisance_train results_have_preds).
    + by apply (stable_fit_nuisance_cv results_have_preds).
    + by apply stable_results_get_cate_preds.
    + by apply stable_results_evaluate_cal.
    + by apply stable_results_evaluate_blp.
    + by apply stable_results_evaluate_uplift.
    + by apply stable_results_evaluate_all.
Qed.

(** *** What a test assigns *)

Lemma sets_only_pure {A V} (set : V → DRTester → DRTester) (m : M A) :
  (∀ s0, stable (eq s0) m) → sets_only set m.
Proof. intros H w. left. symmetry. by apply (H (self w) w). Qed.

Lemma sets_only_bind {A B V} (set : V → DRTester → DRTester) (m : M A)
    (f : A → M B) :
  (∀ s0, stable (eq s0) m) → (∀ a, sets_only set (f a)) →
  sets_only set (m ≫= f).
Proof.
  intros Hm Hf w. rewrite M_bind_run.
  pose proof (Hm (self w) w eq_refl) as Hs.
  destruct (m w) as [[a|e] w1]; simpl in *; [|by left].
  rewrite Hs. apply Hf.
Qed.

Lemma sets_only_setattr {A V} (set : V → DRTester → DRTester) (v : V) (a : A) :
  sets_only set (setattr (set v) ;; mret a).
Proof. intros w. right. by exists v. Qed.

Ltac sets_only_auto :=
  repeat first
    [ apply sets_only_setattr
    | apply sets_only_bind; [intros ?; stable_more|intros ?]
    | apply sets_only_pure; intros ?; stable_more ].

Lemma evaluate_blp_again Xval Xtrain swv (w : world) :
  is_Some (cate_preds_val_ (self w)) →
  let w' := (evaluate_blp Xval Xtrain swv w).2 in
  self w' = self w ∨ ∃ v, self w' = set_blp_res v (self w).
Proof.
  intros Hv w'. subst w'. unfold evaluate_blp. rewrite bind_hasattr.
  destruct (negb _); [by left|]. rewrite bind_hasattr.
  rewrite (bool_decide_true _ Hv). cbn [negb]. rewrite bind_ret.
  match goal with |- context [(?m w).2] =>
    assert (sets_only set_blp_res m) as H; [|apply (H w)] end.
  sets_only_auto.
Qed.

Lemma evaluate_cal_again Xval Xtrain n_groups swv swt (w : world) :
  is_Some (cate_preds_val_ (self w)) → is_Some (cate_preds_train_ (self w)) →
  let w' := (evaluate_cal Xval Xtrain n_groups swv swt w).2 in
  self w' = self w ∨ ∃ v, self w' = set_cal_res v (self w).
Proof.
  intros Hv Ht w'. subst w'. unfold evaluate_cal. rewrite bind_hasattr.
  destruct (negb _); [by left|].
  rewrite (bind_run_Ok _ _ _ _ _ (ensure_cate_preds_both_cached _ _ _ Hv Ht)).
  match goal with |- context [(?m w).2] =>
    assert (sets_only set_cal_res m) as H; [|apply (H w)] end.
  sets_only_auto.
Qed.

Lemma evaluate_uplift_again Xval Xtrain pct metric nb swv swt (w : world) :
  is_Some (cate_preds_val_ (self w)) → is_Some (cate_preds_train_ (self w)) →
  let w' := (evaluate_uplift Xval Xtrain pct metric nb swv swt w).2 in
  self w' = self w ∨ ∃ v, self w' = set_uplift_res v (self w).
Proof.
  intros Hv Ht w'. subst w'. unfold evaluate_uplift. rewrite bind_hasattr.
  destruct (negb _); [by left|].
  rewrite (bind_run_Ok _ _ _ _ _ (ensure_cate_preds_both_cached _ _ _ Hv Ht)).
  match goal with |- context [(?m w).2] =>
    assert (sets_only set_uplift_res m) as H; [|apply (H w)] end.
  sets_only_auto.
Qed.

(** C9.  On an object that holds the result of a test, as any object does
    on which the test has run, running the test again assigns at most the
    result of this test: the attributes after the call are those before it,
    or those before it with this result replaced.  The fitted state, the
    cached CATE predictions and the results of the other tests are
    therefore what they were. *)
Theorem rerun_overwrites_own_result Xval Xtrain n_groups pct metric nb swv swt
    (w : world) :
  reachable w →
  (is_Some (blp_res (self w)) →
   let s' := self (evaluate_blp Xval Xtrain swv w).2 in
   (s' = self w ∨ ∃ v, s' = set_blp_res v (self w)) ∧
   fitted_state s' = fitted_state (self w) ∧
   cal_res s' = cal_res (self w) ∧ uplift_res s' = uplift_res (self w) ∧
   res s' = res (self w)) ∧
  (is_Some (cal_res (self w)) →
   let s' := self (evaluate_cal Xval Xtrain n_groups swv swt w).2 in
   (s' = self w ∨ ∃ v, s' = set_cal_res v (self w)) ∧
   fitted_state s' = fitted_state (self w) ∧
   blp_res s' = blp_res (self w) ∧ uplift_res s' = uplift_res (self w) ∧
   res s' = res (self w)) ∧
  (is_Some (uplift_res (self w)) →
   let s' := self (evaluate_uplift Xval Xtrain pct metric nb swv swt w).2 in
   (s' = self w ∨ ∃ v, s' = set_uplift_res v (self w)) ∧
   fitted_state s' = fitted_state (self w) ∧
   blp_res s' = blp_res (self w) ∧ cal_res s' = cal_res (self w) ∧
   res s' = res (self w)).
Proof.
  intros (Hblp & Hcal & Hup)%reachable_results_have_preds.
  split; [|split].
  - intros Hv%Hblp s'.
    pose proof (evaluate_blp_again Xval Xtrain swv w Hv) as H.
    subst s'. cbv zeta in H. split; [done|]. by destruct H as [->|[v ->]].
  - intros [Hv Ht]%Hcal s'.
    pose proof (evaluate_cal_again Xval Xtrain n_groups swv swt w Hv Ht) as H.
    subst s'. cbv zeta in H. split; [done|]. by destruct H as [->|[v ->]].
  - intros [Hv Ht]%Hup s'.
    pose proof
      (evaluate_uplift_again Xval Xtrain pct metric nb swv swt w Hv Ht) as H.
    subst s'. cbv zeta in H. split; [done|]. by destruct H as [->|[v ->]].
Qed.

(** * More properties of the methods *)

(** ** More on the monad of methods *)

Lemma M_bind_assoc {A B C} (m : M A) (f : A → M B) (g : B → M C) (w : world) :
  ((m ≫= f) ≫= g) w = (m ≫= (λ a, f a ≫= g)) w.
Proof.
  rewrite !M_bind_run. destruct (m w) as [[a|e] w1]; [|done].
  by rewrite M_bind_run.
Qed.

Lemma bind_ext_stable {A B} (P : DRTester → Prop) (m : M A) (f f' : A → M B)
    (w : world) :
  stable P m → P (self w) →
  (∀ a w', P (self w') → f a w' = f' a w') →
  (m ≫= f) w = (m ≫= f') w.
Proof.
  intros Hst HP Hf. rewrite !M_bind_run. specialize (Hst w HP).
  destruct (m w) as [[a|e] w1]; simpl in *; auto.
Qed.

Lemma bind_congr {A B} (P : DRTester → Prop) (m m' : M A) (f f' : A → M B)
    (w : world) :
  m w = m' w → stable P m' → P (self w) →
  (∀ a w', P (self w') → f a w' = f' a w') →
  (m ≫= f) w = (m' ≫= f') w.
Proof.
  intros Hm Hst HP Hf. rewrite !M_bind_run, Hm. specialize (Hst w HP).
  destruct (m' w) as [[a|e] w1]; simpl in *; auto.
Qed.

Ltac stable_full :=
  repeat first
    [ apply stable_get_cate_preds; intros ? ? ?
    | apply stable_ensure_cate_preds_both; intros ? ? ?
    | apply stable_get_cv_splits; intros ? ? ?
    | apply stable_fit_nuisance_cv; intros ? ? ?
    | apply stable_fit_nuisance_train; intros ? ? ?
    | apply stable_default_weights | apply stable_assert_weights
    | apply stable_uplift_arm | stable_step ].

(** ** Calls without features *)

Lemma ensure_cate_preds_both_missing Xval Xtrain (w : world) :
  Xval = None ∨ Xtrain = None →
  cate_preds_val_ (self w) = None ∨ cate_preds_train_ (self w) = None →
  ensure_cate_preds_both Xval Xtrain w = (Raise (Exception
     "CATE predictions not yet calculated - must provide both Xval, Xtrain"), w).
Proof.
  intros HX Hc. unfold ensure_cate_preds_both. rewrite !bind_hasattr.
  assert (negb (bool_decide (is_Some (cate_preds_train_ (self w)))) ||
          negb (bool_decide (is_Some (cate_preds_val_ (self w)))) = true) as ->.
  { destruct Hc as [->| ->].
    - rewrite (bool_decide_false (is_Some None)) by (by intros [? ?]).
      apply orb_true_r.
    - by rewrite (bool_decide_false (is_Some None)) by (by intros [? ?]). }
  by destruct HX as [->| ->]; [|destruct Xval].
Qed.

(** X1.  A test that has no cached CATE predictions of both samples and is
    not given the features of both raises the exception that asks for them,
    and leaves the object as it was; [evaluate_blp] needs the validation
    predictions only, and asks for [Xval]. *)
Theorem predictions_need_features Xval Xtrain n_groups pct metric nb swv swt
    (w : world) :
  Xval = None ∨ Xtrain = None →
  cate_preds_val_ (self w) = None ∨ cate_preds_train_ (self w) = None →
  let e := Exception
    "CATE predictions not yet calculated - must provide both Xval, Xtrain" in
  (is_Some (dr_train_ (self w)) →
   evaluate_cal Xval Xtrain n_groups swv swt w = (Raise e, w)) ∧
  (is_Some (dr_val_ (self w)) →
   evaluate_uplift Xval Xtrain pct metric nb swv swt w = (Raise e, w)) ∧
  evaluate_all Xval Xtrain n_groups nb swv swt w = (Raise e, w) ∧
  (is_Some (dr_val_ (self w)) → cate_preds_val_ (self w) = None →
   evaluate_blp None Xtrain swv w =
   (Raise (Exception
      "CATE predictions not yet calculated - must provide Xval"), w)).
Proof.
  intros HX Hc e.
  pose proof (ensure_cate_preds_both_missing Xval Xtrain w HX Hc) as Hens.
  split; [|split; [|split]].
  - intros Hdr. unfold evaluate_cal. rewrite bind_hasattr.
    rewrite (bool_decide_true _ Hdr). cbn [negb].
    by rewrite M_bind_run, Hens.
  - intros Hdr. unfold evaluate_uplift. rewrite bind_hasattr.
    rewrite (bool_decide_true _ Hdr). cbn [negb].
    by rewrite M_bind_run, Hens.
  - unfold evaluate_all. by rewrite M_bind_run, Hens.
  - intros Hdr Hv. unfold evaluate_blp. rewrite bind_hasattr.
    rewrite (bool_decide_true _ Hdr). cbn [negb]. rewrite bind_hasattr, Hv.
    by rewrite (bool_decide_false (is_Some None)) by (by intros [? ?]).
Qed.

(** ** [get_cate_preds] *)

(** X2.  [get_cate_preds] needs the treatments of [fit_nuisance], and at
    least one arm besides the control: on an object without [treatments] it
    raises an attribute error, with no treatment at all an index error
    ([treatments[0]]), with the control alone a value error ([np.stack] of
    an empty list).  Nothing is assigned. *)
Theorem get_cate_preds_needs_an_arm Xval Xtrain (w : world) :
  (treatments (self w) = None →
   get_cate_preds Xval Xtrain w = (Raise (AttributeError "treatments"), w)) ∧
  (treatments (self w) = Some [] →
   ∃ msg, get_cate_preds Xval Xtrain w = (Raise (IndexError msg), w)) ∧
  (∀ t, treatments (self w) = Some [t] →
   ∃ msg, get_cate_preds Xval Xtrain w = (Raise (ValueError msg), w)).
Proof.
  split; [|split].
  - intros H. unfold get_cate_preds. rewrite M_bind_run.
    unfold getattr. by rewrite H.
  - intros H. unfold get_cate_preds.
    rewrite (bind_getattr _ _ _ _ _ H), bind_lift. simpl. eauto.
  - intros t H. unfold get_cate_preds.
    rewrite (bind_getattr _ _ _ _ _ H), bind_lift. simpl. eauto.
Qed.

(** X3.  [evaluate_all] has no check of its own that the nuisances are
    fitted: on an object without [treatments] and without cached
    predictions, given the features of both samples, it raises the
    attribute error of [get_cate_preds], not the exception that asks for
    the nuisances.  Nothing is assigned. *)
Theorem evaluate_all_before_fit Xval Xtrain n_groups nb swv swt (w : world) :
  treatments (self w) = None →
  cate_preds_val_ (self w) = None ∨ cate_preds_train_ (self w) = None →
  evaluate_all (Some Xval) (Some Xtrain) n_groups nb swv swt w =
    (Raise (AttributeError "treatments"), w).
Proof.
  intros Hts Hc.
  unfold evaluate_all, ensure_cate_preds_both.
  rewrite (M_bind_run (_ ≫= _)), !bind_hasattr.
  assert (negb (bool_decide (is_Some (cate_preds_train_ (self w)))) ||
          negb (bool_decide (is_Some (cate_preds_val_ (self w)))) = true)
    as ->.
  { destruct Hc as [->| ->].
    - rewrite (bool_decide_false (is_Some None)) by (by intros [? ?]).
      apply orb_true_r.
    - by rewrite (bool_decide_false (is_Some None)) by (by intros [? ?]). }
  unfold get_cate_preds. rewrite M_bind_run. unfold getattr. by rewrite Hts.
Qed.

(** ** Cached predictions *)

Lemma stable_cached_evaluate_blp Xval Xtrain swv :
  stable (λ s, is_Some (cate_preds_val_ s) ∧ is_Some (cate_preds_train_ s))
    (evaluate_blp Xval Xtrain swv).
Proof. unfold evaluate_blp. stable_full; simpl; intuition eauto. Qed.

Lemma stable_cached_evaluate_cal Xval Xtrain n_groups swv swt :
  stable (λ s, is_Some (cate_preds_val_ s) ∧ is_Some (cate_preds_train_ s))
    (evaluate_cal Xval Xtrain n_groups swv swt).
Proof. unfold evaluate_cal. stable_full; simpl; intuition eauto. Qed.

Lemma stable_cached_evaluate_uplift Xval Xtrain pct metric nb swv swt :
  stable (λ s, is_Some (cate_preds_val_ s) ∧ is_Some (cate_preds_train_ s))
    (evaluate_uplift Xval Xtrain pct metric nb swv swt).
Proof. unfold evaluate_uplift. stable_full; simpl; intuition eauto. Qed.

Lemma evaluate_blp_cached Xval Xtrain Xval' Xtrain' swv (w : world) :
  is_Some (cate_preds_val_ (self w)) →
  evaluate_blp Xval Xtrain swv w = evaluate_blp Xval' Xtrain' swv w.
Proof.
  intros Hv. unfold evaluate_blp. rewrite !bind_hasattr.
  destruct (negb _); [done|]. rewrite !bind_hasattr.
  by rewrite (bool_decide_true _ Hv).
Qed.

Lemma evaluate_cal_cached Xval Xtrain Xval' Xtrain' n_groups swv swt (w : world) :
  is_Some (cate_preds_val_ (self w)) → is_Some (cate_preds_train_ (self w)) →
  evaluate_cal Xval Xtrain n_groups swv swt w =
  evaluate_cal Xval' Xtrain' n_groups swv swt w.
Proof.
  intros Hv Ht. unfold evaluate_cal. rewrite !bind_hasattr.
  destruct (negb _); [done|].
  by rewrite !(bind_run_Ok _ _ _ _ _ (ensure_cate_preds_both_cached _ _ _ Hv Ht)).
Qed.

Lemma evaluate_uplift_cached Xval Xtrain Xval' Xtrain' pct metric nb swv swt
    (w : world) :
  is_Some (cate_preds_val_ (self w)) → is_Some (cate_preds_train_ (self w)) →
  evaluate_uplift Xval Xtrain pct metric nb swv swt w =
  evaluate_uplift Xval' Xtrain' pct metric nb swv swt w.
Proof.
  intros Hv Ht. unfold evaluate_uplift. rewrite !bind_hasattr.
  destruct (negb _); [done|].
  by rewrite !(bind_run_Ok _ _ _ _ _ (ensure_cate_preds_both_cached _ _ _ Hv Ht)).
Qed.

(** X4.  Once the CATE predictions are cached, the features given to a test
    are not looked at: the test returns what it returns for any other
    features, or for none.  [evaluate_blp] looks at the validation
    predictions only. *)
Theorem cached_predictions_are_reused Xval Xtrain Xval' Xtrain' n_groups pct
    metric nb swv swt (w : world) :
  is_Some (cate_preds_val_ (self w)) →
  evaluate_blp Xval Xtrain swv w = evaluate_blp Xval' Xtrain' swv w ∧
  (is_Some (cate_preds_train_ (self w)) →
   evaluate_cal Xval Xtrain n_groups swv swt w =
     evaluate_cal Xval' Xtrain' n_groups swv swt w ∧
   evaluate_uplift Xval Xtrain pct metric nb swv swt w =
     evaluate_uplift Xval' Xtrain' pct metric nb swv swt w ∧
   evaluate_all Xval Xtrain n_groups nb swv swt w =
     evaluate_all Xval' Xtrain' n_groups nb swv swt w).
Proof.
  intros Hv. split; [by apply evaluate_blp_cached|]. intros Ht.
  split; [by apply evaluate_cal_cached|].
  split; [by apply evaluate_uplift_cached|].
  unfold evaluate_all.
  rewrite !(bind_run_Ok _ _ _ _ _ (ensure_cate_preds_both_cached _ _ _ Hv Ht)).
  set (P := λ s, is_Some (cate_preds_val_ s) ∧ is_Some (cate_preds_train_ s)).
  apply (bind_ext_stable P); [apply stable_default_weights|done|].
  intros wv w1 H1.
  apply (bind_ext_stable P); [apply stable_default_weights|done|].
  intros wt w2 H2. cbv zeta.
  apply (bind_ext_stable P); [apply stable_assert_weights|done|].
  intros ? w3 H3.
  apply (bind_ext_stable P); [apply stable_assert_weights|done|].
  intros ? w4 H4.
  apply (bind_congr P);
    [by apply evaluate_blp_cached, H4|apply stable_cached_evaluate_blp|done|].
  intros blp w5 H5.
  apply (bind_congr P);
    [by apply evaluate_cal_cached; apply H5
    |apply stable_cached_evaluate_cal|done|].
  intros cal w6 H6.
  apply (bind_congr P);
    [by apply evaluate_uplift_cached; apply H6
    |apply stable_cached_evaluate_uplift|done|].
  intros qini w7 H7.
  apply (bind_congr P);
    [by apply evaluate_uplift_cached; apply H7
    |apply stable_cached_evaluate_uplift|done|done].
Qed.

(** ** What [fit_nuisance] leaves alone *)

Lemma stable_fit_nuisance P Xval Dval yval Xtrain Dtrain ytrain swv swt :
  (∀ v s, P s → P (set_Dval v s)) →
  (∀ v s, P s → P (set_treatments v s)) →
  (∀ v s, P s → P (set_n_treat v s)) →
  (∀ v s, P s → P (set_fit_on_train v s)) →
  (∀ v s, P s → P (set_cv_splitter v s)) →
  (∀ v s, P s → P (set_model_propensity_ v s)) →
  (∀ v s, P s → P (set_dr_train_ v s)) →
  (∀ v s, P s → P (set_dr_val_ v s)) →
  (∀ v s, P s → P (set_ate_val v s)) →
  stable P (fit_nuisance Xval Dval yval Xtrain Dtrain ytrain swv swt).
Proof.
  intros. unfold fit_nuisance.
  do 4 (apply stable_bind; [stable_auto; eauto|intros ?]).
  apply stable_bind; [by apply stable_fit_nuisance_dr|intros ?].
  stable_auto; eauto.
Qed.

(** X5.  [fit_nuisance] does not touch the cached CATE predictions and the
    cached results of the tests: after fitting again they are what they
    were, whatever the new data.  Without the three training inputs it sets
    [fit_on_train] to [False] and leaves [dr_train_] and the fitted
    propensity model as they were. *)
Theorem fit_nuisance_keeps_predictions_and_results Xval Dval yval Xtrain Dtrain
    ytrain swv swt (w : world) :
  let s' := self (fit_nuisance Xval Dval yval Xtrain Dtrain ytrain swv swt w).2 in
  (cate_preds_val_ s' = cate_preds_val_ (self w) ∧
   cate_preds_train_ s' = cate_preds_train_ (self w) ∧
   blp_res s' = blp_res (self w) ∧ cal_res s' = cal_res (self w) ∧
   uplift_res s' = uplift_res (self w) ∧ res s' = res (self w)) ∧
  (Xtrain = None ∨ Dtrain = None ∨ ytrain = None →
   fit_on_train s' = Some false ∧
   dr_train_ s' = dr_train_ (self w) ∧
   model_propensity_ s' = model_propensity_ (self w)).
Proof.
  intros s'. subst s'. split.
  - set (P := λ s, cate_preds_val_ s = cate_preds_val_ (self w) ∧
                   cate_preds_train_ s = cate_preds_train_ (self w) ∧
                   blp_res s = blp_res (self w) ∧ cal_res s = cal_res (self w) ∧
                   uplift_res s = uplift_res (self w) ∧ res s = res (self w)).
    assert (stable P (fit_nuisance Xval Dval yval Xtrain Dtrain ytrain swv swt))
      as H by (apply stable_fit_nuisance; by intros).
    by apply (H w).
  - intros Hnone. unfold fit_nuisance. rewrite !bind_setattr.
    erewrite bind_getattr by reflexivity. rewrite bind_setattr.
    set (P := λ s, fit_on_train s = Some false ∧
                   dr_train_ s = dr_train_ (self w) ∧
                   model_propensity_ s = model_propensity_ (self w)).
    assert (∀ (k : M unit), stable P k →
              ∀ w0, dr_train_ (self w0) = dr_train_ (self w) →
                    model_propensity_ (self w0) = model_propensity_ (self w) →
                    P (self ((setattr (set_fit_on_train false);; k) w0).2))
      as Hstep.
    { intros k Hk w0 H1 H2. rewrite bind_setattr. by apply Hk. }
    destruct Xtrain, Dtrain, ytrain;
      try (by destruct Hnone as [?|[?|?]]);
      rewrite M_bind_assoc;
      (apply Hstep; [|done..];
       apply stable_bind;
         [apply stable_bind;
            [by apply stable_fit_nuisance_cv|intros ?; stable_auto; by intros]
         |intros ?; stable_auto; by intros]).
Qed.

(** ** The tests, attribute by attribute *)

(** The world after a run, written as the run. *)
Ltac through Hrun :=
  match type of Hrun with
  | ?m ?w = (_, ?w') => replace w' with (m w).2 by (by rewrite Hrun)
  end.

Lemma stable_evaluate_blp P Xval Xtrain swv :
  (∀ v s, P s → P (set_cate_preds_val_ v s)) →
  (∀ v s, P s → P (set_cate_preds_train_ v s)) →
  (∀ v s, P s → P (set_blp_res v s)) →
  stable P (evaluate_blp Xval Xtrain swv).
Proof. intros. unfold evaluate_blp. stable_full; eauto. Qed.

Lemma stable_evaluate_cal P Xval Xtrain n_groups swv swt :
  (∀ v s, P s → P (set_cate_preds_val_ v s)) →
  (∀ v s, P s → P (set_cate_preds_train_ v s)) →
  (∀ v s, P s → P (set_cal_res v s)) →
  stable P (evaluate_cal Xval Xtrain n_groups swv swt).
Proof. intros. unfold evaluate_cal. stable_full; eauto. Qed.

Lemma stable_evaluate_uplift P Xval Xtrain pct metric nb swv swt :
  (∀ v s, P s → P (set_cate_preds_val_ v s)) →
  (∀ v s, P s → P (set_cate_preds_train_ v s)) →
  (∀ v s, P s → P (set_uplift_res v s)) →
  stable P (evaluate_uplift Xval Xtrain pct metric nb swv swt).
Proof. intros. unfold evaluate_uplift. stable_full; eauto. Qed.

Lemma stable_evaluate_all P Xval Xtrain n_groups nb swv swt :
  (∀ v s, P s → P (set_cate_preds_val_ v s)) →
  (∀ v s, P s → P (set_cate_preds_train_ v s)) →
  (∀ v s, P s → P (set_blp_res v s)) →
  (∀ v s, P s → P (set_cal_res v s)) →
  (∀ v s, P s → P (set_uplift_res v s)) →
  (∀ v s, P s → P (set_res v s)) →
  stable P (evaluate_all Xval Xtrain n_groups nb swv swt).
Proof.
  intros. unfold evaluate_all.
  repeat first
    [ by apply stable_evaluate_blp | by apply stable_evaluate_cal
    | by apply stable_evaluate_uplift
    | apply stable_ensure_cate_preds_both; intros ? ? ?
    | apply stable_default_weights | apply stable_assert_weights
    | stable_step ]; eauto.
Qed.

(** ** The best linear predictor test *)

Lemma default_weights_given name proj sw (w w' : world) (x : list npfloat) :
  default_weights name proj sw w = (Ok x, w') →
  w' = w ∧ x = weights_given (proj (self w)) sw.
Proof.
  unfold weights_given. destruct sw as [x'|]; simpl.
  - by intros [= <- <-].
  - unfold default_weights. intros (a & w1 & Ha & H)%M_bind_Ok.
    unfold getattr in Ha. destruct (proj (self w)) as [a'|]; [|done].
    injection Ha as <- <-.
    apply M_bind_Ok in H as (n & w2 & Hn & H). unfold lift in Hn.
    injection Hn as Hn <-. injection H as <- <-. split; [done|].
    simpl. unfold shape0, index in Hn.
    destruct (shape a') as [|n' sh]; simpl in *; [done|]. by injection Hn as <-.
Qed.

Lemma blp_arm_Ok s sw (k : nat) (reg : npfloat * npfloat * npfloat) :
  blp_arm s sw k = Ok reg →
  reg = wls_hc1 (col_of (dr_val_ s) k) (col_of (cate_preds_val_ s) k) sw.
Proof.
  unfold blp_arm. intros (dr & Hdr & H)%result_bind_Ok.
  apply result_bind_Ok in H as (y & Hy & H).
  apply result_bind_Ok in H as (pv & Hpv & H).
  apply result_bind_Ok in H as (x & Hx & H). injection H as <-.
  destruct (dr_val_ s) as [dr'|]; [|done]. injection Hdr as ->.
  destruct (cate_preds_val_ s) as [pv'|]; [|done]. injection Hpv as ->.
  apply (nd_col_Ok (Some dr) _ _ _ eq_refl) in Hy.
  apply (nd_col_Ok (Some pv) _ _ _ eq_refl) in Hx. by subst.
Qed.

(** What a successful [evaluate_blp] has done. *)
Lemma evaluate_blp_Ok Xval Xtrain swv (w w' : world) r :
  evaluate_blp Xval Xtrain swv w = (Ok r, w') →
  ∃ (w1 : world) nt regs,
    w' = {| self := set_blp_res r (self w1); np_random := np_random w1 |} ∧
    is_Some (dr_val_ (self w)) ∧
    (is_Some (cate_preds_val_ (self w)) → w1 = w) ∧
    treatments (self w1) = Some (blp_treatments r) ∧
    n_treat (self w1) = Some nt ∧
    mapM (blp_arm (self w1) (weights_given (cate_preds_val_ (self w1)) swv))
      (range nt) = Ok regs ∧
    blp_params r = map (λ r, r.1.1) regs ∧
    blp_errs r = map (λ r, r.1.2) regs ∧
    blp_pvals r = map (λ r, r.2) regs.
Proof.
  unfold evaluate_blp. rewrite bind_hasattr.
  destruct (decide (is_Some (dr_val_ (self w)))) as [Hdr|Hdr];
    [rewrite (bool_decide_true _ Hdr)|by rewrite (bool_decide_false _ Hdr)].
  cbn [negb]. rewrite bind_hasattr.
  intros ([] & w1 & Hstep & H)%M_bind_Ok.
  apply blp_cate_step in Hstep as (_ & _ & Hsame).
  apply M_bind_Ok in H as (wv & w2 & Hwv & H).
  apply default_weights_given in Hwv as [-> ->].
  apply M_bind_Ok in H as (nt & w2 & [-> Hnt]%getattr_Ok & H).
  apply M_bind_Ok in H as (s & w2 & Hs & H). injection Hs as <- <-.
  apply M_bind_Ok in H as (regs & w2 & [-> Hregs]%lift_Ok & H).
  apply M_bind_Ok in H as (ts & w2 & [-> Hts]%getattr_Ok & H).
  apply M_bind_Ok in H as (? & w2 & ->%setattr_run & H).
  injection H as <- <-. exists w1, nt, regs. simpl. by repeat split.
Qed.

(** X6.  A successful [evaluate_blp] reports, for every arm, the
    coefficient, the standard error and the p-value of the weighted
    regression of the arm's DR outcomes on the arm's CATE predictions, in
    the order of the arms, with the treatments of the fit; the weights are
    those given (ones when none are given): they are neither converted to
    integers nor checked.  The result is cached in [blp_res]. *)
Theorem blp_regressions Xval Xtrain swv (w w' : world)
    (r : BLPEvaluationResults) :
  evaluate_blp Xval Xtrain swv w = (Ok r, w') →
  let s := self w' in
  let wts := weights_given (cate_preds_val_ s) swv in
  blp_res s = Some r ∧ treatments s = Some (blp_treatments r) ∧
  (∃ nt, n_treat s = Some nt ∧
         length (blp_params r) = Z.to_nat nt ∧
         length (blp_errs r) = Z.to_nat nt ∧
         length (blp_pvals r) = Z.to_nat nt) ∧
  ∀ k, (k < length (blp_params r))%nat →
    ∃ p e pv,
      wls_hc1 (col_of (dr_val_ s) k) (col_of (cate_preds_val_ s) k) wts
        = (p, e, pv) ∧
      blp_params r !! k = Some p ∧ blp_errs r !! k = Some e ∧
      blp_pvals r !! k = Some pv.
Proof.
  intros (w1 & nt & regs & -> & _ & _ & Hts & Hnt & Hregs & Hp & He & Hpv)
    %evaluate_blp_Ok s wts.
  subst s wts. simpl.
  pose proof (mapM_Ok_length _ _ _ Hregs) as Hlen.
  unfold range in Hlen. rewrite length_seq in Hlen.
  split; [done|]. split; [done|]. split.
  - exists nt. rewrite Hp, He, Hpv, !length_map. by repeat split.
  - intros k Hk. rewrite Hp, length_map, Hlen in Hk.
    destruct (mapM_Ok_lookup _ _ _ k k Hregs) as ([[p e] pv] & Harm & Hk').
    { unfold range. by apply lookup_seq_lt. }
    apply blp_arm_Ok in Harm. exists p, e, pv. split; [done|].
    by rewrite Hp, He, Hpv, !list_lookup_fmap, Hk'.
Qed.

(** ** All tests at once *)

Lemma evaluate_cal_Ok_res Xval Xtrain n_groups swv swt (w w' : world) r :
  evaluate_cal Xval Xtrain n_groups swv swt w = (Ok r, w') →
  cal_res (self w') = Some r ∧ is_Some (dr_train_ (self w)).
Proof.
  intros H. split.
  - by apply evaluate_cal_Ok in H as (w1 & _ & -> & _).
  - destruct (dr_train_ (self w)) eqn:E; [eauto|].
    by rewrite (evaluate_cal_needs_dr_train _ _ _ _ _ _ E) in H.
Qed.

Lemma evaluate_uplift_Ok_res Xval Xtrain pct metric nb swv swt (w w' : world) r :
  evaluate_uplift Xval Xtrain pct metric nb swv swt w = (Ok r, w') →
  uplift_res (self w') = Some r.
Proof.
  unfold evaluate_uplift. rewrite bind_hasattr. destruct (negb _); [done|].
  intros ([] & w1 & Hens & H)%M_bind_Ok.
  apply M_bind_Ok in H as (wv & w2 & Hwv & H).
  apply M_bind_Ok in H as (wt & w3 & Hwt & H). cbv zeta in H.
  apply M_bind_Ok in H as (? & w4 & _ & H).
  apply M_bind_Ok in H as (? & w5 & _ & H).
  apply M_bind_Ok in H as (nt & w6 & _ & H).
  apply M_bind_Ok in H as (acc & w7 & _ & H).
  apply M_bind_Ok in H as (ts & w8 & _ & H).
  apply M_bind_Ok in H as (? & w9 & ->%setattr_run & H).
  by injection H as <- <-.
Qed.

(** What a successful [evaluate_all] has done: the four tests in turn, on
    the converted weights. *)
Lemma evaluate_all_Ok Xval Xtrain n_groups nb swv swt (w w' : world) r :
  evaluate_all Xval Xtrain n_groups nb swv swt w = (Ok r, w') →
  ∃ w1 w2 w3 w4 w5 : world,
    let wv := Some (map of_int (weights_used (cate_preds_val_ (self w1)) swv)) in
    let wt := Some (map of_int (weights_used (cate_preds_train_ (self w1)) swt)) in
    ensure_cate_preds_both Xval Xtrain w = (Ok tt, w1) ∧
    evaluate_blp Xval Xtrain wv w1 = (Ok (all_blp_res r), w2) ∧
    evaluate_cal Xval Xtrain n_groups wv wt w2 = (Ok (all_cal_res r), w3) ∧
    evaluate_uplift Xval Xtrain default_percentiles "qini" nb wv wt w3
      = (Ok (all_qini_res r), w4) ∧
    evaluate_uplift Xval Xtrain default_percentiles "toc" nb wv wt w4
      = (Ok (all_toc_res r), w5) ∧
    w' = {| self := set_res r (self w5); np_random := np_random w5 |}.
Proof.
  unfold evaluate_all.
  intros ([] & w1 & Hens & H)%M_bind_Ok.
  apply M_bind_Ok in H as (wv & w2 & Hwv & H).
  apply default_weights_Ok in Hwv as [-> Hwv].
  apply M_bind_Ok in H as (wt & w2 & Hwt & H).
  apply default_weights_Ok in Hwt as [-> Hwt].
  cbv zeta in H. rewrite Hwv, Hwt in H.
  apply M_bind_Ok in H as (? & w2 & ->%assert_weights_Ok & H).
  apply M_bind_Ok in H as (? & w2 & ->%assert_weights_Ok & H).
  apply M_bind_Ok in H as (blp & w2 & Hblp & H).
  apply M_bind_Ok in H as (cal & w3 & Hcal & H).
  apply M_bind_Ok in H as (qini & w4 & Hqini & H).
  apply M_bind_Ok in H as (toc & w5 & Htoc & H).
  apply M_bind_Ok in H as (? & w6 & ->%setattr_run & H).
  injection H as <- <-. exists w1, w2, w3, w4, w5. by simpl.
Qed.

(** X7.  After a successful [evaluate_all] the object holds its result in
    [res] and the results of the single tests beside it: [blp_res] and
    [cal_res] are the BLP and calibration results of the summary, and
    [uplift_res] is its TOC result, which has replaced the QINI result
    computed before it.  The nuisances must have been fitted with training
    data. *)
Theorem evaluate_all_caches_every_result Xval Xtrain n_groups nb swv swt
    (w w' : world) (r : EvaluationResults) :
  evaluate_all Xval Xtrain n_groups nb swv swt w = (Ok r, w') →
  let s := self w' in
  res s = Some r ∧ blp_res s = Some (all_blp_res r) ∧
  cal_res s = Some (all_cal_res r) ∧ uplift_res s = Some (all_toc_res r) ∧
  is_Some (dr_val_ (self w)) ∧ is_Some (dr_train_ (self w)).
Proof.
  intros (w1 & w2 & w3 & w4 & w5 & Hens & Hblp & Hcal & Hqini & Htoc & ->)
    %evaluate_all_Ok s.
  subst s. simpl. split; [done|].
  pose proof (evaluate_blp_Ok _ _ _ _ _ _ Hblp)
    as (w1' & nt & regs & Hw2 & Hdr & _).
  pose proof (evaluate_cal_Ok_res _ _ _ _ _ _ _ _ Hcal) as [Hc Hdt].
  pose proof (evaluate_uplift_Ok_res _ _ _ _ _ _ _ _ _ _ Htoc) as Ht.
  assert (blp_res (self w2) = Some (all_blp_res r)) as Hb by (by subst w2).
  (* the later tests keep the earlier results *)
  assert (blp_res (self w5) = Some (all_blp_res r) ∧
          cal_res (self w5) = Some (all_cal_res r)) as [Hb5 Hc5].
  { split.
    - through Htoc.
      apply (stable_evaluate_uplift (λ s, blp_res s = Some (all_blp_res r)));
        [by intros..|].
      through Hqini.
      apply (stable_evaluate_uplift (λ s, blp_res s = Some (all_blp_res r)));
        [by intros..|].
      through Hcal.
      by apply (stable_evaluate_cal (λ s, blp_res s = Some (all_blp_res r))).
    - through Htoc.
      apply (stable_evaluate_uplift (λ s, cal_res s = Some (all_cal_res r)));
        [by intros..|].
      through Hqini.
      by apply (stable_evaluate_uplift
                  (λ s, cal_res s = Some (all_cal_res r))). }
  split; [done|]. split; [done|]. split; [done|].
  (* the fit is not touched before the tests look for it *)
  assert (dr_val_ (self w1) = dr_val_ (self w) ∧
          dr_train_ (self w1) = dr_train_ (self w)) as [E1 E2].
  { through Hens.
    by apply (stable_ensure_cate_preds_both
      (λ s, dr_val_ s = dr_val_ (self w) ∧ dr_train_ s = dr_train_ (self w))). }
  split; [by rewrite <- E1|].
  assert (dr_train_ (self w2) = dr_train_ (self w1)) as E3.
  { through Hblp.
    by apply (stable_evaluate_blp (λ s, dr_train_ s = dr_train_ (self w1))). }
  by rewrite <- E2, <- E3.
Qed.

(** ** A test that raises *)

Lemma keeps_on_raise_bind {A B} (P : DRTester → Prop) (m : M A) (f : A → M B) :
  stable P m → (∀ a, keeps_on_raise P (f a)) → keeps_on_raise P (m ≫= f).
Proof.
  intros Hm Hf w e w' HP. rewrite M_bind_run. specialize (Hm w HP).
  destruct (m w) as [[a|e1] w1]; simpl in *.
  - by apply Hf.
  - by intros [= _ <-].
Qed.

Lemma keeps_on_raise_stable {A} (P : DRTester → Prop) (m : M A) :
  stable P m → keeps_on_raise P m.
Proof. intros Hm w e w' HP H. specialize (Hm w HP). by rewrite H in Hm. Qed.

Lemma keeps_on_raise_setattr {A} (P : DRTester → Prop)
    (set : DRTester → DRTester) (a : A) :
  keeps_on_raise P (setattr set ;; mret a).
Proof. by intros w e w' HP. Qed.

Ltac on_raise_auto :=
  repeat first
    [ apply keeps_on_raise_setattr
    | apply keeps_on_raise_bind; [|intros ?]
    | match goal with
      | |- keeps_on_raise _ (if ?b then _ else _) =>
          destruct b; [apply keeps_on_raise_stable|]
      end ].

(** X8.  A test that raises assigns no result: after [evaluate_blp],
    [evaluate_cal] or [evaluate_uplift] has raised, the cached results of
    all tests are what they were before the call, and after [evaluate_all]
    has raised, [res] is. *)
Theorem a_test_that_raises_assigns_no_result Xval Xtrain n_groups pct metric
    nb swv swt (e : exn) (w w' : world) :
  (evaluate_blp Xval Xtrain swv w = (Raise e, w') →
   cached_results (self w') = cached_results (self w)) ∧
  (evaluate_cal Xval Xtrain n_groups swv swt w = (Raise e, w') →
   cached_results (self w') = cached_results (self w)) ∧
  (evaluate_uplift Xval Xtrain pct metric nb swv swt w = (Raise e, w') →
   cached_results (self w') = cached_results (self w)) ∧
  (evaluate_all Xval Xtrain n_groups nb swv swt w = (Raise e, w') →
   res (self w') = res (self w)).
Proof.
  set (P := λ s, cached_results s = cached_results (self w)).
  split; [|split; [|split]].
  - assert (keeps_on_raise P (evaluate_blp Xval Xtrain swv)) as H;
      [|intros Hrun; by apply (H w e w')].
    unfold evaluate_blp. on_raise_auto; try (stable_full; by intros).
  - assert (keeps_on_raise P (evaluate_cal Xval Xtrain n_groups swv swt)) as H;
      [|intros Hrun; by apply (H w e w')].
    unfold evaluate_cal. on_raise_auto; try (stable_full; by intros).
  - assert (keeps_on_raise P
              (evaluate_uplift Xval Xtrain pct metric nb swv swt)) as H;
      [|intros Hrun; by apply (H w e w')].
    unfold evaluate_uplift. on_raise_auto; try (stable_full; by intros).
  - set (Q := λ s, res s = res (self w)).
    assert (keeps_on_raise Q
              (evaluate_all Xval Xtrain n_groups nb swv swt)) as H;
      [|intros Hrun; by apply (H w e w')].
    unfold evaluate_all.
    on_raise_auto;
      first [ by apply stable_evaluate_blp | by apply stable_evaluate_cal
            | by apply stable_evaluate_uplift | stable_full; by intros ].
Qed.

(** ** The attributes of an object in use *)

Lemma get_cate_preds_unfitted Xval Xtrain (w : world) :
  treatments (self w) = None →
  get_cate_preds Xval Xtrain w = (Raise (AttributeError "treatments"), w).
Proof.
  intros H. unfold get_cate_preds. rewrite M_bind_run.
  unfold getattr. by rewrite H.
Qed.

Lemma ensure_cate_preds_both_unfitted Xval Xtrain (w : world) :
  treatments (self w) = None → cate_preds_val_ (self w) = None →
  ∃ e, ensure_cate_preds_both Xval Xtrain w = (Raise e, w).
Proof.
  intros Hts Hv. unfold ensure_cate_preds_both. rewrite !bind_hasattr, Hv.
  rewrite (bool_decide_false (is_Some None)) by (by intros [? ?]).
  rewrite orb_true_r.
  destruct Xval as [Xv|], Xtrain as [Xt|]; eauto.
  rewrite get_cate_preds_unfitted by done. eauto.
Qed.

Lemma via_stable {A} (P Q : DRTester → Prop) (m : M A) (w : world) :
  stable P m → P (self w) → (∀ s, P s → Q s) → Q (self (m w).2).
Proof. intros Hm HP HQ. by apply HQ, Hm. Qed.

Lemma fit_attributes_frame (f : DRTester → DRTester) (s : DRTester) :
  treatments (f s) = treatments s → n_treat (f s) = n_treat s →
  Dval (f s) = Dval s →
  (is_Some (fit_on_train s) → is_Some (fit_on_train (f s))) →
  fit_attributes s ∧ is_Some (treatments s) →
  fit_attributes (f s) ∧ is_Some (treatments (f s)).
Proof.
  intros H1 H2 H3 H4 [H [ts Hts]]. unfold fit_attributes in *.
  rewrite H1, H2, H3, Hts in *. split; [|by eauto].
  destruct H as (? & ? & ? & ?). by auto.
Qed.

Ltac fitted_frame :=
  let v := fresh "v" in
  let s := fresh "s" in
  intros v s; apply fit_attributes_frame; (done || (simpl; by eauto)).

Lemma fit_attributes_fit_nuisance Xval Dv yval Xtrain Dtrain ytrain swv swt
    (w : world) :
  fit_attributes
    (self (fit_nuisance Xval Dv yval Xtrain Dtrain ytrain swv swt w).2).
Proof.
  unfold fit_nuisance. rewrite !bind_setattr.
  erewrite bind_getattr by reflexivity. rewrite bind_setattr.
  rewrite np_sort_np_unique.
  set (P := λ s, treatments s = Some (np_unique Dv) ∧
                 n_treat s = Some (Z.of_nat (length (np_unique Dv)) - 1) ∧
                 Dval s = Some Dv ∧ is_Some (fit_on_train s)).
  assert (∀ s, P s → fit_attributes s) as HP.
  { intros s (Hts & Hn & HD & Hf). unfold fit_attributes. rewrite Hts.
    split; [apply np_unique_sorted|]. split; [done|]. split; [|done].
    exists Dv. split; [done|]. intros x. apply elem_of_np_unique. }
  apply HP.
  assert (∀ (b : bool) (k : M unit), stable P k →
            ∀ w0, treatments (self w0) = Some (np_unique Dv) →
                  n_treat (self w0)
                    = Some (Z.of_nat (length (np_unique Dv)) - 1) →
                  Dval (self w0) = Some Dv →
                  P (self ((setattr (set_fit_on_train b);; k) w0).2))
    as Hstep.
  { intros b k Hk w0 H1 H2 H3. rewrite bind_setattr. apply Hk.
    simpl. by eauto. }
  destruct Xtrain, Dtrain, ytrain; rewrite M_bind_assoc;
    (apply Hstep; [|done..]);
    repeat first
      [ apply stable_fit_nuisance_cv; intros ? ? ?
      | apply stable_fit_nuisance_train; intros ? ? ?
      | stable_step ]; done.
Qed.

Lemma fit_attributes_fitted (s : DRTester) :
  fit_attributes s →
  is_Some (dr_val_ s) ∨ is_Some (dr_train_ s) ∨ is_Some (cate_preds_val_ s) →
  is_Some (treatments s).
Proof.
  unfold fit_attributes. destruct (treatments s); [by eauto|].
  intros (_ & _ & _ & -> & -> & _ & -> & _). by intros [[? ?]|[[? ?]|[? ?]]].
Qed.

Lemma fit_attributes_run (c : call) (w : world) :
  fit_attributes (self w) → fit_attributes (self (run c w)).
Proof.
  intros Hinv.
  set (P' := λ s, fit_attributes s ∧ is_Some (treatments s)).
  assert (∀ s, P' s → fit_attributes s) as Hweak by (by intros s [? _]).
  destruct c; cbn [run].
  - by apply (stable_setattr fit_attributes (set_cv_splitter check_cv)).
  - by apply (stable_get_cv_splits fit_attributes).
  - apply fit_attributes_fit_nuisance.
  - by apply (stable_fit_nuisance_train fit_attributes).
  - by apply (stable_fit_nuisance_cv fit_attributes).
  - destruct (treatments (self w)) as [ts|] eqn:Hts.
    + apply (via_stable P'); [|by split; [|exists ts]|done].
      apply stable_get_cate_preds; fitted_frame.
    + by rewrite get_cate_preds_unfitted.
  - destruct (dr_train_ (self w)) as [dr|] eqn:Hdr.
    + apply (via_stable P'); [| |done].
      * apply stable_evaluate_cal; fitted_frame.
      * split; [done|]. apply fit_attributes_fitted; [done|].
        rewrite Hdr. by eauto.
    + by rewrite evaluate_cal_needs_dr_train.
  - destruct (dr_val_ (self w)) as [dr|] eqn:Hdr.
    + apply (via_stable P'); [| |done].
      * apply stable_evaluate_blp; fitted_frame.
      * split; [done|]. apply fit_attributes_fitted; [done|].
        rewrite Hdr. by eauto.
    + by rewrite evaluate_blp_needs_dr_val.
  - destruct (dr_val_ (self w)) as [dr|] eqn:Hdr.
    + apply (via_stable P'); [| |done].
      * apply stable_evaluate_uplift; fitted_frame.
      * split; [done|]. apply fit_attributes_fitted; [done|].
        rewrite Hdr. by eauto.
    + by rewrite evaluate_uplift_needs_dr_val.
  - destruct (treatments (self w)) as [ts|] eqn:Hts.
    + apply (via_stable P'); [|by split; [|exists ts]|done].
      apply stable_evaluate_all; fitted_frame.
    + assert (cate_preds_val_ (self w) = None) as Hv.
      { unfold fit_attributes in Hinv. rewrite Hts in Hinv. tauto. }
      destruct (ensure_cate_preds_both_unfitted Xval Xtrain w Hts Hv)
        as [e He].
      unfold evaluate_all. by rewrite M_bind_run, He.
Qed.

(** X9.  On every object that a program can have, a new one on which
    methods were called in any order and with any arguments, whether they
    returned or raised: as long as [treatments] is not assigned, nothing
    that is computed from a fit is (neither treatment data, DR outcomes,
    CATE predictions nor results); once it is, it is strictly increasing and
    holds the values of the [Dval] of the object, [n_treat] is its length
    minus one, and [fit_on_train] is assigned. *)
Theorem fitted_attributes_go_together (w : world) :
  reachable w → fit_attributes (self w).
Proof.
  induction 1 as [g|c w Hw IH]; [|by apply fit_attributes_run].
  unfold fit_attributes. simpl. by repeat split.
Qed.

Lemma stable_and {A} (P Q : DRTester → Prop) (m : M A) :
  stable P m → stable Q m → stable (λ s, P s ∧ Q s) m.
Proof. intros HP HQ w [? ?]. split; [by apply HP|by apply HQ]. Qed.

Lemma stable_bind_getattr {A B} (P : DRTester → Prop) name
    (proj : DRTester → option A) (f : A → M B) :
  (∀ a, stable (λ s, P s ∧ proj s = Some a) (f a)) →
  stable P (getattr name proj ≫= f).
Proof.
  intros Hf w HP. rewrite M_bind_run. unfold getattr.
  destruct (proj (self w)) as [a|] eqn:E; simpl; [|done].
  by apply (Hf a w).
Qed.

Lemma stable_bind_post {A B} (P : DRTester → Prop) (Q : A → DRTester → Prop)
    (m : M A) (f : A → M B) :
  stable P m → (∀ w a w', m w = (Ok a, w') → Q a (self w')) →
  (∀ a, stable (λ s, P s ∧ Q a s) (f a)) → stable P (m ≫= f).
Proof.
  intros Hm HQ Hf w HP. rewrite M_bind_run. specialize (Hm w HP).
  specialize (HQ w). destruct (m w) as [[a|e] w1]; simpl in *; [|done].
  by apply (Hf a w1); split; [|apply HQ].
Qed.

Lemma result_attributes_frame (f : DRTester → DRTester) (s : DRTester) :
  ate_val (f s) = ate_val s → cached_results (f s) = cached_results s →
  (is_Some (dr_val_ s) → is_Some (dr_val_ (f s))) →
  (is_Some (dr_train_ s) → is_Some (dr_train_ (f s))) →
  result_attributes s → result_attributes (f s).
Proof.
  unfold cached_results, result_attributes.
  intros H1 [= H2 H3 H4 H5] Hv Ht (I1 & I2 & I3 & I4 & I5).
  rewrite H1, H2, H3, H4, H5. by auto 10.
Qed.

Ltac results_frame :=
  intros; apply result_attributes_frame; (done || (simpl; by eauto)).

Lemma stable_result_attributes_fit_nuisance Xval Dv yval Xtrain Dtrain ytrain
    swv swt :
  stable result_attributes
    (fit_nuisance Xval Dv yval Xtrain Dtrain ytrain swv swt).
Proof.
  unfold fit_nuisance.
  do 4 (apply stable_bind; [stable_auto; by results_frame|intros ?]).
  apply stable_bind; [apply stable_fit_nuisance_dr; results_frame|intros ?].
  apply stable_bind_getattr. intros dr.
  apply stable_bind; [apply stable_lift|intros ate].
  apply stable_setattr. intros s [(I1 & I2 & I3 & I4 & I5) Hdr].
  split; [|done]. unfold result_attributes. simpl.
  split; [by eauto|]. by auto.
Qed.

Lemma stable_result_attributes_blp Xval Xtrain swv :
  stable result_attributes (evaluate_blp Xval Xtrain swv).
Proof.
  intros w Hinv. destruct (dr_val_ (self w)) as [dr|] eqn:Hdr;
    [|by rewrite evaluate_blp_needs_dr_val].
  apply (via_stable (λ s, result_attributes s ∧ is_Some (dr_val_ s)));
    [|by rewrite Hdr; eauto|by intros s [? _]].
  apply stable_evaluate_blp; intros v s [H Hv];
    (split; [|done]); try (revert H; by results_frame).
  destruct H as (I1 & I2 & I3 & I4 & I5). unfold result_attributes. simpl.
  split; [done|]. split; [done|]. split; [done|]. split; [done|].
  intros Hr. destruct (I5 Hr) as (? & ? & ?). by eauto.
Qed.

Lemma stable_result_attributes_cal Xval Xtrain n_groups swv swt :
  stable result_attributes (evaluate_cal Xval Xtrain n_groups swv swt).
Proof.
  intros w Hinv. destruct (dr_train_ (self w)) as [dr|] eqn:Hdr;
    [|by rewrite evaluate_cal_needs_dr_train].
  apply (via_stable (λ s, result_attributes s ∧ is_Some (dr_train_ s)));
    [|by rewrite Hdr; eauto|by intros s [? _]].
  apply stable_evaluate_cal; intros v s [H Hv];
    (split; [|done]); try (revert H; by results_frame).
  destruct H as (I1 & I2 & I3 & I4 & I5). unfold result_attributes. simpl.
  split; [done|]. split; [done|]. split; [done|]. split; [done|].
  intros Hr. destruct (I5 Hr) as (? & ? & ?). by eauto.
Qed.

Lemma stable_result_attributes_uplift Xval Xtrain pct metric nb swv swt :
  stable result_attributes
    (evaluate_uplift Xval Xtrain pct metric nb swv swt).
Proof.
  intros w Hinv. destruct (dr_val_ (self w)) as [dr|] eqn:Hdr;
    [|by rewrite evaluate_uplift_needs_dr_val].
  apply (via_stable (λ s, result_attributes s ∧ is_Some (dr_val_ s)));
    [|by rewrite Hdr; eauto|by intros s [? _]].
  apply stable_evaluate_uplift; intros v s [H Hv];
    (split; [|done]); try (revert H; by results_frame).
  destruct H as (I1 & I2 & I3 & I4 & I5). unfold result_attributes. simpl.
  split; [done|]. split; [done|]. split; [done|]. split; [done|].
  intros Hr. destruct (I5 Hr) as (? & ? & ?). by eauto.
Qed.

Lemma stable_result_attributes_all Xval Xtrain n_groups nb swv swt :
  stable result_attributes (evaluate_all Xval Xtrain n_groups nb swv swt).
Proof.
  unfold evaluate_all.
  apply stable_bind;
    [apply stable_ensure_cate_preds_both; results_frame|intros ?].
  do 2 (apply stable_bind; [apply stable_default_weights|intros ?]).
  cbv zeta.
  do 2 (apply stable_bind; [apply stable_assert_weights|intros ?]).
  apply (stable_bind_post _ (λ _ s, is_Some (blp_res s)));
    [apply stable_result_attributes_blp| |intros blp].
  { intros w r w' (w1 & nt & regs & -> & _)%evaluate_blp_Ok. simpl. by eauto. }
  apply (stable_bind_post _ (λ _ s, is_Some (cal_res s))); [| |intros cal].
  { apply stable_and; [apply stable_result_attributes_cal|].
    apply stable_evaluate_cal; by intros. }
  { intros w r w' [-> _]%evaluate_cal_Ok_res. by eauto. }
  apply (stable_bind_post _ (λ _ s, is_Some (uplift_res s)));
    [| |intros qini].
  { apply stable_and;
      [apply stable_and; [apply stable_result_attributes_uplift|]|];
      apply stable_evaluate_uplift; by intros. }
  { intros w r w' ->%evaluate_uplift_Ok_res. by eauto. }
  apply stable_bind; [|intros toc].
  { apply stable_and;
      [apply stable_and;
         [apply stable_and; [apply stable_result_attributes_uplift|]|]|];
      apply stable_evaluate_uplift; simpl; by eauto. }
  apply stable_bind; [|intros ?; apply stable_ret].
  apply stable_setattr.
  intros s [[[(I1 & I2 & I3 & I4 & I5) Hb] Hc] Hu].
  by split; [split; [split|]|].
Qed.

Lemma result_attributes_run (c : call) (w : world) :
  result_attributes (self w) → result_attributes (self (run c w)).
Proof.
  intros Hinv. destruct c; cbn [run].
  - apply (stable_setattr result_attributes (set_cv_splitter check_cv));
      [results_frame|done].
  - apply (stable_get_cv_splits result_attributes); [results_frame|done].
  - by apply stable_result_attributes_fit_nuisance.
  - apply (stable_fit_nuisance_train result_attributes); [results_frame|done].
  - apply (stable_fit_nuisance_cv result_attributes); [results_frame|done].
  - apply (stable_get_cate_preds result_attributes); [results_frame..|done].
  - by apply stable_result_attributes_cal.
  - by apply stable_result_attributes_blp.
  - by apply stable_result_attributes_uplift.
  - by apply stable_result_attributes_all.
Qed.

(** X10.  On every object that a program can have, what is cached comes
    with what it was computed from: [ate_val], [blp_res] and [uplift_res]
    with [dr_val_], [cal_res] with [dr_train_], the result of a test with
    the CATE predictions the test looked for, and the summary [res] of
    [evaluate_all] with the results of the three tests. *)
Theorem cached_values_have_their_sources (w : world) :
  reachable w → result_attributes (self w) ∧ results_have_preds (self w).
Proof.
  intros Hw. split; [|by apply reachable_results_have_preds].
  induction Hw as [g|c w Hw IH]; [|by apply result_attributes_run].
  unfold result_attributes. simpl.
  repeat split; intros;
    match goal with H : is_Some None |- _ => by apply is_Some_None in H end.
Qed.

(** ** Calibration without members *)






(** ** The layout of the calibration result *)

Lemma evaluate_cal_Ok_loop Xval Xtrain n_groups swv swt (w w' : world) r :
  evaluate_cal Xval Xtrain n_groups swv swt w = (Ok r, w') →
  ∃ (w1 : world) (nt : Z),
    ensure_cate_preds_both Xval Xtrain w = (Ok tt, w1) ∧
    w' = {| self := set_cal_res r (self w1); np_random := np_random w1 |} ∧
    treatments (self w1) = Some (cal_treatments r) ∧
    n_treat (self w1) = Some nt ∧ 0 ≤ nt ∧
    foldM (λ (acc : list npfloat * list (Z * df_plot)) k,
        arm ← cal_arm (self w1) k n_groups
                 (weights_used (cate_preds_val_ (self w1)) swv)
                 (weights_used (cate_preds_train_ (self w1)) swt);
        ts ← attr "treatments" (treatments (self w1));
        key ← index ts (k + 1);
        Ok (<[k := arm.1]> acc.1, dict_set acc.2 key arm.2))
      (replicate (Z.to_nat nt) f0, []) (seq 0 (Z.to_nat nt))
    = Ok (cal_r_squared r, plot_data_dict r).
Proof.
  unfold evaluate_cal. rewrite bind_hasattr. destruct (negb _); [done|].
  intros ([] & w1 & Hens & H)%M_bind_Ok. exists w1.
  apply M_bind_Ok in H as (wt & w2 & Hwt & H).
  apply default_weights_Ok in Hwt as [-> Hwt].
  apply M_bind_Ok in H as (wv & w2 & Hwv & H).
  apply default_weights_Ok in Hwv as [-> Hwv].
  cbv zeta in H. rewrite Hwv, Hwt in H.
  apply M_bind_Ok in H as (? & w2 & ->%assert_weights_Ok & H).
  apply M_bind_Ok in H as (? & w2 & ->%assert_weights_Ok & H).
  apply M_bind_Ok in H as (nt & w2 & [-> Hnt]%getattr_Ok & H).
  apply M_bind_Ok in H as (zeros & w2 & [-> Hz]%lift_Ok & H).
  apply M_bind_Ok in H as (s & w2 & Hs & H).
  injection Hs as <- <-.
  apply M_bind_Ok in H as ([sc dict] & w2 & [-> Hout]%lift_Ok & H).
  apply M_bind_Ok in H as (ts & w2 & [-> Hts]%getattr_Ok & H).
  apply M_bind_Ok in H as (? & w2 & ->%setattr_run & H).
  injection H as <- <-. simpl. exists nt.
  unfold np_zeros in Hz. destruct (Z.ltb_spec nt 0); [done|].
  injection Hz as <-. by repeat split.
Qed.

Lemma cal_arm_negative s k n_groups wv wt :
  n_groups < 0 → is_Ok (cal_arm s k n_groups wv wt) = false.
Proof.
  intros Hn. unfold cal_arm, cal_groups, np_zeros.
  destruct (cate_preds_train_ s) as [a|]; simpl; [|done].
  destruct (nd_col a k); simpl; [|done].
  destruct (np_linspace01 n_groups); simpl; [|done].
  by rewrite (proj2 (Z.ltb_lt _ _) Hn).
Qed.

Lemma cal_arm_negative_error s k n_groups wv wt (a : ndarray) :
  n_groups + 1 < 0 → cate_preds_train_ s = Some a →
  is_Ok (nd_col a k) = true →
  ∃ msg, cal_arm s k n_groups wv wt = Raise (ValueError msg).
Proof.
  intros Hn Ha Hcol. unfold cal_arm, cal_groups, np_linspace01.
  rewrite Ha. simpl. revert Hcol. destruct (nd_col a k); [intros _; simpl|done].
  rewrite (proj2 (Z.ltb_lt _ _) Hn). simpl. by eauto.
Qed.

(** X12.  A negative [n_groups] is not a number of bins: the group arrays
    of an arm cannot be created, so that the arm raises ([np.linspace]
    raises a value error when [n_groups + 1] is negative, [np.zeros] does
    for [n_groups = -1]), and [evaluate_cal] with a negative [n_groups]
    returns only when there is no arm to score, with no score and no plot
    data. *)
Theorem negative_n_groups_gives_no_score Xval Xtrain n_groups swv swt
    (w w' : world) (r : CalibrationEvaluationResults) s k wv wt
    (a : ndarray) :
  n_groups < 0 →
  is_Ok (cal_arm s k n_groups wv wt) = false ∧
  (n_groups + 1 < 0 → cate_preds_train_ s = Some a →
   is_Ok (nd_col a k) = true →
   ∃ msg, cal_arm s k n_groups wv wt = Raise (ValueError msg)) ∧
  (evaluate_cal Xval Xtrain n_groups swv swt w = (Ok r, w') →
   cal_r_squared r = [] ∧ plot_data_dict r = [] ∧
   n_treat (self w') = Some 0).
Proof.
  intros Hn. split; [by apply cal_arm_negative|].
  split; [by apply cal_arm_negative_error|].
  intros (w1 & nt & _ & -> & _ & Hnt & Hpos & Hloop)%evaluate_cal_Ok_loop.
  simpl. destruct (Z.to_nat nt) as [|m] eqn:Em.
  - simpl in Hloop. injection Hloop as <- <-.
    replace nt with 0 in Hnt by lia. done.
  - simpl in Hloop. apply result_bind_Ok in Hloop as (acc & Harm & _).
    apply result_bind_Ok in Harm as (arm & Harm & _).
    pose proof (cal_arm_negative (self w1) 0 n_groups
      (weights_used (cate_preds_val_ (self w1)) swv)
      (weights_used (cate_preds_train_ (self w1)) swt) Hn) as Hneg.
    by rewrite Harm in Hneg.
Qed.

Lemma dict_set_fresh {V} (d : list (Z * V)) (key : Z) (v : V) :
  key ∉ map fst d → dict_set d key v = d ++ [(key, v)].
Proof.
  induction d as [|[k' v'] d IH]; simpl; [done|].
  rewrite not_elem_of_cons. intros [Hne Hd].
  destruct (Z.eqb_spec k' key) as [->|_]; [done|]. by rewrite IH.
Qed.

Lemma cal_arm_frame s k n_groups wv wt score df :
  cal_arm s k n_groups wv wt = Ok (score, df) →
  df_ind df = map Z.of_nat (seq 0 (Z.to_nat n_groups)) ∧
  length (df_gate df) = Z.to_nat n_groups ∧
  length (df_se_gate df) = Z.to_nat n_groups ∧
  length (df_g_cate df) = Z.to_nat n_groups ∧
  length (df_se_g_cate df) = Z.to_nat n_groups.
Proof.
  unfold cal_arm. intros (g & Hg & H)%result_bind_Ok.
  apply result_bind_Ok in H as (ate & _ & H).
  apply result_bind_Ok in H as (ate_k & _ & H). injection H as _ <-.
  apply cal_groups_Ok in Hg as [(L1 & L2 & L3 & L4 & L5) _]. by simpl.
Qed.

Lemma cal_arms_keys s n_groups wv wt (ts : list Z) (m a : nat)
    (acc out : list npfloat * list (Z * df_plot)) (Q : df_plot → Prop) :
  treatments s = Some ts → NoDup (drop 1 ts) →
  (∀ k score df, cal_arm s k n_groups wv wt = Ok (score, df) → Q df) →
  foldM (λ (acc : list npfloat * list (Z * df_plot)) k,
      arm ← cal_arm s k n_groups wv wt;
      ts ← attr "treatments" (treatments s);
      key ← index ts (k + 1);
      Ok (<[k := arm.1]> acc.1, dict_set acc.2 key arm.2))
    acc (seq a m) = Ok out →
  map fst acc.2 = take a (drop 1 ts) → Forall (λ kv, Q kv.2) acc.2 →
  map fst out.2 = take (a + m) (drop 1 ts) ∧ Forall (λ kv, Q kv.2) out.2.
Proof.
  intros Hts Hnd HQ. revert a acc. induction m as [|m IH]; intros a acc; simpl.
  - intros [= <-] Hkeys HF. by rewrite Nat.add_0_r.
  - intros (acc1 & H1 & H)%result_bind_Ok Hkeys HF.
    apply result_bind_Ok in H1 as ([score df] & Harm & H1).
    rewrite Hts in H1. simpl in H1.
    apply result_bind_Ok in H1 as (key & Hkey & H1).
    injection H1 as <-. simpl in H.
    unfold index in Hkey.
    destruct (ts !! (a + 1)%nat) as [key'|] eqn:Ek; [|done].
    injection Hkey as ->.
    assert (drop 1 ts !! a = Some key) as Ea.
    { rewrite lookup_drop. by rewrite Nat.add_comm. }
    assert (key ∉ map fst acc.2) as Hfresh.
    { rewrite Hkeys. intros (j & Hj)%list_elem_of_lookup.
      apply lookup_take_Some in Hj as [Hj Hlt].
      pose proof (NoDup_lookup _ _ _ _ Hnd Hj Ea). lia. }
    rewrite (dict_set_fresh _ _ _ Hfresh) in H.
    replace (a + S m)%nat with (S a + m)%nat by lia.
    apply (IH (S a) _ H); simpl.
    + rewrite map_app, Hkeys. simpl. by rewrite (take_S_r _ _ _ Ea).
    + apply Forall_app. split; [done|]. constructor; [|done]. simpl.
      by apply (HQ a score).
Qed.

Lemma StronglySorted_lt_NoDup_drop (ts : list Z) :
  StronglySorted Z.lt ts → NoDup (drop 1 ts).
Proof.
  intros H%StronglySorted_lt_NoDup. destruct ts as [|t ts]; [done|].
  simpl. rewrite drop_0. by apply NoDup_cons in H as [_ ?].
Qed.

(** X13.  On an object whose treatments are those of a fit, the result of
    [evaluate_cal] is laid out by the arms: it names the treatments, has one
    score for every arm besides the control, and its plot data hold one
    frame for each of these arms, keyed by the treatment values in
    increasing order; every frame has [n_groups] rows, numbered from zero. *)
Theorem calibration_result_layout Xval Xtrain n_groups swv swt (w w' : world)
    (r : CalibrationEvaluationResults) :
  fit_attributes (self w) →
  evaluate_cal Xval Xtrain n_groups swv swt w = (Ok r, w') →
  treatments (self w') = Some (cal_treatments r) ∧
  length (cal_r_squared r) = (length (cal_treatments r) - 1)%nat ∧
  map fst (plot_data_dict r) = drop 1 (cal_treatments r) ∧
  ∀ key df, (key, df) ∈ plot_data_dict r →
    df_ind df = map Z.of_nat (seq 0 (Z.to_nat n_groups)) ∧
    length (df_gate df) = Z.to_nat n_groups ∧
    length (df_se_gate df) = Z.to_nat n_groups ∧
    length (df_g_cate df) = Z.to_nat n_groups ∧
    length (df_se_g_cate df) = Z.to_nat n_groups.
Proof.
  intros Hinv Hrun.
  apply evaluate_cal_Ok_loop in Hrun
    as (w1 & nt & Hens & -> & Hts & Hnt & Hpos & Hloop).
  simpl. set (ts := cal_treatments r) in *.
  assert (fit_attributes (self w1)) as Hinv1.
  { destruct (treatments (self w)) as [ts0|] eqn:Hts0.
    - through Hens.
      apply (via_stable (λ s, fit_attributes s ∧ is_Some (treatments s)));
        [|by split; [|exists ts0]|by intros s [? _]].
      apply stable_ensure_cate_preds_both; fitted_frame.
    - assert (cate_preds_val_ (self w) = None) as Hv.
      { unfold fit_attributes in Hinv. rewrite Hts0 in Hinv. tauto. }
      destruct (ensure_cate_preds_both_unfitted Xval Xtrain w Hts0 Hv)
        as [e He].
      by rewrite He in Hens. }
  unfold fit_attributes in Hinv1. rewrite Hts in Hinv1.
  destruct Hinv1 as (Hsorted & Hnt' & _). rewrite Hnt in Hnt'.
  injection Hnt' as ->.
  assert (Z.to_nat (Z.of_nat (length ts) - 1) = (length ts - 1)%nat) as Ent
    by lia.
  rewrite Ent in Hloop.
  pose proof (cal_arms_loop _ _ _ _ _ _ _ _ Hloop) as (Hlen & _);
    [simpl; rewrite length_replicate; lia|].
  simpl in Hlen. rewrite length_replicate in Hlen.
  apply (cal_arms_keys _ _ _ _ ts _ _ _ _
           (λ df, df_ind df = map Z.of_nat (seq 0 (Z.to_nat n_groups)) ∧
                  length (df_gate df) = Z.to_nat n_groups ∧
                  length (df_se_gate df) = Z.to_nat n_groups ∧
                  length (df_g_cate df) = Z.to_nat n_groups ∧
                  length (df_se_g_cate df) = Z.to_nat n_groups))
    in Hloop as [Hkeys Hframes]; try done.
  - split; [done|]. split; [done|]. simpl in Hkeys. split.
    + rewrite Hkeys. apply take_ge. rewrite length_drop. lia.
    + intros key df Hin. rewrite Forall_forall in Hframes.
      apply (Hframes (key, df) Hin).
  - by apply StronglySorted_lt_NoDup_drop.
  - intros k score df. apply cal_arm_frame.
Qed.

(** ** The CATE predictions, arm by arm *)

Lemma map_nth_seq (v : list npfloat) :
  map (λ j, nth j v f0) (seq 0 (length v)) = v.
Proof.
  apply list_eq. intros i. rewrite list_lookup_fmap.
  destruct (decide (i < length v)%nat) as [Hi|Hi].
  - rewrite lookup_seq_lt by done. simpl.
    destruct (lookup_lt_is_Some_2 v i Hi) as [x Hx].
    by rewrite Hx, (nth_lookup_Some _ _ _ _ Hx).
  - rewrite lookup_seq_ge by lia. simpl. symmetry.
    apply lookup_ge_None. lia.
Qed.

Lemma column_of_columns (vals : list (list npfloat)) (k : nat)
    (v : list npfloat) :
  vals !! k = Some v →
  column k (map (λ j, column j vals) (seq 0 (length v))) = v.
Proof.
  intros Hk. unfold column at 1. rewrite <- list_fmap_compose.
  rewrite <- (map_nth_seq v) at 2. apply list_fmap_ext. intros _ j _. simpl.
  unfold column. rewrite nth_lookup, list_lookup_fmap, Hk. done.
Qed.

(** X14.  For a sample that does not consist of a single row, column [k]
    of the CATE predictions is the effect of the arm [treatments[k + 1]]
    against the control [treatments[0]], with one entry per row of the
    sample. *)
Theorem cate_predictions_by_arm (X : list row) (ts : list Z) (a : ndarray)
    (k : nat) (base t : Z) :
  (∀ t0 t1, length (cate_effect X t0 t1) = length X) →
  length X ≠ 1%nat →
  cate_preds X ts = Ok a →
  ts !! 0%nat = Some base → ts !! S k = Some t →
  nd_col a k = Ok (cate_effect X base t) ∧
  shape a = [length X; (length ts - 1)%nat].
Proof.
  intros Heff Hn H Hbase Ht.
  split; [|by apply cate_preds_shape].
  unfold cate_preds in H.
  apply result_bind_Ok in H as (base' & Hb & H).
  unfold index in Hb. rewrite Hbase in Hb. injection Hb as <-.
  apply result_bind_Ok in H as (stacked & Hst & H). injection H as <-.
  set (vals := map (λ t, cate_effect X base t) (drop 1 ts)) in *.
  assert (vals !! k = Some (cate_effect X base t)) as Hk.
  { unfold vals. rewrite list_lookup_fmap, lookup_drop. simpl. by rewrite Ht. }
  assert (length vals = (length ts - 1)%nat) as Hm
    by (unfold vals; by rewrite length_map, length_drop).
  pose proof (lookup_lt_Some _ _ _ Hk) as Hlt.
  unfold np_stack in Hst. destruct vals as [|v vals'] eqn:Evals; [done|].
  destruct (forallb _ vals'); [|done]. injection Hst as <-.
  assert (length v = length X) as Hv.
  { destruct (drop 1 ts) as [|t' ts']; [done|]. unfold vals in Evals.
    injection Evals as <- _. apply Heff. }
  pose proof (column_of_columns (v :: vals') k _ Hk) as Hcol.
  rewrite Heff in Hcol. unfold np_T. rewrite Hv.
  set (rows := map (λ j, column j (v :: vals')) (seq 0 (length X))) in *.
  assert (length rows = length X) as Hrows
    by (unfold rows; by rewrite length_map, length_seq).
  destruct rows as [|r [|r' rows']] eqn:Erows; simpl in Hrows.
  - (* no row *)
    destruct (length (v :: vals')) as [|[|m]] eqn:Em; simpl in *; try lia.
    + destruct k; [|lia]. simpl. rewrite <- Hcol. done.
    + destruct (k <? S (S m))%nat eqn:E; [by rewrite <- Hcol|].
      apply Nat.ltb_ge in E. lia.
  - by rewrite <- Hrows in Hn.
  - destruct (length (v :: vals')) as [|[|m]] eqn:Em; simpl in *; try lia.
    + destruct k; [|lia]. simpl. rewrite <- Hcol. simpl. f_equal.
      unfold column. by rewrite <- !list_fmap_compose.
    + destruct (k <? S (S m))%nat eqn:E; [by rewrite <- Hcol|].
      apply Nat.ltb_ge in E. lia.
Qed.

(** ** The regression predictions of [fit_nuisance_train] *)

Lemma assign_rows (k : nat) (vals : list npfloat) (a : nat)
    (rows : list (list npfloat)) :
  length rows = (a + length vals)%nat →
  fold_left (λ rows (iv : nat * npfloat), alter (<[k := iv.2]>) iv.1 rows)
    (zip (seq a (length vals)) vals) rows
  = take a rows ++ zip_with (λ r v, <[k := v]> r) (drop a rows) vals.
Proof.
  revert a rows. induction vals as [|v vals IH]; intros a rows Hlen; simpl.
  - simpl in Hlen. rewrite Nat.add_0_r in Hlen.
    rewrite take_ge, drop_ge by lia. by rewrite app_nil_r.
  - simpl in Hlen.
    destruct (lookup_lt_is_Some_2 rows a ltac:(lia)) as [r Hr].
    rewrite IH by (rewrite length_alter; lia).
    rewrite (drop_S _ _ _ Hr). simpl.
    rewrite drop_alter, decide_False by lia.
    rewrite (take_S_r (alter _ a rows) a (<[k:=v]> r))
      by (by rewrite list_lookup_alter_eq, Hr).
    rewrite take_alter, decide_False by lia. by rewrite <- app_assoc.
Qed.

Lemma nd_assign_all (c : nat) (rows : list (list npfloat)) (k : nat)
    (vals : list npfloat) (reg : ndarray) :
  nd_assign (A2 c rows) (seq 0 (length rows)) k vals = Ok reg →
  length vals = length rows →
  (k < c)%nat ∧ reg = A2 c (zip_with (λ r v, <[k := v]> r) rows vals).
Proof.
  unfold nd_assign. intros H Hlen.
  destruct (k <? c)%nat eqn:Ek; simpl in H; [|done].
  apply Nat.ltb_lt in Ek. split; [done|].
  destruct (forallb _ _); simpl in H; [|done].
  unfold broadcast_to in H. rewrite length_seq, Hlen, Nat.eqb_refl in H.
  simpl in H. injection H as <-. f_equal.
  rewrite <- Hlen, (assign_rows k vals 0 rows) by lia.
  by rewrite take_0, drop_0.
Qed.

Lemma column_assign_eq (k : nat) (rows : list (list npfloat))
    (vals : list npfloat) :
  length vals = length rows → Forall (λ r, (k < length r)%nat) rows →
  column k (zip_with (λ r v, <[k := v]> r) rows vals) = vals.
Proof.
  revert vals. induction rows as [|r rows IH]; intros [|v vals]; simpl;
    try done.
  intros [= Hlen] [Hr Hrows]%Forall_cons. f_equal; [|by apply IH].
  by rewrite nth_lookup, list_lookup_insert_eq.
Qed.

Lemma column_assign_ne (k i : nat) (rows : list (list npfloat))
    (vals : list npfloat) :
  length vals = length rows → i ≠ k →
  column i (zip_with (λ r v, <[k := v]> r) rows vals) = column i rows.
Proof.
  revert vals. induction rows as [|r rows IH]; intros [|v vals]; simpl;
    try done.
  intros [= Hlen] Hne. f_equal; [|by apply IH].
  by rewrite !nth_lookup, list_lookup_insert_ne.
Qed.

Lemma assign_keeps_width (k c : nat) (rows : list (list npfloat))
    (vals : list npfloat) :
  Forall (λ r, length r = c) rows →
  Forall (λ r, length r = c) (zip_with (λ r v, <[k := v]> r) rows vals).
Proof.
  revert vals. induction rows as [|r rows IH]; intros [|v vals]; simpl;
    try done.
  intros [Hr Hrows]%Forall_cons.
  constructor; [by rewrite length_insert|by apply IH].
Qed.

Lemma fit_arm_Ok X D (y wts : list npfloat) (arm : Z) Xte preds :
  fit_arm X D y wts arm Xte = Ok preds →
  preds = regression_fit_predict
            (select (map (λ d, d =? arm) D) X)
            (select (map (λ d, d =? arm) D) y)
            (select (map (λ d, d =? arm) D) wts) Xte.
Proof.
  unfold fit_arm. intros (Xs & ->%mask_index_Ok & H)%result_bind_Ok.
  apply result_bind_Ok in H as (ys & ->%mask_index_Ok & H).
  apply result_bind_Ok in H as (ws & ->%mask_index_Ok & H).
  by injection H as <-.
Qed.

Lemma train_loop Xt Dt (yt wts : list npfloat) Xv (ts : list Z) (c : nat)
    (m a : nat) (rows : list (list npfloat)) (reg : ndarray) :
  (∀ X y sw, length (regression_fit_predict X y sw Xv) = length Xv) →
  foldM (λ reg_preds i,
      treatments ← attr "treatments" (Some ts);
      arm ← index treatments i;
      preds ← fit_arm Xt Dt yt wts arm Xv;
      nd_assign reg_preds (seq 0 (length Xv)) i preds)
    (A2 c rows) (seq a m) = Ok reg →
  length rows = length Xv → Forall (λ r, length r = c) rows →
  ∃ rows', reg = A2 c rows' ∧ length rows' = length Xv ∧
    Forall (λ r, length r = c) rows' ∧
    (∀ i, (i < a ∨ a + m ≤ i)%nat → column i rows' = column i rows) ∧
    ∀ i, (a ≤ i < a + m)%nat →
      (i < c)%nat ∧
      ∃ arm, ts !! i = Some arm ∧
        column i rows' =
        regression_fit_predict
          (select (map (λ d, d =? arm) Dt) Xt)
          (select (map (λ d, d =? arm) Dt) yt)
          (select (map (λ d, d =? arm) Dt) wts) Xv.
Proof.
  intros Hreg. revert a rows. induction m as [|m IH]; intros a rows; simpl.
  - intros [= <-] Hlen Hrows. exists rows. repeat split; try done.
    all: intros; lia.
  - intros (reg1 & H1 & H)%result_bind_Ok Hlen Hrows. simpl in H1.
    apply result_bind_Ok in H1 as (arm & Harm & H1).
    apply result_bind_Ok in H1 as (preds & ->%fit_arm_Ok & H1).
    rewrite <- Hlen in H1.
    apply nd_assign_all in H1 as [Hac ->]; [|by rewrite Hreg].
    set (preds := regression_fit_predict _ _ _ _) in *.
    assert (length preds = length rows) as Hp by (unfold preds; by rewrite Hreg).
    apply IH in H as (rows' & -> & Hlen' & Hrows' & Hout & Hin).
    + exists rows'. split; [done|]. split; [done|]. split; [done|]. split.
      * intros i Hi. rewrite Hout by lia. apply column_assign_ne; [done|lia].
      * intros i Hi. destruct (decide (i = a)) as [->|Hne].
        -- split; [done|]. exists arm. split.
           ++ unfold index in Harm. by destruct (ts !! a); [injection Harm as ->|].
           ++ rewrite Hout by lia. apply column_assign_eq; [done|].
              eapply Forall_impl; [exact Hrows|]. simpl. intros; lia.
        -- apply Hin. lia.
    + by rewrite length_zip_with, Hp, Nat.min_id.
    + by apply assign_keeps_width.
Qed.

(** X15.  [fit_nuisance_train] fits the propensity model on the whole
    training sample, with the training weights (ones when none are given),
    keeps it in [model_propensity_] and applies it to the validation
    sample; the regression predictions have one row per validation unit and
    one column per treatment, the control included, and column [i] is the
    prediction for the validation sample of the regression fitted on the
    training rows of treatment [treatments[i]] alone, their outcomes and
    their weights.  The regression is taken to return one prediction per
    row. *)
Theorem fit_nuisance_train_predictions Xt Dt yt Xv swt (w w' : world)
    (reg prop : ndarray) :
  (∀ X y sw, length (regression_fit_predict X y sw Xv) = length Xv) →
  fit_nuisance_train Xt Dt yt Xv swt w = (Ok (reg, prop), w') →
  let wts := default (np_ones (length Xt)) swt in
  model_propensity_ (self w') = Some (propensity_fit Xt Dt wts) ∧
  prop = propensity_predict_proba (propensity_fit Xt Dt wts) Xv ∧
  ∃ nt, n_treat (self w) = Some nt ∧
    shape reg = [length Xv; Z.to_nat (nt + 1)] ∧
    ∀ i, (i < Z.to_nat (nt + 1))%nat →
      ∃ ts arm, treatments (self w) = Some ts ∧ ts !! i = Some arm ∧
        nd_col reg i =
        Ok (regression_fit_predict
              (select (map (λ d, d =? arm) Dt) Xt)
              (select (map (λ d, d =? arm) Dt) yt)
              (select (map (λ d, d =? arm) Dt) wts) Xv).
Proof.
  intros Hreg H wts. unfold fit_nuisance_train in H. fold wts in H.
  rewrite bind_setattr in H.
  erewrite bind_getattr in H by reflexivity.
  apply M_bind_Ok in H as (nt & w1 & [-> Hnt]%getattr_Ok & H).
  apply M_bind_Ok in H as (? & w1 & Hchk & H).
  assert (w1 = {| self := set_model_propensity_ (propensity_fit Xt Dt wts)
                            (self w);
                  np_random := np_random w |}) as ->.
  { destruct (nt + 1 <? 0); [done|]. by injection Hchk as _ <-. }
  clear Hchk.
  apply M_bind_Ok in H as (s & w1 & Hs & H). injection Hs as <- <-.
  apply M_bind_Ok in H as (reg' & w1 & [-> Hloop]%lift_Ok & H).
  injection H as <- <- <-. simpl in *.
  split; [done|]. split; [done|]. exists nt. split; [done|].
  unfold range, np_zeros2 in Hloop.
  set (c := Z.to_nat (nt + 1)) in *.
  destruct (treatments (self w)) as [ts|] eqn:Hts.
  - apply train_loop in Hloop
      as (rows' & -> & Hlen & Hrows & _ & Hin); [|done| |].
    + split; [by simpl; rewrite Hlen|].
      intros i Hi. destruct (Hin i ltac:(lia)) as (Hic & arm & Harm & Hcol).
      exists ts, arm. split; [done|]. split; [done|]. simpl.
      apply Nat.ltb_lt in Hic. by rewrite Hic, Hcol.
    + by rewrite length_replicate.
    + apply Forall_replicate. by rewrite length_replicate.
  - destruct c as [|c']; simpl in Hloop; [|done].
    injection Hloop as <-. simpl. rewrite length_replicate.
    split; [done|]. intros i Hi. lia.
Qed.

(** ** The layout of the uplift result *)

Lemma uplift_arm_key pct metric nb wv wt (acc acc' : uplift_acc) (k : nat)
    (w w' : world) :
  uplift_arm pct metric nb wv wt acc k w = (Ok acc', w') →
  self w' = self w ∧
  ∃ ts key curve, treatments (self w) = Some ts ∧
    ts !! (k + 1)%nat = Some key ∧
    curve_dict acc' = dict_set (curve_dict acc) key curve.
Proof.
  unfold uplift_arm.
  intros (pt & w1 & [-> Hpt]%getattr_Ok & H)%M_bind_Ok.
  apply M_bind_Ok in H as (ct & w1 & [-> Hct]%lift_Ok & H).
  apply M_bind_Ok in H as (pv & w1 & [-> Hpv]%getattr_Ok & H).
  apply M_bind_Ok in H as (cv & w1 & [-> Hcv]%lift_Ok & H).
  apply M_bind_Ok in H as (dv & w1 & [-> Hdv]%getattr_Ok & H).
  apply M_bind_Ok in H as (cd & w1 & [-> Hcd]%lift_Ok & H).
  apply M_bind_Ok in H as ([[q e] curve] & w1 & [Hs Hcalc]%with_rng_Ok & H).
  apply M_bind_Ok in H as (ts & w2 & [-> Hts]%getattr_Ok & H).
  apply M_bind_Ok in H as (key & w2 & [-> Hkey]%lift_Ok & H).
  injection H as <- <-. split; [done|]. exists ts, key, curve.
  rewrite <- Hs. split; [done|]. split; [|done].
  unfold index in Hkey. by destruct (ts !! (k + 1)%nat); [injection Hkey as ->|].
Qed.

Lemma uplift_keys pct metric nb wv wt (ts : list Z) (m a : nat)
    (acc acc' : uplift_acc) (w w' : world) :
  treatments (self w) = Some ts → NoDup (drop 1 ts) →
  forM (uplift_arm pct metric nb wv wt) acc (seq a m) w = (Ok acc', w') →
  map fst (curve_dict acc) = take a (drop 1 ts) →
  map fst (curve_dict acc') = take (a + m) (drop 1 ts).
Proof.
  intros Hts Hnd. revert a acc w Hts.
  induction m as [|m IH]; intros a acc w Hts; simpl.
  - intros [= <- <-] Hkeys. by rewrite Nat.add_0_r.
  - intros (acc1 & w1 & H1 & H)%M_bind_Ok Hkeys.
    apply uplift_arm_key in H1 as (Hs & ts' & key & curve & Hts' & Ek & Hd).
    rewrite Hts in Hts'. injection Hts' as <-.
    assert (drop 1 ts !! a = Some key) as Ea.
    { rewrite lookup_drop. by rewrite Nat.add_comm. }
    assert (key ∉ map fst (curve_dict acc)) as Hfresh.
    { rewrite Hkeys. intros (j & Hj)%list_elem_of_lookup.
      apply lookup_take_Some in Hj as [Hj Hlt].
      pose proof (NoDup_lookup _ _ _ _ Hnd Hj Ea). lia. }
    rewrite (dict_set_fresh _ _ _ Hfresh) in Hd.
    replace (a + S m)%nat with (S a + m)%nat by lia.
    apply (IH (S a) acc1 w1); [by rewrite Hs|done|].
    rewrite Hd, map_app, Hkeys. simpl. by rewrite (take_S_r _ _ _ Ea).
Qed.

(** X16.  On an object whose treatments are those of a fit, the result of
    [evaluate_uplift] is laid out by the arms: it names the treatments, and
    its curve data hold one curve for every arm besides the control, keyed
    by the treatment values in increasing order, as many as there are
    coefficients.  The result is cached in [uplift_res]. *)
Theorem uplift_result_layout Xval Xtrain pct metric nb swv swt (w w' : world)
    (r : UpliftEvaluationResults) :
  fit_attributes (self w) →
  evaluate_uplift Xval Xtrain pct metric nb swv swt w = (Ok r, w') →
  uplift_res (self w') = Some r ∧
  treatments (self w') = Some (uplift_treatments r) ∧
  map fst (curve_data_dict r) = drop 1 (uplift_treatments r) ∧
  length (uplift_params r) = (length (uplift_treatments r) - 1)%nat.
Proof.
  intros Hinv H. unfold evaluate_uplift in H.
  rewrite bind_hasattr in H. destruct (negb _); [done|].
  apply M_bind_Ok in H as ([] & w1 & Hens & H).
  apply M_bind_Ok in H as (wv & w2 & Hwv & H).
  apply default_weights_Ok in Hwv as [-> Hwv].
  apply M_bind_Ok in H as (wt & w2 & Hwt & H).
  apply default_weights_Ok in Hwt as [-> Hwt].
  cbv zeta in H.
  apply M_bind_Ok in H as (? & w2 & ->%assert_weights_Ok & H).
  apply M_bind_Ok in H as (? & w2 & ->%assert_weights_Ok & H).
  apply M_bind_Ok in H as (nt & w2 & [-> Hnt]%getattr_Ok & H).
  apply M_bind_Ok in H as (acc & w2 & Hloop & H).
  apply M_bind_Ok in H as (ts & w3 & [-> Hts]%getattr_Ok & H).
  apply M_bind_Ok in H as (? & w3 & ->%setattr_run & H).
  injection H as <- <-. simpl. split; [done|]. split; [done|].
  unfold range in Hloop.
  pose proof (uplift_loop _ _ _ _ _ _ _ _ _ _ _ Hloop)
    as (Hs & qs & es & Hqs & _ & Lq & _).
  simpl in Hqs. rewrite Hs in Hts.
  assert (fit_attributes (self w1)) as Hinv1.
  { destruct (treatments (self w)) as [ts0|] eqn:Hts0.
    - through Hens.
      apply (via_stable (λ s, fit_attributes s ∧ is_Some (treatments s)));
        [|by split; [|exists ts0]|by intros s [? _]].
      apply stable_ensure_cate_preds_both; fitted_frame.
    - assert (cate_preds_val_ (self w) = None) as Hv.
      { unfold fit_attributes in Hinv. rewrite Hts0 in Hinv. tauto. }
      destruct (ensure_cate_preds_both_unfitted Xval Xtrain w Hts0 Hv)
        as [e He].
      by rewrite He in Hens. }
  unfold fit_attributes in Hinv1. rewrite Hts in Hinv1.
  destruct Hinv1 as (Hsorted & Hnt' & _). rewrite Hnt in Hnt'.
  injection Hnt' as ->.
  assert (Z.to_nat (Z.of_nat (length ts) - 1) = (length ts - 1)%nat) as Ent
    by lia.
  rewrite Ent in *. split; [|by rewrite Hqs].
  rewrite (uplift_keys _ _ _ _ _ ts _ _ _ _ _ _ Hts
             (StronglySorted_lt_NoDup_drop _ Hsorted) Hloop eq_refl).
  apply take_ge. rewrite length_drop. lia.
Qed.

(** ** Default weights *)

Lemma default_weights_ones name (proj : DRTester → option ndarray)
    (a : ndarray) (n : nat) (w : world) :
  proj (self w) = Some a → shape0 a = Ok n →
  default_weights name proj None w
  = default_weights name proj (Some (np_ones n)) w.
Proof.
  intros Ha Hn. unfold default_weights.
  rewrite (bind_getattr _ _ _ _ _ Ha), bind_lift, Hn. done.
Qed.

(** X17.  A test that is given no weights works with a weight of one for
    every row of the cached predictions: on an object that holds the
    predictions of both samples, each test returns what it returns when it
    is given vectors of ones of these lengths. *)
Theorem default_weights_are_ones Xval Xtrain n_groups pct metric nb
    (av at_ : ndarray) (nv ntr : nat) (w : world) :
  cate_preds_val_ (self w) = Some av → shape0 av = Ok nv →
  evaluate_blp Xval Xtrain None w
    = evaluate_blp Xval Xtrain (Some (np_ones nv)) w ∧
  (cate_preds_train_ (self w) = Some at_ → shape0 at_ = Ok ntr →
   evaluate_cal Xval Xtrain n_groups None None w
     = evaluate_cal Xval Xtrain n_groups
         (Some (np_ones nv)) (Some (np_ones ntr)) w ∧
   evaluate_uplift Xval Xtrain pct metric nb None None w
     = evaluate_uplift Xval Xtrain pct metric nb
         (Some (np_ones nv)) (Some (np_ones ntr)) w ∧
   evaluate_all Xval Xtrain n_groups nb None None w
     = evaluate_all Xval Xtrain n_groups nb
         (Some (np_ones nv)) (Some (np_ones ntr)) w).
Proof.
  intros Hv Hnv.
  assert (is_Some (cate_preds_val_ (self w))) as Hv' by (by rewrite Hv; eauto).
  split.
  - unfold evaluate_blp. rewrite !bind_hasattr.
    destruct (negb _); [done|]. rewrite !bind_hasattr.
    rewrite (bool_decide_true _ Hv'). cbn [negb]. rewrite !bind_ret.
    rewrite !M_bind_run.
    by rewrite (default_weights_ones _ _ _ _ _ Hv Hnv).
  - intros Ht Hnt.
    assert (is_Some (cate_preds_train_ (self w))) as Ht'
      by (by rewrite Ht; eauto).
    split; [|split].
    + unfold evaluate_cal. rewrite !bind_hasattr. destruct (negb _); [done|].
      rewrite !(bind_run_Ok _ _ _ _ _
                  (ensure_cate_preds_both_cached _ _ _ Hv' Ht')).
      rewrite !(M_bind_run (default_weights _ _ _)).
      rewrite (default_weights_ones _ _ _ _ _ Ht Hnt).
      rewrite !default_weights_Some.
      rewrite !(M_bind_run (default_weights _ _ _)).
      by rewrite (default_weights_ones _ _ _ _ _ Hv Hnv).
    + unfold evaluate_uplift. rewrite !bind_hasattr. destruct (negb _); [done|].
      rewrite !(bind_run_Ok _ _ _ _ _
                  (ensure_cate_preds_both_cached _ _ _ Hv' Ht')).
      rewrite !(M_bind_run (default_weights _ _ _)).
      rewrite (default_weights_ones _ _ _ _ _ Hv Hnv).
      rewrite !default_weights_Some.
      rewrite !(M_bind_run (default_weights _ _ _)).
      by rewrite (default_weights_ones _ _ _ _ _ Ht Hnt).
    + unfold evaluate_all.
      rewrite !(bind_run_Ok _ _ _ _ _
                  (ensure_cate_preds_both_cached _ _ _ Hv' Ht')).
      rewrite !(M_bind_run (default_weights _ _ _)).
      rewrite (default_weights_ones _ _ _ _ _ Hv Hnv).
      rewrite !default_weights_Some.
      rewrite !(M_bind_run (default_weights _ _ _)).
      by rewrite (default_weights_ones _ _ _ _ _ Ht Hnt).
Qed.

(** ** Which weights a fit uses *)

(** X18.  [fit_nuisance] with training data uses the validation weights
    for the average treatment effects only: the treatments, both matrices
    of DR outcomes and the propensity model are the same for any two
    vectors of validation weights.  Without training data it does not look
    at the training weights at all. *)
Theorem validation_weights_enter_the_ate_only Xval Dv yval Xtrain Dtrain
    ytrain Xt Dt yt swv swv' swt swt' (w : world) :
  (let s1 := self (fit_nuisance Xval Dv yval (Some Xtrain) (Some Dtrain)
                     (Some ytrain) swv swt w).2 in
   let s2 := self (fit_nuisance Xval Dv yval (Some Xtrain) (Some Dtrain)
                     (Some ytrain) swv' swt w).2 in
   treatments s1 = treatments s2 ∧ n_treat s1 = n_treat s2 ∧
   dr_val_ s1 = dr_val_ s2 ∧ dr_train_ s1 = dr_train_ s2 ∧
   model_propensity_ s1 = model_propensity_ s2) ∧
  (Xt = None ∨ Dt = None ∨ yt = None →
   fit_nuisance Xval Dv yval Xt Dt yt swv swt w
     = fit_nuisance Xval Dv yval Xt Dt yt swv swt' w).
Proof.
  split; [|by destruct Xt, Dt, yt; intros [?|[?|?]]]. intros s1 s2. subst s1 s2. unfold fit_nuisance.
  rewrite !bind_setattr.
  erewrite !bind_getattr by reflexivity. rewrite !bind_setattr.
  match goal with |- context [(?m ≫= _) ?w0] =>
    set (prefix := m); set (w1 := w0) end.
  set (P := λ s, treatments s = treatments (self (prefix w1).2) ∧
                 n_treat s = n_treat (self (prefix w1).2) ∧
                 dr_val_ s = dr_val_ (self (prefix w1).2) ∧
                 dr_train_ s = dr_train_ (self (prefix w1).2) ∧
                 model_propensity_ s = model_propensity_ (self (prefix w1).2)).
  assert (∀ sw, P (self ((prefix ≫= (λ _,
              dr_val ← getattr "dr_val_" dr_val_;
              ate ← lift (np_average_axis0 dr_val sw);
              setattr (set_ate_val ate))) w1).2)) as H.
  { intros sw. rewrite M_bind_run.
    destruct (prefix w1) as [[[]|e] w2] eqn:E; simpl; [|done].
    match goal with |- P (self (?m w2).2) =>
      assert (stable P m) as Hst; [stable_auto; by intros|] end.
    by apply Hst. }
  destruct (H swv) as (A1 & A2 & A3 & A4 & A5).
  destruct (H swv') as (B1 & B2 & B3 & B4 & B5).
  repeat split; congruence.
Qed.

(** ** The cross-fitted regression predictions *)

Lemma nd_get_cell (c : nat) (rows : list (list npfloat)) (i j : nat)
    (x : npfloat) :
  cell rows i j = Some x → nd_get (A2 c rows) i j = Ok x.
Proof.
  unfold cell, nd_get, index. destruct (rows !! i) as [r|]; simpl; [|done].
  by intros ->.
Qed.

Lemma cell_alter_insert (rows : list (list npfloat)) (i0 k : nat) (v : npfloat)
    (i j : nat) :
  cell (alter (<[k := v]>) i0 rows) i j =
  if decide (i = i0 ∧ j = k ∧ is_Some (cell rows i j)) then Some v
  else cell rows i j.
Proof.
  unfold cell. destruct (decide (i = i0)) as [->|Hi].
  - rewrite list_lookup_alter_eq. destruct (rows !! i0) as [r|]; simpl.
    + destruct (decide (j = k)) as [->|Hj].
      * destruct (r !! k) as [x|] eqn:Ek.
        -- rewrite decide_True by eauto.
           apply list_lookup_insert_eq, (lookup_lt_Some _ _ _ Ek).
        -- rewrite decide_False by (intros (_ & _ & [? ?]); done).
           apply lookup_ge_None. rewrite length_insert.
           by apply lookup_ge_None.
      * rewrite decide_False by tauto. by apply list_lookup_insert_ne.
    + rewrite decide_False; [done|]. by intros (_ & _ & [? ?]).
  - rewrite list_lookup_alter_ne by done. by rewrite decide_False by tauto.
Qed.

Lemma assign_cells (k : nat) (idx : list nat) (vals : list npfloat)
    (rows : list (list npfloat)) :
  length vals = length idx → NoDup idx →
  (∀ i, i ∈ idx → is_Some (cell rows i k)) →
  let rows' :=
    fold_left (λ rows (iv : nat * npfloat), alter (<[k := iv.2]>) iv.1 rows)
      (zip idx vals) rows in
  length rows' = length rows ∧
  (∀ i j, is_Some (cell rows' i j) ↔ is_Some (cell rows i j)) ∧
  (∀ i j, i ∉ idx ∨ j ≠ k → cell rows' i j = cell rows i j) ∧
  (∀ p i, idx !! p = Some i → cell rows' i k = vals !! p).
Proof.
  revert vals rows.
  induction idx as [|i0 idx IH]; intros [|v0 vals] rows; simpl; try done.
  intros [= Hlen] [Hi0 Hnd]%NoDup_cons Hin.
  set (rows1 := alter (<[k := v0]>) i0 rows).
  assert (∀ i j, is_Some (cell rows1 i j) ↔ is_Some (cell rows i j)) as Hsome.
  { intros i j. unfold rows1. rewrite cell_alter_insert.
    destruct (decide _) as [(-> & -> & ?)|]; [|done]. split; by eauto. }
  destruct (IH vals rows1 Hlen Hnd) as (L & S & Hout & Hins).
  { intros i Hi. apply Hsome, Hin. by right. }
  split; [by rewrite L; unfold rows1; rewrite length_alter|].
  split; [intros i j; by rewrite S|]. split.
  - intros i j Hij. rewrite Hout.
    + unfold rows1. rewrite cell_alter_insert.
      rewrite decide_False; [done|].
      intros (-> & -> & _). destruct Hij as [Hij|Hij]; [|done].
      apply Hij. by left.
    + destruct Hij as [Hij|Hij]; [left|by right].
      intros ?. apply Hij. by right.
  - intros [|p] i; simpl.
    + intros [= <-]. rewrite Hout by (by left).
      unfold rows1. rewrite cell_alter_insert.
      rewrite decide_True; [done|]. split; [done|]. split; [done|].
      apply Hin. by left.
    + apply Hins.
Qed.

Lemma nd_assign_cells (c : nat) (rows : list (list npfloat)) (idx : list nat)
    (k : nat) (vals : list npfloat) (reg : ndarray) (n : nat) :
  nd_assign (A2 c rows) idx k vals = Ok reg →
  length vals = length idx → NoDup idx → length rows = n →
  (∀ i j, is_Some (cell rows i j) ↔ (i < n)%nat ∧ (j < c)%nat) →
  ∃ rows', reg = A2 c rows' ∧ length rows' = n ∧
    (∀ i j, is_Some (cell rows' i j) ↔ (i < n)%nat ∧ (j < c)%nat) ∧
    (∀ i j, i ∉ idx ∨ j ≠ k → cell rows' i j = cell rows i j) ∧
    (∀ p i, idx !! p = Some i → cell rows' i k = vals !! p).
Proof.
  unfold nd_assign. intros H Hlen Hnd Hn Hinv.
  destruct (k <? c)%nat eqn:Ek; simpl in H; [|done].
  apply Nat.ltb_lt in Ek.
  destruct (forallb _ idx) eqn:Eidx; simpl in H; [|done].
  unfold broadcast_to in H. rewrite Hlen, Nat.eqb_refl in H. simpl in H.
  injection H as <-.
  destruct (assign_cells k idx vals rows Hlen Hnd) as (L & S & Hout & Hins).
  { intros i Hi. apply Hinv. split; [|done].
    rewrite forallb_forall in Eidx. rewrite <- Hn.
    apply Nat.ltb_lt, Eidx. by apply list_elem_of_In. }
  eexists. split; [reflexivity|]. split; [by rewrite L|].
  split; [|by split].
  intros i j. by rewrite S.
Qed.

Lemma take_at_length {A} (v : list A) (idx : list nat) (x : list A) :
  take_at v idx = Ok x → length x = length idx.
Proof. apply mapM_Ok_length. Qed.

Lemma cv_fold_Ok X D (y wts : list npfloat) (ts : list Z) (k c n : nat)
    (rows : list (list npfloat)) (train test : list nat) (reg : ndarray) :
  (∀ Xtr ytr wtr Xte,
     length (regression_fit_predict Xtr ytr wtr Xte) = length Xte) →
  (Xtr ← take_at X train;
   Dtr ← take_at D train;
   treatments ← attr "treatments" (Some ts);
   arm ← index treatments k;
   ytr ← take_at y train;
   wtr ← take_at wts train;
   Xte ← take_at X test;
   preds ← fit_arm Xtr Dtr ytr wtr arm Xte;
   nd_assign (A2 c rows) test k preds) = Ok reg →
  NoDup test → length rows = n →
  (∀ i j, is_Some (cell rows i j) ↔ (i < n)%nat ∧ (j < c)%nat) →
  ∃ rows', reg = A2 c rows' ∧ length rows' = n ∧
    (∀ i j, is_Some (cell rows' i j) ↔ (i < n)%nat ∧ (j < c)%nat) ∧
    (∀ i j, i ∉ test ∨ j ≠ k → cell rows' i j = cell rows i j) ∧
    (∀ p i, test !! p = Some i →
       ∃ pred, fold_prediction X D y wts ts k train test p pred ∧
               cell rows' i k = Some pred).
Proof.
  intros Hreg H Hnd Hn Hinv.
  apply result_bind_Ok in H as (Xtr & HXtr & H).
  apply result_bind_Ok in H as (Dtr & HDtr & H). simpl in H.
  apply result_bind_Ok in H as (arm & Harm & H).
  apply result_bind_Ok in H as (ytr & Hytr & H).
  apply result_bind_Ok in H as (wtr & Hwtr & H).
  apply result_bind_Ok in H as (Xte & HXte & H).
  apply result_bind_Ok in H as (preds & ->%fit_arm_Ok & H).
  pose proof (take_at_length _ _ _ HXte) as Lte.
  apply (nd_assign_cells _ _ _ _ _ _ n) in H
    as (rows' & -> & L & S & Hout & Hins); [|by rewrite Hreg|done..].
  exists rows'. split; [done|]. split; [done|]. split; [done|].
  split; [done|]. intros p i Hp.
  destruct (lookup_lt_is_Some_2
              (regression_fit_predict
                 (select (map (λ d, d =? arm) Dtr) Xtr)
                 (select (map (λ d, d =? arm) Dtr) ytr)
                 (select (map (λ d, d =? arm) Dtr) wtr) Xte) p)
    as [pred Hpred].
  { rewrite Hreg, Lte. by apply (lookup_lt_Some _ _ _ Hp). }
  exists pred. split; [|by rewrite (Hins p i Hp)].
  exists arm, Xtr, Dtr, ytr, wtr, Xte. repeat split; try done.
  unfold index in Harm. by destruct (ts !! k); [injection Harm as ->|].
Qed.

Lemma cv_folds_Ok X D (y wts : list npfloat) (ts : list Z) (k c n : nat)
    (fs : list (list nat * list nat)) (rows : list (list npfloat))
    (reg : ndarray) :
  (∀ Xtr ytr wtr Xte,
     length (regression_fit_predict Xtr ytr wtr Xte) = length Xte) →
  foldM (λ reg_preds (fold : list nat * list nat),
      let (train, test) := fold in
      Xtr ← take_at X train;
      Dtr ← take_at D train;
      treatments ← attr "treatments" (Some ts);
      arm ← index treatments k;
      ytr ← take_at y train;
      wtr ← take_at wts train;
      Xte ← take_at X test;
      preds ← fit_arm Xtr Dtr ytr wtr arm Xte;
      nd_assign reg_preds test k preds)
    (A2 c rows) fs = Ok reg →
  NoDup (concat (map snd fs)) → length rows = n →
  (∀ i j, is_Some (cell rows i j) ↔ (i < n)%nat ∧ (j < c)%nat) →
  ∃ rows', reg = A2 c rows' ∧ length rows' = n ∧
    (∀ i j, is_Some (cell rows' i j) ↔ (i < n)%nat ∧ (j < c)%nat) ∧
    (∀ i j, i ∉ concat (map snd fs) ∨ j ≠ k →
       cell rows' i j = cell rows i j) ∧
    (∀ f train test p i, fs !! f = Some (train, test) → test !! p = Some i →
       ∃ pred, fold_prediction X D y wts ts k train test p pred ∧
               cell rows' i k = Some pred).
Proof.
  intros Hreg. revert rows.
  induction fs as [|[train test] fs IH]; intros rows; simpl.
  - intros [= <-] _ Hn Hinv. exists rows. split; [done|]. split; [done|].
    split; [done|]. split; [done|]. by intros f train test p i.
  - intros (reg1 & H1 & H)%result_bind_Ok Hnd Hn Hinv.
    apply NoDup_app in Hnd as (Hnd1 & Hdisj & Hnd2).
    apply (cv_fold_Ok _ _ _ _ _ _ _ n) in H1
      as (rows1 & -> & L1 & S1 & Hout1 & Hin1); [|done..].
    apply IH in H as (rows' & -> & L & S & Hout & Hin); [|done..].
    exists rows'. split; [done|]. split; [done|]. split; [done|]. split.
    + intros i j Hij. rewrite Hout, Hout1; [done| |].
      * destruct Hij as [Hij|Hij]; [left|by right].
        intros ?. apply Hij, elem_of_app. by left.
      * destruct Hij as [Hij|Hij]; [left|by right].
        intros ?. apply Hij, elem_of_app. by right.
    + intros [|f] train' test' p i; simpl.
      * intros [= <- <-] Hp. destruct (Hin1 p i Hp) as (pred & Hpred & Hc).
        exists pred. split; [done|]. rewrite Hout; [done|]. left.
        apply Hdisj. by apply list_elem_of_lookup_2 in Hp.
      * intros Hf Hp. by apply (Hin f train' test' p i).
Qed.

Lemma cv_arms_Ok X D (y wts : list npfloat) (ts : list Z) (c n : nat)
    (fs : list (list nat * list nat)) (m a : nat)
    (rows : list (list npfloat)) (reg : ndarray) :
  (∀ Xtr ytr wtr Xte,
     length (regression_fit_predict Xtr ytr wtr Xte) = length Xte) →
  foldM (λ reg_preds k,
      foldM (λ reg_preds (fold : list nat * list nat),
          let (train, test) := fold in
          Xtr ← take_at X train;
          Dtr ← take_at D train;
          treatments ← attr "treatments" (Some ts);
          arm ← index treatments k;
          ytr ← take_at y train;
          wtr ← take_at wts train;
          Xte ← take_at X test;
          preds ← fit_arm Xtr Dtr ytr wtr arm Xte;
          nd_assign reg_preds test k preds)
        reg_preds fs)
    (A2 c rows) (seq a m) = Ok reg →
  NoDup (concat (map snd fs)) → length rows = n →
  (∀ i j, is_Some (cell rows i j) ↔ (i < n)%nat ∧ (j < c)%nat) →
  ∃ rows', reg = A2 c rows' ∧ length rows' = n ∧
    (∀ i j, is_Some (cell rows' i j) ↔ (i < n)%nat ∧ (j < c)%nat) ∧
    (∀ i j, i ∉ concat (map snd fs) ∨ (j < a ∨ a + m ≤ j)%nat →
       cell rows' i j = cell rows i j) ∧
    (∀ k f train test p i, (a ≤ k < a + m)%nat →
       fs !! f = Some (train, test) → test !! p = Some i →
       ∃ pred, fold_prediction X D y wts ts k train test p pred ∧
               cell rows' i k = Some pred).
Proof.
  intros Hreg. revert a rows.
  induction m as [|m IH]; intros a rows; simpl.
  - intros [= <-] _ Hn Hinv. exists rows. split; [done|]. split; [done|].
    split; [done|]. split; [done|]. intros; lia.
  - intros (reg1 & H1 & H)%result_bind_Ok Hnd Hn Hinv.
    apply (cv_folds_Ok _ _ _ _ _ _ _ n) in H1
      as (rows1 & -> & L1 & S1 & Hout1 & Hin1); [|done..].
    apply IH in H as (rows' & -> & L & S & Hout & Hin); [|done..].
    exists rows'. split; [done|]. split; [done|]. split; [done|]. split.
    + intros i j Hij. rewrite Hout, Hout1; [done| |].
      * destruct Hij as [Hij|Hij]; [by left|right; lia].
      * destruct Hij as [Hij|Hij]; [by left|right; lia].
    + intros k f train test p i Hk Hf Hp.
      destruct (decide (k = a)) as [->|Hne].
      * destruct (Hin1 f train test p i Hf Hp) as (pred & Hpred & Hc).
        exists pred. split; [done|]. rewrite Hout; [done|]. right. lia.
      * apply (Hin k f train test p i); [lia|done..].
Qed.

Lemma get_cv_splits_Ok X T (w w1 : world) splits :
  get_cv_splits X T w = (Ok splits, w1) →
  ∃ sp, cv_splitter (self w1) = Some sp ∧ splits = split sp X T ∧
    sp = default check_cv (cv_splitter (self w)) ∧
    n_treat (self w1) = n_treat (self w) ∧
    treatments (self w1) = treatments (self w).
Proof.
  unfold get_cv_splits, get_cv_splitter. rewrite bind_hasattr.
  destruct (cv_splitter (self w)) as [sp|] eqn:Esp.
  - rewrite bool_decide_true by eauto. rewrite bind_ret.
    rewrite (bind_getattr _ _ _ _ _ Esp). intros [= <- <-].
    exists sp. by rewrite Esp.
  - rewrite bool_decide_false by (by intros [? ?]). rewrite bind_setattr.
    erewrite bind_getattr by reflexivity. intros [= <- <-].
    exists check_cv. by simpl.
Qed.

Lemma cell_zeros (n c i j : nat) :
  cell (replicate n (replicate c f0)) i j =
  if decide ((i < n)%nat ∧ (j < c)%nat) then Some f0 else None.
Proof.
  unfold cell. destruct (decide (i < n)%nat) as [Hi|Hi].
  - rewrite lookup_replicate_2 by done.
    destruct (decide (j < c)%nat) as [Hj|Hj].
    + rewrite decide_True by done. by apply lookup_replicate_2.
    + rewrite decide_False by tauto. apply lookup_ge_None.
      rewrite length_replicate. lia.
  - rewrite decide_False by tauto.
    rewrite (proj2 (lookup_ge_None _ _)); [done|].
    rewrite length_replicate. lia.
Qed.

Lemma foldM_invariant {A B} (P : A → Prop) (f : A → B → result A) (acc : A)
    (xs : list B) (out : A) :
  (∀ a b a', P a → f a b = Ok a' → P a') → P acc →
  foldM f acc xs = Ok out → P out.
Proof.
  intros Hf. revert acc. induction xs as [|x xs IH]; intros acc Hacc; simpl.
  - by intros [= <-].
  - intros (acc1 & H1 & H)%result_bind_Ok. eapply IH; [|exact H]. eauto.
Qed.

Lemma nd_assign_shape (a : ndarray) (idx : list nat) (k : nat)
    (vals : list npfloat) (reg : ndarray) :
  nd_assign a idx k vals = Ok reg → shape reg = shape a.
Proof.
  unfold nd_assign. destruct a as [| |c rows]; try done.
  destruct (_ || _); [done|]. intros (vals' & _ & H)%result_bind_Ok.
  injection H as <-. simpl. f_equal.
  generalize (zip idx vals'). intros l. revert rows.
  induction l as [|iv l IH]; intros rows; simpl; [done|].
  by rewrite IH, length_alter.
Qed.

Lemma cv_unfitted X D (y wts : list npfloat)
    (fs : list (list nat * list nat)) (m a : nat) (init reg : ndarray) :
  foldM (λ reg_preds k,
      foldM (λ reg_preds (fold : list nat * list nat),
          let (train, test) := fold in
          Xtr ← take_at X train;
          Dtr ← take_at D train;
          treatments ← attr "treatments" (@None (list Z));
          arm ← index treatments k;
          ytr ← take_at y train;
          wtr ← take_at wts train;
          Xte ← take_at X test;
          preds ← fit_arm Xtr Dtr ytr wtr arm Xte;
          nd_assign reg_preds test k preds)
        reg_preds fs)
    init (seq a m) = Ok reg →
  reg = init ∧ (m = 0%nat ∨ fs = []).
Proof.
  revert a. induction m as [|m IH]; intros a; simpl.
  - intros [= <-]. by eauto.
  - destruct fs as [|[train test] fs]; simpl.
    + intros [-> _]%IH. by eauto.
    + destruct (take_at X train); simpl; [|done].
      by destruct (take_at D train).
Qed.

(** X19.  [fit_nuisance_cv] predicts every unit out of fold.  With the
    folds of the splitter of the object (built when there is none), whose
    test rows do not repeat, the regression predictions have one row per
    unit and one column per treatment, the control included; the entry of
    column [k] for a unit in the test rows of a fold is the prediction of
    the regression fitted for [treatments[k]] on the training rows of that
    fold alone, and the entry for a unit in no test rows is the zero the
    matrix was created with.  The propensities are those of
    [cross_val_predict] on the same folds.  The regression is taken to
    return one prediction per row. *)
Theorem cross_fitted_predictions X D y sw (w w' : world)
    (reg prop : ndarray) :
  (∀ Xtr ytr wtr Xte,
     length (regression_fit_predict Xtr ytr wtr Xte) = length Xte) →
  fit_nuisance_cv X D y sw w = (Ok (reg, prop), w') →
  let wts := default (np_ones (length X)) sw in
  let sp := default check_cv (cv_splitter (self w)) in
  let folds := split sp X D in
  cv_splitter (self w') = Some sp ∧
  prop = cross_val_predict_proba X D folds ∧
  ∃ nt, n_treat (self w) = Some nt ∧
    shape reg = [length X; Z.to_nat (nt + 1)] ∧
    (NoDup (concat (map snd folds)) →
     ∀ k, (k < Z.to_nat (nt + 1))%nat →
       (∀ i, (i < length X)%nat → i ∉ concat (map snd folds) →
          nd_get reg i k = Ok f0) ∧
       (∀ f train test p i,
          folds !! f = Some (train, test) → test !! p = Some i →
          ∃ ts pred, treatments (self w) = Some ts ∧
            fold_prediction X D y wts ts k train test p pred ∧
            nd_get reg i k = Ok pred)).
Proof.
  intros Hreg H wts sp folds. unfold fit_nuisance_cv in H. fold wts in H.
  apply M_bind_Ok in H as (splits & w1 & Hsplits & H).
  apply get_cv_splits_Ok in Hsplits as (sp' & Hsp & -> & -> & Hnt1 & Hts1).
  fold sp folds in H, Hsp.
  apply M_bind_Ok in H as (nt & w2 & [-> Hnt]%getattr_Ok & H).
  apply M_bind_Ok in H as (? & w2 & Hchk & H).
  assert (w2 = w1) as ->.
  { destruct (nt + 1 <? 0); [done|]. by injection Hchk as _ <-. }
  clear Hchk.
  apply M_bind_Ok in H as (s & w2 & Hs & H). injection Hs as <- <-.
  apply M_bind_Ok in H as (reg' & w2 & [-> Hloop]%lift_Ok & H).
  injection H as <- <- <-.
  split; [done|]. split; [done|]. exists nt. rewrite <- Hnt1.
  split; [done|].
  unfold range, np_zeros2 in Hloop. rewrite Hts1 in Hloop.
  set (c := Z.to_nat (nt + 1)) in *.
  set (rows0 := replicate (length X) (replicate c f0)) in *.
  assert (∀ i j, is_Some (cell rows0 i j) ↔ (i < length X)%nat ∧ (j < c)%nat)
    as Hinv0.
  { intros i j. unfold rows0. rewrite cell_zeros.
    destruct (decide _) as [Hd|Hd].
    - split; [done|by eauto].
    - split; [by intros [? ?]|tauto]. }
  assert (shape reg' = [length X; c]) as Hshape.
  { apply (foldM_invariant (λ r, shape r = [length X; c])) in Hloop;
      [done| |by unfold rows0; simpl; rewrite length_replicate].
    intros r k r' Hr.
    apply (foldM_invariant (λ r, shape r = [length X; c])); [|done].
    intros r1 [train test] r2 Hr1 Hbody.
    apply result_bind_Ok in Hbody as (? & _ & Hbody).
    apply result_bind_Ok in Hbody as (? & _ & Hbody).
    apply result_bind_Ok in Hbody as (? & _ & Hbody).
    apply result_bind_Ok in Hbody as (? & _ & Hbody).
    apply result_bind_Ok in Hbody as (? & _ & Hbody).
    apply result_bind_Ok in Hbody as (? & _ & Hbody).
    apply result_bind_Ok in Hbody as (? & _ & Hbody).
    apply result_bind_Ok in Hbody as (? & _ & Hbody).
    by rewrite (nd_assign_shape _ _ _ _ _ Hbody). }
  split; [done|]. intros Hnd k Hk.
  destruct (treatments (self w)) as [ts|] eqn:Hts.
  - apply (cv_arms_Ok _ _ _ _ _ _ (length X)) in Hloop
      as (rows' & -> & L & S & Hout & Hin);
      [|done|done|by unfold rows0; rewrite length_replicate|done].
    split.
    + intros i Hi Hni. apply nd_get_cell. rewrite Hout by (by left).
      unfold rows0. rewrite cell_zeros. by rewrite decide_True.
    + intros f train test p i Hf Hp.
      destruct (Hin k f train test p i ltac:(lia) Hf Hp)
        as (pred & Hpred & Hc).
      exists ts, pred. split; [done|]. split; [done|].
      by apply nd_get_cell.
  - apply cv_unfitted in Hloop as [-> [Hc|Hfs]]; [lia|].
    split.
    + intros i Hi Hni. apply nd_get_cell. unfold rows0.
      rewrite cell_zeros. by rewrite decide_True.
    + intros f train test p i Hf. by rewrite Hfs in Hf.
Qed.

(** ** The masses of the bins *)

Lemma wrap64_small (z : Z) : INT64_MIN ≤ z ≤ INT64_MAX → wrap64 z = z.
Proof.
  destruct int64_bounds as [-> ->]. intros Hz. unfold wrap64.
  assert (2 ^ 63 = 9223372036854775808) as -> by reflexivity.
  assert (2 ^ 64 = 18446744073709551616) as -> by reflexivity.
  rewrite Z.mod_small; lia.
Qed.

Lemma sumZ_select_bounds (mask : list bool) (l : list Z) :
  (∀ z, z ∈ l → 0 ≤ z) → 0 ≤ sumZ (select mask l) ≤ sumZ l.
Proof.
  revert mask. induction l as [|z l IH]; intros mask Hl.
  - destruct mask; simpl; lia.
  - assert (0 ≤ z) as Hz by (apply Hl; by left).
    assert (∀ z', z' ∈ l → 0 ≤ z') as Hl' by (intros; apply Hl; by right).
    destruct mask as [|[|] mask]; simpl.
    + specialize (IH [] Hl'). destruct l; simpl in *; lia.
    + specialize (IH mask Hl'). lia.
    + specialize (IH mask Hl'). lia.
Qed.

Lemma np_sum_int_exact (l : list Z) :
  (∀ z, z ∈ l → 0 ≤ z) → sumZ l ≤ INT64_MAX → np_sum_int l = sumZ l.
Proof.
  unfold np_sum_int.
  assert (∀ acc, 0 ≤ acc → (∀ z, z ∈ l → 0 ≤ z) →
            acc + sumZ l ≤ INT64_MAX →
            fold_left (λ a b, wrap64 (a + b)) l acc = acc + sumZ l) as H.
  { induction l as [|z l IH]; intros acc Hacc Hl Hmax; simpl; [lia|].
    assert (0 ≤ z) as Hz by (apply Hl; by left).
    assert (∀ z', z' ∈ l → 0 ≤ z') as Hl' by (intros; apply Hl; by right).
    pose proof (sumZ_select_bounds [] l Hl') as Hs.
    assert (0 ≤ sumZ l) as Hs'.
    { clear -Hl'. induction l as [|z' l IH]; simpl; [lia|].
      assert (0 ≤ z') by (apply Hl'; by left).
      assert (0 ≤ sumZ l) by (apply IH; intros; apply Hl'; by right). lia. }
    simpl in Hmax. destruct int64_bounds as [Emin Emax].
    rewrite wrap64_small by (rewrite Emin; lia).
    rewrite IH; [lia|lia|done|lia]. }
  intros Hl Hmax. rewrite H; [lia|lia|done|lia].
Qed.

Lemma select_no_member {A} (mask : list bool) (l : list A) :
  np_any mask = false → select mask l = [].
Proof.
  revert l. induction mask as [|[|] mask IH]; intros [|z l]; simpl; try done.
  apply IH.
Qed.

Lemma sumZ_map_add {A} (f g : A → Z) (l : list A) :
  sumZ (map (λ i, f i + g i) l) = sumZ (map f l) + sumZ (map g l).
Proof. induction l as [|i l IH]; simpl; lia. Qed.

Lemma sumZ_map_zero {A} (l : list A) : sumZ (map (λ _, 0) l) = 0.
Proof. induction l as [|i l IH]; simpl; lia. Qed.

Lemma sumZ_no_hit (p : nat → bool) (z : Z) (l : list nat) :
  (∀ i, i ∈ l → p i = false) →
  sumZ (map (λ i, if p i then z else 0) l) = 0.
Proof.
  induction l as [|i l IH]; intros Hl; simpl; [done|].
  rewrite (Hl i) by (by left). rewrite IH; [done|].
  intros j Hj. apply Hl. by right.
Qed.

Lemma sumZ_one_hit (p : nat → bool) (z : Z) (l : list nat) (i0 : nat) :
  NoDup l → i0 ∈ l → p i0 = true → (∀ i, i ∈ l → p i = true → i = i0) →
  sumZ (map (λ i, if p i then z else 0) l) = z.
Proof.
  induction l as [|i l IH]; intros Hnd Hin Hp Huniq; simpl.
  - by apply elem_of_nil in Hin.
  - apply NoDup_cons in Hnd as [Hi Hnd].
    apply elem_of_cons in Hin as [<-|Hin].
    + rewrite Hp, sumZ_no_hit; [lia|]. intros j Hj.
      destruct (p j) eqn:Ej; [|done].
      rewrite (Huniq j) in Hj; [done|by right|done].
    + destruct (p i) eqn:Ei.
      * rewrite (Huniq i) in Hi; [done|by left|done].
      * rewrite IH; [lia|done..|]. intros j Hj. apply Huniq. by right.
Qed.

Lemma bins_exchange (inb : nat → npfloat → bool) (cov : npfloat → bool)
    (l : list nat) (preds : list npfloat) (wv : list Z) :
  NoDup l →
  (∀ x, x ∈ preds →
     if cov x then
       ∃ i0, i0 ∈ l ∧ inb i0 x = true ∧ ∀ i, i ∈ l → inb i x = true → i = i0
     else ∀ i, i ∈ l → inb i x = false) →
  sumZ (map (λ i, sumZ (select (map (inb i) preds) wv)) l)
  = sumZ (select (map cov preds) wv).
Proof.
  intros Hnd. revert wv. induction preds as [|x ps IH]; intros wv Hcov.
  - simpl. apply sumZ_map_zero.
  - destruct wv as [|z ws].
    + simpl. apply sumZ_map_zero.
    + assert (∀ i, sumZ (select (map (inb i) (x :: ps)) (z :: ws))
                   = (if inb i x then z else 0)
                     + sumZ (select (map (inb i) ps) ws)) as E.
      { intros i. simpl. by destruct (inb i x). }
      assert (map (λ i, sumZ (select (map (inb i) (x :: ps)) (z :: ws))) l
              = map (λ i, (if inb i x then z else 0)
                          + sumZ (select (map (inb i) ps) ws)) l) as ->
        by (apply list_fmap_ext; intros ? i _; apply E).
      rewrite (sumZ_map_add (λ i, if inb i x then z else 0)
                 (λ i, sumZ (select (map (inb i) ps) ws))).
      rewrite IH by (intros x' Hx'; apply Hcov; by right).
      specialize (Hcov x ltac:(by left)). simpl.
      destruct (cov x).
      * destruct Hcov as (i0 & Hi0 & Hp & Huniq).
        rewrite (sumZ_one_hit (λ i, inb i x) z l i0) by done. done.
      * rewrite (sumZ_no_hit (λ i, inb i x) z l) by done. done.
Qed.

Lemma np_sum_Fin (qs : list Q) :
  np_sum (map Fin qs) = Fin (fold_left Qplus qs 0%Q).
Proof.
  unfold np_sum, f0. generalize 0%Q.
  induction qs as [|q qs IH]; intros a; simpl; [done|]. apply IH.
Qed.

Lemma Qsum_scaled (qs : list Q) (zs : list Z) (W : Q) :
  Forall2 (λ q z, (q * W == inject_Z z)%Q) qs zs →
  (fold_left Qplus qs 0 * W == inject_Z (sumZ zs))%Q.
Proof.
  assert (∀ a b, (a * W == inject_Z b)%Q →
            Forall2 (λ q z, (q * W == inject_Z z)%Q) qs zs →
            (fold_left Qplus qs a * W == inject_Z (b + sumZ zs))%Q) as H.
  { revert zs. induction qs as [|q qs IH]; intros zs a b Hab Hqs.
    - apply Forall2_nil_inv_l in Hqs as ->. simpl. by rewrite Z.add_0_r.
    - apply Forall2_cons_inv_l in Hqs as (z & zs' & Hq & Hqs & ->). simpl.
      replace (b + (z + sumZ zs')) with ((b + z) + sumZ zs') by lia.
      apply IH; [|done].
      rewrite Qmult_plus_distr_l, Hab, Hq, inject_Z_plus. reflexivity. }
  intros Hqs. apply (H 0%Q 0 ltac:(reflexivity) Hqs).
Qed.

Lemma elem_of_select {A} (mask : list bool) (l : list A) (x : A) :
  x ∈ select mask l → x ∈ l.
Proof.
  revert l. induction mask as [|b mask IH]; intros [|y l]; simpl;
    try (by intros ?%elem_of_nil).
  destruct b; [intros [->|?]%elem_of_cons; [by left|]|intros ?];
    right; by apply IH.
Qed.

Lemma sumZ_ge_length (l : list Z) :
  (∀ z, z ∈ l → 1 ≤ z) → Z.of_nat (length l) ≤ sumZ l.
Proof.
  induction l as [|z l IH]; intros Hl; simpl; [lia|].
  assert (1 ≤ z) by (apply Hl; by left).
  assert (Z.of_nat (length l) ≤ sumZ l)
    by (apply IH; intros; apply Hl; by right).
  lia.
Qed.

(** X20.  The masses of the bins are not rescaled: with at least one bin,
    cut points that do not decrease, one weight of at least 1 per
    validation unit and a total weight within int64, the masses of the bins
    of an arm add up to the weight of the validation units whose
    prediction lies within the first and the last cut point, over the
    weight of all validation units: to less than one as soon as a unit
    lies outside. *)
Theorem bin_masses_add_up_to_the_covered_weight s k n_groups wv wt
    (g : group_arrays) :
  cal_groups s k n_groups wv wt = Ok g →
  let cuts :=
    weighted_stat (col_of (cate_preds_train_ s) k) (levels n_groups) wt in
  let preds := col_of (cate_preds_val_ s) k in
  1 ≤ n_groups →
  (∀ i, (i < Z.to_nat n_groups)%nat →
     fle (cut_at cuts i) (cut_at cuts (S i)) = true) →
  length wv = length preds → (∀ z, z ∈ wv → 1 ≤ z) → sumZ wv ≤ INT64_MAX →
  ∃ q, np_sum (probs g) = Fin q ∧
    (q * inject_Z (sumZ wv)
     == inject_Z (sumZ (select (map (within_cuts n_groups cuts) preds) wv)))%Q.
Proof.
  intros Hg cuts preds Hn Hsorted Hlen Hw Hmax.
  destruct (cal_groups_Ok _ _ _ _ _ _ Hg) as [(Lp & _) Hent].
  cbv zeta in Hent. fold cuts preds in Hent.
  set (n := Z.to_nat n_groups) in *.
  set (ind := members n_groups cuts preds) in *.
  assert (∀ z, z ∈ wv → 0 ≤ z) as Hw0 by (intros z Hz; specialize (Hw z Hz); lia).
  set (W := sumZ wv).
  set (a := λ i, sumZ (select (ind i) wv)).
  set (qf := λ i, if np_any (ind i)
                  then (inject_Z (a i) / inject_Z W)%Q else 0%Q).
  assert (np_sum_int wv = W) as EW by (by apply np_sum_int_exact).
  assert (∀ i, np_sum_int (select (ind i) wv) = a i) as Ea.
  { intros i. pose proof (sumZ_select_bounds (ind i) wv Hw0) as Hb.
    apply np_sum_int_exact; [|unfold W in *; lia].
    intros z Hz. by apply Hw0, (elem_of_select (ind i)). }
  assert (∀ i, np_any (ind i) = true → 0 < W) as HW.
  { intros i Hany. pose proof (sumZ_ge_length wv Hw) as Hge.
    rewrite Hlen in Hge. unfold ind, members in Hany.
    destruct preds as [|x ps]; [done|]. simpl in Hge. unfold W. lia. }
  assert (probs g = map Fin (map qf (seq 0 n))) as Ep.
  { rewrite <- list_fmap_compose. apply list_of_lookups; [done|].
    intros i Hi. specialize (Hent i Hi).
    unfold entries, zero_entries in Hent. simpl. unfold qf.
    destruct (np_any (ind i)) eqn:Eany; [|by injection Hent].
    injection Hent as -> _ _ _ _. f_equal. unfold weighted_mass.
    rewrite EW, Ea. unfold fdiv, of_int.
    specialize (HW i Eany).
    destruct (Qeq_bool (inject_Z W) 0) eqn:E0; [|done].
    apply Qeq_bool_iff in E0. unfold Qeq in E0. simpl in E0. lia. }
  exists (fold_left Qplus (map qf (seq 0 n)) 0%Q).
  split; [by rewrite Ep, np_sum_Fin|].
  rewrite <- (bins_exchange (in_bin n_groups cuts)
                (within_cuts n_groups cuts) (seq 0 n) preds wv).
  - apply Qsum_scaled. apply Forall2_fmap, Forall_Forall2_diag, Forall_forall.
    intros i _. unfold qf. fold (ind i). fold (a i).
    destruct (np_any (ind i)) eqn:Eany.
    + specialize (HW i Eany).
      change (inject_Z (a i) / inject_Z W * inject_Z W == inject_Z (a i))%Q.
      unfold Qdiv.
      rewrite <- Qmult_assoc, (Qmult_comm (/ inject_Z W)), Qmult_inv_r,
        Qmult_1_r; [reflexivity|].
      intros E0. unfold Qeq in E0. simpl in E0. lia.
    + unfold a. rewrite (select_no_member _ _ Eany). simpl. apply Qmult_0_l.
  - apply NoDup_seq.
  - intros x Hx. unfold within_cuts. fold n.
    destruct (fle (cut_at cuts 0) x && fle x (cut_at cuts n)) eqn:Hin.
    + apply andb_true_iff in Hin as [H0 H1].
      destruct (in_bin_exists n_groups cuts n eq_refl Hsorted x)
        as (i & Hi & Hbin); [lia|done|done|].
      exists i. split; [apply elem_of_seq; lia|]. split; [done|].
      intros i' Hi' Hbin'. apply elem_of_seq in Hi'.
      apply (in_bin_unique n_groups cuts n eq_refl Hsorted i' i x);
        [lia|done..].
    + intros i Hi. apply elem_of_seq in Hi.
      destruct (in_bin n_groups cuts i x) eqn:Hbin; [|done].
      apply (in_bin_within n_groups cuts n eq_refl Hsorted) in Hbin
        as [H0 H1]; [|lia].
      by rewrite H0, H1 in Hin.
Qed.

End Proofs.

(** * The statements on the concrete data *)

Section Witnesses.
#[local] Existing Instance demo_types.
#[local] Existing Instance demo.

Lemma demo_fitted_run :
  fit_nuisance demo_Xval demo_Dval demo_yval (Some demo_Xtrain)
    (Some demo_Dtrain) (Some demo_ytrain) None None demo_new
  = (Ok tt, demo_fitted).
Proof. vm_compute. reflexivity. Defined.


Lemma calibration_score_witness :
  ∃ r w2 ate_k,
    evaluate_cal (Some demo_Xval) (Some demo_Xtrain) 2 None None demo_fitted
      = (Ok r, w2) ∧
    let s := self w2 in
    let wv := weights_used (cate_preds_val_ s) None in
    let wt := weights_used (cate_preds_train_ s) None in
    let cuts :=
      weighted_stat (col_of (cate_preds_train_ s) 0) (levels 2) wt in
    let preds := col_of (cate_preds_val_ s) 0 in
    let dr := col_of (dr_val_ s) 0 in
    np_average dr None = Ok ate_k ∧
    cal_r_squared r !! 0%nat =
      Some (fsub f1 (fdiv (Cal_G 2 cuts preds dr wv)
                          (Cal_O 2 cuts preds dr wv ate_k))).
Proof.
  destruct (evaluate_cal (Some demo_Xval) (Some demo_Xtrain) 2 None None
              demo_fitted) as [[r|e] w2] eqn:Hrun;
    [|exfalso; vm_compute in Hrun; discriminate].
  destruct (calibration_score demo_Xval demo_Dval demo_yval (Some demo_Xtrain)
              (Some demo_Dtrain) (Some demo_ytrain) None None
              (Some demo_Xval) (Some demo_Xtrain) 2 None None
              demo_new demo_fitted w2 r 0 demo_fitted_run Hrun)
    as (ate_k & Hate & Hscore).
  - vm_compute in Hrun. injection Hrun as <- <-. vm_compute. lia.
  - exists 0%nat. vm_compute in Hrun. injection Hrun as <- <-.
    split; [vm_compute; lia|vm_compute; reflexivity].
  - exists r, w2, ate_k. auto.
Defined.



(** C3 at the first validation unit, whose prediction is 1. *)
Lemma bins_cover_the_training_range_witness :
  let s := self demo_ready in
  let cuts :=
    weighted_stat (col_of (cate_preds_train_ s) 0) (levels 2) [1; 1; 1; 1] in
  ∃ i, (i < 2)%nat ∧ in_bin 2 cuts i (of_int 1) = true ∧
       ∀ i', (i' < 2)%nat → in_bin 2 cuts i' (of_int 1) = true → i' = i.
Proof.
  intros s cuts.
  destruct (bins_cover_the_training_range s 0 2 [1; 1; 1; 1]) as [_ H].
  - lia.
  - intros [|[|i]] Hi; [vm_compute; reflexivity..|simpl in Hi; lia].
  - destruct (H 0%nat (of_int 1)) as [_ Hbin]; [vm_compute; reflexivity|].
    fold s cuts in Hbin.
    destruct (fle (cut_at cuts 0) (of_int 1) &&
              fle (of_int 1) (cut_at cuts (Z.to_nat 2))) eqn:E;
      [exact Hbin|vm_compute in E; discriminate].
Defined.

(** C3 as stated fails: the fourth validation unit, whose prediction 7 is
    above the last cut point 6, is in neither of the two bins. *)
Lemma unit_outside_training_range_in_no_bin :
  let s := self demo_ready in
  let cuts :=
    weighted_stat (col_of (cate_preds_train_ s) 0) (levels 2) [1; 1; 1; 1] in
  let preds := col_of (cate_preds_val_ s) 0 in
  Forall2 feq cuts [Fin 0; Fin 3; Fin 6] ∧
  preds !! 3%nat = Some (Fin 7) ∧
  bin_mask 2 cuts preds 0 = Ok [true; true; false; false] ∧
  bin_mask 2 cuts preds 1 = Ok [false; false; true; false].
Proof.
  intros s cuts preds. split; [|split; [|split]].
  - vm_compute. repeat (constructor; [reflexivity|]). constructor.
  - vm_compute. reflexivity.
  - vm_compute. reflexivity.
  - vm_compute. reflexivity.
Qed.

(** C4 with four bins: the last bin has no member. *)
Lemma empty_bins_stay_zero_witness :
  let s := self demo_ready in
  let cuts :=
    weighted_stat (col_of (cate_preds_train_ s) 0) (levels 4) [1; 1; 1; 1] in
  let ind := members 4 cuts (col_of (cate_preds_val_ s) 0) in
  ∃ g, cal_groups s 0 4 [1; 1; 1; 1] [1; 1; 1; 1] = Ok g ∧
    entries g 3 = zero_entries ∧
    probs g !! 0%nat = Some (weighted_mass [1; 1; 1; 1] (ind 0%nat)).
Proof.
  intros s cuts ind.
  destruct (cal_arm s 0 4 [1; 1; 1; 1] [1; 1; 1; 1]) as [[score df]|e] eqn:Hrun;
    [|exfalso; vm_compute in Hrun; discriminate].
  destruct (empty_bins_stay_zero s 0 4 [1; 1; 1; 1] [1; 1; 1; 1] score df Hrun)
    as (g & Hg & _ & Hbins).
  exists g. split; [exact Hg|]. split.
  - apply (Hbins 3%nat); [vm_compute; lia|vm_compute; reflexivity].
  - apply (Hbins 0%nat); [vm_compute; lia|vm_compute; reflexivity].
Defined.

(** C5 on a new object. *)
Lemma evaluate_before_fit_witness :
  let w1 := (fit_nuisance demo_Xval demo_Dval demo_yval None None None
               None None demo_new).2 in
  evaluate_cal None None 4 None None w1 =
    (Raise (Exception
       "Must fit nuisance models on training sample data to use calibration test"),
     w1) ∧
  evaluate_blp None None None demo_new =
    (Raise (Exception "Must fit nuisances before evaluating"), demo_new) ∧
  evaluate_uplift None None default_percentiles "qini" 1000 None None demo_new =
    (Raise (Exception "Must fit nuisances before evaluating"), demo_new).
Proof.
  apply (evaluate_before_fit demo_Xval demo_Dval demo_yval None None None
           None None None None 4 default_percentiles "qini" 1000 None None
           demo_new demo_new).
  - reflexivity.
  - left. reflexivity.
  - reflexivity.
Defined.

(** C6 on the validation treatments [0; 1; 0; 1]. *)
Lemma fit_nuisance_treatments_witness :
  ∃ ts : list Z,
    treatments (self demo_fitted) = Some ts ∧
    StronglySorted Z.lt ts ∧
    (∀ x, x ∈ ts ↔ x ∈ demo_Dval) ∧
    head ts = minimum demo_Dval ∧
    n_treat (self demo_fitted) =
      Some (Z.of_nat (length (remove_dups demo_Dval)) - 1).
Proof.
  exact (fit_nuisance_treatments demo_Xval demo_Dval demo_yval
           (Some demo_Xtrain) (Some demo_Dtrain) (Some demo_ytrain) None None
           demo_new).
Defined.

(** C8 on the one arm of the data. *)
Lemma uplift_pvalues_witness :
  ∃ r w' q e,
    evaluate_uplift None None default_percentiles "qini" 10 None None demo_ready
      = (Ok r, w') ∧
    uplift_params r !! 0%nat = Some q ∧ uplift_errs r !! 0%nat = Some e ∧
    uplift_pvals r !! 0%nat = Some (fmul (Fin 2) (norm_sf (fabs (fdiv q e)))).
Proof.
  destruct (evaluate_uplift None None default_percentiles "qini" 10 None None
              demo_ready) as [[r|e] w'] eqn:Hrun;
    [|exfalso; vm_compute in Hrun; discriminate].
  destruct (uplift_pvalues None None default_percentiles "qini" 10 None None
              demo_ready w' r Hrun) as (_ & Hk & _).
  vm_compute in Hrun. injection Hrun as <- <-.
  eexists. eexists. exists (Fin 12), f1. split; [reflexivity|].
  split; [reflexivity|]. split; [reflexivity|].
  apply (Hk 0%nat (Fin 12) f1); reflexivity.
Defined.

(** C9 on the object that has run every test. *)
Lemma rerun_overwrites_own_result_witness :
  fitted_state (self (evaluate_blp None None None demo_tested).2)
    = fitted_state (self demo_tested) ∧
  fitted_state (self (evaluate_cal None None 2 None None demo_tested).2)
    = fitted_state (self demo_tested) ∧
  fitted_state
    (self (evaluate_uplift None None default_percentiles "toc" 10 None None
             demo_tested).2)
    = fitted_state (self demo_tested).
Proof.
  destruct (rerun_overwrites_own_result None None 2 default_percentiles "toc" 10
              None None demo_tested) as (Hblp & Hcal & Hup).
  - unfold demo_tested, demo_ready, demo_fitted, demo_new.
    do 3 apply reachable_run. apply reachable_new.
  - split; [|split].
    + apply Hblp. eexists. vm_compute. reflexivity.
    + apply Hcal. eexists. vm_compute. reflexivity.
    + apply Hup. eexists. vm_compute. reflexivity.
Defined.


(** C7.  With a training sample of one row and one arm besides the control,
    the CATE predictions of the training sample have no dimension at all;
    with two arms besides the control they form a 2 x 1 matrix instead of a
    1 x 2 matrix. *)
Theorem single_row_predictions_lose_their_shape :
  (let w := (get_cate_preds demo_Xval (Some [of_int 5]) demo_fitted).2 in
   n_treat (self w) = Some 1 ∧
   cate_preds_train_ (self w) = Some (A0 (Fin 5)) ∧
   ndim (A0 (Fin 5)) = 0%nat) ∧
  (cate_preds [of_int 5] [0; 1; 2] = Ok (A2 1 [[Fin 5]; [Fin 10]]) ∧
   shape (A2 1 [[Fin 5]; [Fin 10]]) = [2; 1]%nat).
Proof. vm_compute. repeat split; reflexivity. Qed.

(** ** More statements on the concrete data *)

(** X1 on the fitted object, which has no predictions yet. *)
Lemma predictions_need_features_witness :
  evaluate_cal None None 2 None None demo_fitted =
    (Raise (Exception
       "CATE predictions not yet calculated - must provide both Xval, Xtrain"),
     demo_fitted) ∧
  evaluate_all None None 2 10 None None demo_fitted =
    (Raise (Exception
       "CATE predictions not yet calculated - must provide both Xval, Xtrain"),
     demo_fitted) ∧
  evaluate_blp None None None demo_fitted =
    (Raise (Exception
       "CATE predictions not yet calculated - must provide Xval"),
     demo_fitted).
Proof.
  destruct (predictions_need_features None None 2 default_percentiles "qini"
              10 None None demo_fitted) as (Hcal & _ & Hall & Hblp).
  - left. reflexivity.
  - left. vm_compute. reflexivity.
  - split; [|split].
    + apply Hcal. eexists. vm_compute. reflexivity.
    + exact Hall.
    + apply Hblp; [eexists|]; vm_compute; reflexivity.
Defined.

(** X2 on a new object, and on an object fitted on a validation sample in
    which every unit has the treatment 1. *)
Lemma get_cate_preds_needs_an_arm_witness :
  get_cate_preds demo_Xval None demo_new =
    (Raise (AttributeError "treatments"), demo_new) ∧
  let w1 := (fit_nuisance demo_Xval [1; 1; 1; 1] demo_yval None None None
               None None demo_new).2 in
  ∃ msg, get_cate_preds demo_Xval None w1 = (Raise (ValueError msg), w1).
Proof.
  split.
  - apply (get_cate_preds_needs_an_arm demo_Xval None demo_new). reflexivity.
  - intros w1.
    apply (proj2 (proj2 (get_cate_preds_needs_an_arm demo_Xval None w1)) 1).
    vm_compute. reflexivity.
Defined.

(** X3 on a new object. *)
Lemma evaluate_all_before_fit_witness :
  evaluate_all (Some demo_Xval) (Some demo_Xtrain) 2 10 None None demo_new =
    (Raise (AttributeError "treatments"), demo_new).
Proof.
  apply evaluate_all_before_fit; [reflexivity|left; reflexivity].
Defined.

(** X4 on the object that holds the predictions: the samples are given the
    other way round. *)
Lemma cached_predictions_are_reused_witness :
  evaluate_blp (Some demo_Xtrain) None None demo_ready
    = evaluate_blp None None None demo_ready ∧
  evaluate_cal (Some demo_Xtrain) (Some demo_Xval) 2 None None demo_ready
    = evaluate_cal None None 2 None None demo_ready.
Proof.
  destruct (cached_predictions_are_reused (Some demo_Xtrain) (Some demo_Xval)
              None None 2 default_percentiles "qini" 10 None None demo_ready)
    as [Hblp Hrest].
  - eexists. vm_compute. reflexivity.
  - split.
    + apply (cached_predictions_are_reused (Some demo_Xtrain) None
               None None 2 default_percentiles "qini" 10 None None demo_ready).
      eexists. vm_compute. reflexivity.
    + apply Hrest. eexists. vm_compute. reflexivity.
Defined.

(** X5 on the object that has run every test, fitted again without training
    data. *)
Lemma fit_nuisance_keeps_predictions_and_results_witness :
  let s' := self (fit_nuisance demo_Xval demo_Dval demo_yval None None None
                    None None demo_tested).2 in
  fit_on_train s' = Some false ∧
  dr_train_ s' = dr_train_ (self demo_tested) ∧
  cate_preds_val_ s' = cate_preds_val_ (self demo_tested) ∧
  cal_res s' = cal_res (self demo_tested).
Proof.
  intros s'.
  destruct (fit_nuisance_keeps_predictions_and_results demo_Xval demo_Dval
              demo_yval None None None None None demo_tested)
    as [(Hv & _ & _ & Hcal & _) Hnone].
  destruct Hnone as (Hf & Hdr & _); [left; reflexivity|].
  split; [exact Hf|]. split; [exact Hdr|]. split; [exact Hv|exact Hcal].
Defined.

(** X6 on weights that hold a weight of 1/2. *)
Lemma blp_regressions_witness :
  ∃ r w' p e pv,
    evaluate_blp None None (Some demo_small) demo_ready = (Ok r, w') ∧
    blp_res (self w') = Some r ∧
    wls_hc1 (col_of (dr_val_ (self w')) 0) (col_of (cate_preds_val_ (self w')) 0)
      demo_small = (p, e, pv) ∧
    blp_params r !! 0%nat = Some p.
Proof.
  destruct (evaluate_blp None None (Some demo_small) demo_ready)
    as [[r|e] w'] eqn:Hrun; [|exfalso; vm_compute in Hrun; discriminate].
  destruct (blp_regressions None None (Some demo_small) demo_ready w' r Hrun)
    as (Hres & _ & _ & Hk).
  destruct (Hk 0%nat) as (p & e & pv & Hw & Hp & _).
  - vm_compute in Hrun. injection Hrun as <- <-. vm_compute. lia.
  - exists r, w', p, e, pv. split; [reflexivity|]. split; [exact Hres|].
    split; [exact Hw|exact Hp].
Defined.

(** X7 on the object that holds the predictions. *)
Lemma evaluate_all_caches_every_result_witness :
  ∃ r w',
    evaluate_all None None 2 10 None None demo_ready = (Ok r, w') ∧
    res (self w') = Some r ∧ blp_res (self w') = Some (all_blp_res r) ∧
    cal_res (self w') = Some (all_cal_res r) ∧
    uplift_res (self w') = Some (all_toc_res r).
Proof.
  destruct (evaluate_all None None 2 10 None None demo_ready)
    as [[r|e] w'] eqn:Hrun; [|exfalso; vm_compute in Hrun; discriminate].
  destruct (evaluate_all_caches_every_result None None 2 10 None None
              demo_ready w' r Hrun) as (H1 & H2 & H3 & H4 & _).
  exists r, w'. split; [reflexivity|]. split; [exact H1|].
  split; [exact H2|]. split; [exact H3|exact H4].
Defined.

(** X8 on the object that has run every test: a calibration test with a
    weight of 1/2. *)
Lemma a_test_that_raises_assigns_no_result_witness :
  ∃ e w',
    evaluate_cal None None 2 (Some demo_small) None demo_tested
      = (Raise e, w') ∧
    cached_results (self w') = cached_results (self demo_tested).
Proof.
  destruct (evaluate_cal None None 2 (Some demo_small) None demo_tested)
    as [[r|e] w'] eqn:Hrun; [exfalso; vm_compute in Hrun; discriminate|].
  exists e, w'. split; [reflexivity|].
  exact (proj1 (proj2 (a_test_that_raises_assigns_no_result None None 2
                         default_percentiles "qini" 10 (Some demo_small) None
                         e demo_tested w')) Hrun).
Defined.

(** X9 on the object that has run every test. *)
Lemma fitted_attributes_go_together_witness :
  fit_attributes (self demo_tested).
Proof.
  apply fitted_attributes_go_together.
  unfold demo_tested, demo_ready, demo_fitted, demo_new.
  do 3 apply reachable_run. apply reachable_new.
Defined.

(** X10 on the object that has run every test. *)
Lemma cached_values_have_their_sources_witness :
  result_attributes (self demo_tested) ∧ results_have_preds (self demo_tested).
Proof.
  apply cached_values_have_their_sources.
  unfold demo_tested, demo_ready, demo_fitted, demo_new.
  do 3 apply reachable_run. apply reachable_new.
Defined.


(** X12 at [n_groups = -2]. *)
Lemma negative_n_groups_gives_no_score_witness :
  is_Ok (cal_arm (self demo_ready) 0 (-2) [1; 1; 1; 1] [1; 1; 1; 1]) = false ∧
  ∃ msg, cal_arm (self demo_ready) 0 (-2) [1; 1; 1; 1] [1; 1; 1; 1]
         = Raise (ValueError msg).
Proof.
  destruct (cate_preds_train_ (self demo_ready)) as [a|] eqn:Ha;
    [|exfalso; vm_compute in Ha; discriminate].
  destruct (negative_n_groups_gives_no_score None None (-2) None None
              demo_ready demo_ready
              {| cal_r_squared := []; plot_data_dict := [];
                 cal_treatments := [] |}
              (self demo_ready) 0 [1; 1; 1; 1] [1; 1; 1; 1] a)
    as (H1 & H2 & _); [lia|].
  split; [exact H1|]. apply H2; [lia|exact Ha|].
  vm_compute in Ha. injection Ha as <-. reflexivity.
Defined.

(** X13 on the object that holds the predictions. *)
Lemma calibration_result_layout_witness :
  ∃ r w',
    evaluate_cal None None 2 None None demo_ready = (Ok r, w') ∧
    cal_treatments r = [0; 1] ∧
    map fst (plot_data_dict r) = drop 1 (cal_treatments r) ∧
    length (cal_r_squared r) = (length (cal_treatments r) - 1)%nat.
Proof.
  destruct (evaluate_cal None None 2 None None demo_ready)
    as [[r|e] w'] eqn:Hrun; [|exfalso; vm_compute in Hrun; discriminate].
  destruct (calibration_result_layout None None 2 None None demo_ready w' r)
    as (_ & Hlen & Hkeys & _).
  - unfold demo_ready, demo_fitted. do 2 apply fit_attributes_run.
    unfold fit_attributes. simpl. repeat split.
  - exact Hrun.
  - exists r, w'. split; [reflexivity|].
    split; [|split; [exact Hkeys|exact Hlen]].
    vm_compute in Hrun. injection Hrun as <- _. reflexivity.
Defined.

(** X14 on the validation sample and the treatments 0 and 1. *)
Lemma cate_predictions_by_arm_witness :
  ∃ a, cate_preds demo_Xval [0; 1] = Ok a ∧
       nd_col a 0 = Ok (cate_effect demo_Xval 0 1) ∧
       shape a = [4; 1]%nat.
Proof.
  destruct (cate_preds demo_Xval [0; 1]) as [a|e] eqn:H;
    [|exfalso; vm_compute in H; discriminate].
  exists a. split; [reflexivity|].
  apply (cate_predictions_by_arm demo_Xval [0; 1] a 0 0 1).
  - intros t0 t1. reflexivity.
  - simpl. lia.
  - exact H.
  - reflexivity.
  - reflexivity.
Defined.

(** X15 on the training sample, applied to the validation sample. *)
Lemma fit_nuisance_train_predictions_witness :
  ∃ reg prop w',
    fit_nuisance_train demo_Xtrain demo_Dtrain demo_ytrain demo_Xval None
      demo_fitted = (Ok (reg, prop), w') ∧
    model_propensity_ (self w')
      = Some (propensity_fit demo_Xtrain demo_Dtrain (np_ones 4)) ∧
    ∃ nt, n_treat (self demo_fitted) = Some nt ∧
          shape reg = [4%nat; Z.to_nat (nt + 1)].
Proof.
  destruct (fit_nuisance_train demo_Xtrain demo_Dtrain demo_ytrain demo_Xval
              None demo_fitted) as [[[reg prop]|e] w'] eqn:Hrun;
    [|exfalso; vm_compute in Hrun; discriminate].
  destruct (fit_nuisance_train_predictions demo_Xtrain demo_Dtrain demo_ytrain
              demo_Xval None demo_fitted w' reg prop)
    as (Hm & _ & nt & Hnt & Hshape & _).
  - intros X y sw. reflexivity.
  - exact Hrun.
  - exists reg, prop, w'. split; [reflexivity|]. split; [exact Hm|].
    exists nt. split; [exact Hnt|exact Hshape].
Defined.

(** X16 on the object that holds the predictions. *)
Lemma uplift_result_layout_witness :
  ∃ r w',
    evaluate_uplift None None default_percentiles "qini" 10 None None
      demo_ready = (Ok r, w') ∧
    uplift_res (self w') = Some r ∧
    map fst (curve_data_dict r) = drop 1 (uplift_treatments r) ∧
    length (uplift_params r) = (length (uplift_treatments r) - 1)%nat.
Proof.
  destruct (evaluate_uplift None None default_percentiles "qini" 10 None None
              demo_ready) as [[r|e] w'] eqn:Hrun;
    [|exfalso; vm_compute in Hrun; discriminate].
  destruct (uplift_result_layout None None default_percentiles "qini" 10
              None None demo_ready w' r) as (Hres & _ & Hkeys & Hlen).
  - unfold demo_ready, demo_fitted. do 2 apply fit_attributes_run.
    unfold fit_attributes. simpl. repeat split.
  - exact Hrun.
  - exists r, w'. split; [reflexivity|]. split; [exact Hres|].
    split; [exact Hkeys|exact Hlen].
Defined.

(** X17 on the object that holds the predictions of four validation units
    and four training units. *)
Lemma default_weights_are_ones_witness :
  evaluate_blp None None None demo_ready
    = evaluate_blp None None (Some (np_ones 4)) demo_ready ∧
  evaluate_cal None None 2 None None demo_ready
    = evaluate_cal None None 2 (Some (np_ones 4)) (Some (np_ones 4))
        demo_ready.
Proof.
  destruct (cate_preds_val_ (self demo_ready)) as [av|] eqn:Hv;
    [|exfalso; vm_compute in Hv; discriminate].
  destruct (cate_preds_train_ (self demo_ready)) as [at_|] eqn:Ht;
    [|exfalso; vm_compute in Ht; discriminate].
  destruct (default_weights_are_ones None None 2 default_percentiles "qini" 10
              av at_ 4 4 demo_ready Hv) as [Hblp Hrest].
  - vm_compute in Hv. injection Hv as <-. reflexivity.
  - split; [exact Hblp|]. apply Hrest; [exact Ht|].
    vm_compute in Ht. injection Ht as <-. reflexivity.
Defined.

(** X18 on a new object: a fit without training data, with and without
    training weights. *)
Lemma validation_weights_enter_the_ate_only_witness :
  fit_nuisance demo_Xval demo_Dval demo_yval None None None None
    (Some demo_small) demo_new
  = fit_nuisance demo_Xval demo_Dval demo_yval None None None None None
      demo_new.
Proof.
  apply (validation_weights_enter_the_ate_only demo_Xval demo_Dval demo_yval
           demo_Xtrain demo_Dtrain demo_ytrain None None None None None
           (Some demo_small) None demo_new).
  left. reflexivity.
Defined.

(** X19 on the validation sample, with the single fold of the splitter:
    the third unit and the arm 1. *)
Lemma cross_fitted_predictions_witness :
  ∃ reg prop w' ts pred,
    fit_nuisance_cv demo_Xval demo_Dval demo_yval None demo_fitted
      = (Ok (reg, prop), w') ∧
    treatments (self demo_fitted) = Some ts ∧
    fold_prediction demo_Xval demo_Dval demo_yval (np_ones 4) ts 1
      [0; 1; 2; 3]%nat [0; 1; 2; 3]%nat 2 pred ∧
    nd_get reg 2 1 = Ok pred.
Proof.
  destruct (fit_nuisance_cv demo_Xval demo_Dval demo_yval None demo_fitted)
    as [[[reg prop]|e] w'] eqn:Hrun;
    [|exfalso; vm_compute in Hrun; discriminate].
  destruct (cross_fitted_predictions demo_Xval demo_Dval demo_yval None
              demo_fitted w' reg prop)
    as (_ & _ & nt & Hnt & _ & Hcells).
  - intros Xtr ytr wtr Xte. apply length_map.
  - exact Hrun.
  - destruct (Hcells) with (k := 1%nat) as [_ Hfold].
    + apply (bool_decide_unpack _). vm_compute. exact I.
    + vm_compute in Hnt. injection Hnt as <-. vm_compute. lia.
    + destruct (Hfold 0%nat [0; 1; 2; 3]%nat [0; 1; 2; 3]%nat 2%nat 2%nat)
        as (ts & pred & Hts & Hpred & Hget); [reflexivity..|].
      exists reg, prop, w', ts, pred.
      split; [reflexivity|]. split; [exact Hts|]. split; [exact Hpred|].
      exact Hget.
Defined.

(** X20 on the object that holds the predictions, with two bins and unit
    weights: three of the four validation units lie within the cut points,
    and the masses add up to 3/4. *)
Lemma bin_masses_add_up_to_the_covered_weight_witness :
  let s := self demo_ready in
  let cuts :=
    weighted_stat (col_of (cate_preds_train_ s) 0) (levels 2) [1; 1; 1; 1] in
  let preds := col_of (cate_preds_val_ s) 0 in
  let total := sumZ [1; 1; 1; 1] in
  let covered :=
    sumZ (select (map (within_cuts 2 cuts) preds) [1; 1; 1; 1]) in
  ∃ g q,
    cal_groups s 0 2 [1; 1; 1; 1] [1; 1; 1; 1] = Ok g ∧
    np_sum (probs g) = Fin q ∧
    (q * inject_Z total == inject_Z covered)%Q ∧
    total = 4 ∧ covered = 3.
Proof.
  intros s cuts preds total covered.
  destruct (cal_groups s 0 2 [1; 1; 1; 1] [1; 1; 1; 1]) as [g|e] eqn:Hg;
    [|exfalso; vm_compute in Hg; discriminate].
  destruct (bin_masses_add_up_to_the_covered_weight s 0 2 [1; 1; 1; 1]
              [1; 1; 1; 1] g Hg) as (q & Hq & Hsum).
  - lia.
  - intros [|[|i]] Hi; [vm_compute; reflexivity..|simpl in Hi; lia].
  - vm_compute. reflexivity.
  - intros z Hz.
    repeat (apply elem_of_cons in Hz as [->|Hz]; [lia|]).
    by apply elem_of_nil in Hz.
  - rewrite (proj2 int64_bounds). simpl. lia.
  - exists g, q. split; [reflexivity|]. split; [exact Hq|].
    split; [exact Hsum|]. split; vm_compute; reflexivity.
Defined.

End Witnesses.
